(** * Haven JS runtime: hybrid encryption engine and JSON-RPC control protocol

    A shallow embedding of the TypeScript services of haven-cli
    (hybrid-crypto.ts, lit-wrapper.ts, synapse-wrapper.ts, main.ts) and the
    properties of their natural-language specification.

    Conventions of the embedding.
    - A JavaScript call that may throw returns a [completion]: [Return v] or
      [Throw t].  An awaited promise is the completion it settles to; the
      runtime is single threaded, so an [await]ed call is a function call
      that hands back the new state.
    - Platform services (Web Crypto, the Lit SDK client, [fetch],
      [JSON.parse]) are fields of a record or Section variables: the code is
      verified against every behaviour they may have.
    - Module-level variables and object fields are fields of explicit state
      records that every operation threads through.

    Layout.  The first part holds the model, one module per source file
    ([Js] and [Regex] for the language underneath), followed by two small
    concrete settings to run it in ([Startup], [Toy]).  The second part
    holds the properties, one [...Facts] module per model module. *)

From Stdlib Require Import List ZArith NArith Lia Bool Arith.
From Stdlib.Strings Require Import String Ascii Byte.
From Stdlib Require Import Wellfounded.
From Equations Require Import Equations.
Import ListNotations.

Set Implicit Arguments.
Unset Strict Implicit.
Set Warnings "-register-all".

Local Open Scope string_scope.

(* ====================================================================== *)
(** ** JavaScript values, exceptions and completions                       *)
(* ====================================================================== *)

Module Js.

(** A value produced by [JSON.parse].  Numbers are kept as integers: no
    operation modelled here computes with a fraction, only [!x] (is it
    zero) and [String(x)] look at a number.  The integers meant are those a
    double holds exactly and prints in full, of magnitude below 2^53; a
    larger number in the text is rounded by [JSON.parse] and printed with
    an exponent from 1e21 on, which [JNum] does not follow. *)
Inductive JSON : Type :=
| JNull
| JBool (b : bool)
| JNum (z : Z)
| JStr (s : string)
| JArr (items : list JSON)
| JObj (fields : list (string * JSON)).

(** A property read [v.name] gives [undefined] ([None]) or a value. *)
Definition jsval := option JSON.

(** What a [throw] carries: an [Error] instance (of any subclass) with its
    [message], or some other value, kept as its [String(v)] rendering. *)
Inductive thrown : Type :=
| ThrowError (message : string)
| ThrowValue (rendered : string).

Inductive completion (A : Type) : Type :=
| Return (a : A)
| Throw (t : thrown).
Arguments Return {A} a.
Arguments Throw {A} t.

Definition bind {A B} (c : completion A) (k : A -> completion B) : completion B :=
  match c with
  | Return a => k a
  | Throw t => Throw t
  end.

Definition is_return {A} (c : completion A) : bool :=
  match c with Return _ => true | Throw _ => false end.

(** [error instanceof Error ? error.message : String(error)] *)
Definition message_of (t : thrown) : string :=
  match t with
  | ThrowError m => m
  | ThrowValue s => s
  end.

(** Own-property lookup in a parsed object (first binding of the key). *)
Fixpoint assoc (k : string) (fields : list (string * JSON)) : jsval :=
  match fields with
  | [] => None
  | (k', v) :: rest => if String.eqb k k' then Some v else assoc k rest
  end.

(** [v.name] for a value that came out of [JSON.parse].  Reading a property
    of [null] throws a TypeError; primitives and arrays have none of the
    names used in this program; objects answer with their own field. *)
Definition TypeError_null (name : string) : thrown :=
  ThrowError ("Cannot read properties of null (reading '" ++ name ++ "')").

Definition get (v : JSON) (name : string) : completion jsval :=
  match v with
  | JNull => Throw (TypeError_null name)
  | JObj fields => Return (assoc name fields)
  | _ => Return None
  end.

(** The TypeError of [const { name, ... } = source] when the value is
    [null]; the message names the first property of the pattern. *)
Definition TypeError_destructure (name source : string) : thrown :=
  ThrowError ("Cannot destructure property '" ++ name ++ "' of '" ++ source
              ++ "' as it is null.").

(** JavaScript truthiness, as used by [!x] and [if (x)]. *)
Definition truthy (v : jsval) : bool :=
  match v with
  | None => false
  | Some JNull => false
  | Some (JBool b) => b
  | Some (JNum z) => negb (Z.eqb z 0)
  | Some (JStr s) => negb (String.eqb s "")
  | Some (JArr _) => true
  | Some (JObj _) => true
  end.

Definition string_truthy (s : string) : bool := negb (String.eqb s "").

(** Decimal rendering of an integer, as [String(n)] prints it. *)
Fixpoint digits_fuel (fuel : nat) (n : N) (acc : string) : string :=
  match fuel with
  | O => acc
  | S fuel' =>
      let d := ascii_of_N (48 + n mod 10) in
      let acc' := String d acc in
      if (n <? 10)%N then acc' else digits_fuel fuel' (n / 10)%N acc'
  end.

Definition string_of_N (n : N) : string :=
  digits_fuel (S (N.to_nat (N.log2 n))) n "".

Definition string_of_Z (z : Z) : string :=
  match z with
  | Z0 => "0"
  | Zpos p => string_of_N (Npos p)
  | Zneg p => "-" ++ string_of_N (Npos p)
  end.

(** [String(v)]: arrays join their elements with a comma, [null] and
    [undefined] elements printing as nothing; objects print as
    [[object Object]]. *)
Fixpoint to_String (v : JSON) : string :=
  match v with
  | JNull => "null"
  | JBool true => "true"
  | JBool false => "false"
  | JNum z => string_of_Z z
  | JStr s => s
  | JArr items =>
      let elem (x : JSON) : string :=
        match x with JNull => "" | _ => to_String x end in
      String.concat "," (map elem items)
  | JObj _ => "[object Object]"
  end.

Definition String_ (v : jsval) : string :=
  match v with
  | None => "undefined"
  | Some j => to_String j
  end.

(** Strings are sequences of code units below 256; these are the ones
    [String.prototype.trim] removes in that range. *)
Definition is_space (c : ascii) : bool :=
  let n := N_of_ascii c in
  ((9 <=? n) && (n <=? 13) || (n =? 32) || (n =? 160))%N.

Fixpoint trimStart (s : string) : string :=
  match s with
  | EmptyString => EmptyString
  | String c rest => if is_space c then trimStart rest else s
  end.

Fixpoint trimEnd (s : string) : string :=
  match s with
  | EmptyString => EmptyString
  | String c rest =>
      match trimEnd rest with
      | EmptyString => if is_space c then EmptyString else String c EmptyString
      | kept => String c kept
      end
  end.

Definition trim (s : string) : string := trimEnd (trimStart s).

(** [s.startsWith(prefix)] *)
Definition startsWith (prefix s : string) : bool := String.prefix prefix s.

(** [s.toLowerCase()] on the ASCII letters. *)
Definition lower (c : ascii) : ascii :=
  let n := N_of_ascii c in
  if ((65 <=? n) && (n <=? 90))%N then ascii_of_N (n + 32) else c.

Fixpoint toLowerCase (s : string) : string :=
  match s with
  | EmptyString => EmptyString
  | String c rest => String (lower c) (toLowerCase rest)
  end.

(** [b.toString(16).padStart(2, '0')] for a byte, and its [join('')] over
    an array of bytes. *)
Definition hexdigit (n : N) : ascii :=
  match String.get (N.to_nat n) "0123456789abcdef" with
  | Some c => c
  | None => "0"%char
  end.

Definition hex_of_byte (b : byte) : string :=
  let n := Byte.to_N b in
  String (hexdigit (n / 16)) (String (hexdigit (n mod 16)) EmptyString).

Definition hex (bytes : list byte) : string :=
  String.concat "" (map hex_of_byte bytes).

(** [buffer.fill(0)] *)
Definition fill0 (buffer : list byte) : list byte :=
  map (fun _ => Byte.x00) buffer.

End Js.

Import Js.

Declare Scope js_scope.
Delimit Scope js_scope with js.
Notation "x <- c ;; k" := (Js.bind c (fun x => k))
  (at level 61, c at next level, right associativity) : js_scope.

(* ====================================================================== *)
(** ** Base64 ([btoa] / [atob]) and the byte-array conversions *)
(* ====================================================================== *)

Module Base64.

Local Open Scope N_scope.

Definition alphabet : string :=
  "ABCDEFGHIJKLMNOPQRSTUVWXYZabcdefghijklmnopqrstuvwxyz0123456789+/".

Definition pad : ascii := "="%char.

Definition b64char (n : N) : ascii :=
  match String.get (N.to_nat n) alphabet with
  | Some c => c
  | None => pad
  end.

Definition b64index (c : ascii) : option N :=
  let n := N_of_ascii c in
  if (65 <=? n) && (n <=? 90) then Some (n - 65)
  else if (97 <=? n) && (n <=? 122) then Some (n - 71)
  else if (48 <=? n) && (n <=? 57) then Some (n + 4)
  else if n =? 43 then Some 62
  else if n =? 47 then Some 63
  else None.

(** [btoa]: a binary string (one character per byte) to base64 text. *)
Fixpoint btoa (s : string) : string :=
  match s with
  | EmptyString => EmptyString
  | String a EmptyString =>
      let x := N_of_ascii a in
      String (b64char (x / 4)) (String (b64char ((x mod 4) * 16))
        (String pad (String pad EmptyString)))
  | String a (String b EmptyString) =>
      let x := N_of_ascii a in
      let y := N_of_ascii b in
      String (b64char (x / 4)) (String (b64char ((x mod 4) * 16 + y / 16))
        (String (b64char ((y mod 16) * 4)) (String pad EmptyString)))
  | String a (String b (String c rest)) =>
      let x := N_of_ascii a in
      let y := N_of_ascii b in
      let z := N_of_ascii c in
      String (b64char (x / 4)) (String (b64char ((x mod 4) * 16 + y / 16))
        (String (b64char ((y mod 16) * 4 + z / 64))
          (String (b64char (z mod 64)) (btoa rest))))
  end.

(** The characters [atob] removes before it decodes: TAB, LF, FF, CR and
    SPACE. *)
Definition is_ascii_whitespace (c : ascii) : bool :=
  let n := N_of_ascii c in
  (n =? 9) || (n =? 10) || (n =? 12) || (n =? 13) || (n =? 32).

Fixpoint strip_whitespace (s : string) : string :=
  match s with
  | EmptyString => EmptyString
  | String c rest =>
      if is_ascii_whitespace c then strip_whitespace rest
      else String c (strip_whitespace rest)
  end.

(** The decoding step of [atob], on text without whitespace.  One or two
    [=] are dropped from the end of a text whose length is a multiple of
    four; what is left must consist of characters of the alphabet and must
    not have a length of 1 modulo 4.  Every four characters give three
    bytes; two left over give one byte and three give two, the unused low
    bits being dropped.  [None] stands for the InvalidCharacterError. *)
Fixpoint forgiving_decode (s : string) : option string :=
  match s with
  | EmptyString => Some EmptyString
  | String c1 (String c2 EmptyString) =>
      match b64index c1, b64index c2 with
      | Some i1, Some i2 =>
          Some (String (ascii_of_N (i1 * 4 + i2 / 16)) EmptyString)
      | _, _ => None
      end
  | String c1 (String c2 (String c3 EmptyString)) =>
      match b64index c1, b64index c2, b64index c3 with
      | Some i1, Some i2, Some i3 =>
          Some (String (ascii_of_N (i1 * 4 + i2 / 16))
                  (String (ascii_of_N ((i2 mod 16) * 16 + i3 / 4))
                     EmptyString))
      | _, _, _ => None
      end
  | String c1 (String c2 (String c3 (String c4 rest))) =>
      match b64index c1, b64index c2 with
      | Some i1, Some i2 =>
          let a := ascii_of_N (i1 * 4 + i2 / 16) in
          if Ascii.eqb c3 pad then
            if Ascii.eqb c4 pad && String.eqb rest EmptyString
            then Some (String a EmptyString) else None
          else
            match b64index c3 with
            | Some i3 =>
                let b := ascii_of_N ((i2 mod 16) * 16 + i3 / 4) in
                if Ascii.eqb c4 pad then
                  if String.eqb rest EmptyString
                  then Some (String a (String b EmptyString)) else None
                else
                  match b64index c4 with
                  | Some i4 =>
                      let c := ascii_of_N ((i3 mod 4) * 64 + i4) in
                      match forgiving_decode rest with
                      | Some tl => Some (String a (String b (String c tl)))
                      | None => None
                      end
                  | None => None
                  end
            | None => None
            end
      | _, _ => None
      end
  | _ => None
  end.

(** [atob]: base64 text, padded or not and with whitespace anywhere, to a
    binary string. *)
Definition atob (s : string) : option string :=
  forgiving_decode (strip_whitespace s).

(** [arrayBufferToBase64]: [String.fromCharCode] on every byte, then
    [btoa]. *)
Definition arrayBufferToBase64 (bytes : list byte) : string :=
  btoa (string_of_list_byte bytes).

(** [base64ToArrayBuffer]: [atob], then [charCodeAt] into a fresh
    [Uint8Array]. *)
Definition base64ToArrayBuffer (base64 : string) : completion (list byte) :=
  match atob base64 with
  | Some binary => Return (list_byte_of_string binary)
  | None => Throw (ThrowError "Failed to decode base64")
  end.

End Base64.

(* ====================================================================== *)
(** ** Regular expressions, as [RegExp.prototype.test] runs them *)
(* ====================================================================== *)

Module Regex.

(** The fragment of the regular-expression language the program uses:
    character classes, sequence, alternation and repetition.  A pattern
    written between [^] and [$] (no [m] flag) has to match the whole
    subject, which is what [test] below decides. *)
Inductive re : Type :=
| Void
| Eps
| Class (p : ascii -> bool)
| Seq (r1 r2 : re)
| Alt (r1 r2 : re)
| Star (r : re).

Fixpoint nullable (r : re) : bool :=
  match r with
  | Void => false
  | Eps => true
  | Class _ => false
  | Seq r1 r2 => nullable r1 && nullable r2
  | Alt r1 r2 => nullable r1 || nullable r2
  | Star _ => true
  end.

Fixpoint deriv (c : ascii) (r : re) : re :=
  match r with
  | Void => Void
  | Eps => Void
  | Class p => if p c then Eps else Void
  | Seq r1 r2 =>
      if nullable r1
      then Alt (Seq (deriv c r1) r2) (deriv c r2)
      else Seq (deriv c r1) r2
  | Alt r1 r2 => Alt (deriv c r1) (deriv c r2)
  | Star r1 => Seq (deriv c r1) (Star r1)
  end.

Fixpoint test (r : re) (s : string) : bool :=
  match s with
  | EmptyString => nullable r
  | String c rest => test (deriv c r) rest
  end.

(** Pattern builders: a literal word, [r{n}] and [r{n,}]. *)
Fixpoint lit (w : string) : re :=
  match w with
  | EmptyString => Eps
  | String c rest => Seq (Class (Ascii.eqb c)) (lit rest)
  end.

Fixpoint times (n : nat) (r : re) : re :=
  match n with
  | O => Eps
  | S k => Seq r (times k r)
  end.

Definition at_least (n : nat) (r : re) : re := Seq (times n r) (Star r).

(** [a-b] inside a class. *)
Definition range (lo hi : ascii) (c : ascii) : bool :=
  (N_of_ascii lo <=? N_of_ascii c)%N && (N_of_ascii c <=? N_of_ascii hi)%N.

(** The language of a pattern, for stating what [test] accepts. *)
Inductive lang : re -> string -> Prop :=
| LEps : lang Eps EmptyString
| LClass p c : p c = true -> lang (Class p) (String c EmptyString)
| LSeq r1 r2 s1 s2 : lang r1 s1 -> lang r2 s2 -> lang (Seq r1 r2) (s1 ++ s2)
| LAltL r1 r2 s : lang r1 s -> lang (Alt r1 r2) s
| LAltR r1 r2 s : lang r2 s -> lang (Alt r1 r2) s
| LStarNil r : lang (Star r) EmptyString
| LStarApp r s1 s2 : lang r s1 -> lang (Star r) s2 -> lang (Star r) (s1 ++ s2).

Fixpoint all (p : ascii -> bool) (s : string) : bool :=
  match s with
  | EmptyString => true
  | String c rest => p c && all p rest
  end.

End Regex.

(* ====================================================================== *)
(** ** synapse-wrapper.ts: CID validation and the download gate *)
(* ====================================================================== *)

Module Synapse.

Import Regex.

(** [[1-9A-HJ-NP-Za-km-z]] *)
Definition base58_class (c : ascii) : bool :=
  range "1" "9" c || range "A" "H" c || range "J" "N" c
  || range "P" "Z" c || range "a" "k" c || range "m" "z" c.

(** [[a-z2-7]] *)
Definition base32_class (c : ascii) : bool :=
  range "a" "z" c || range "2" "7" c.

(** [/^(Qm[1-9A-HJ-NP-Za-km-z]{44}|baf[a-z2-7]{55,})$/] *)
Definition cid_pattern : re :=
  Alt (Seq (lit "Qm") (times 44 (Class base58_class)))
      (Seq (lit "baf") (at_least 55 (Class base32_class))).

Definition isValidCid (cid : string) : bool := test cid_pattern cid.

(** *** The two CID shapes, in the words of the specification *)

Definition base58_alphabet : string :=
  "123456789ABCDEFGHJKLMNPQRSTUVWXYZabcdefghijkmnopqrstuvwxyz".

Definition base32_alphabet : string := "abcdefghijklmnopqrstuvwxyz234567".

Fixpoint mem (c : ascii) (s : string) : bool :=
  match s with
  | EmptyString => false
  | String d rest => Ascii.eqb c d || mem c rest
  end.

Definition chars_of (alphabet : string) (s : string) : Prop :=
  all (fun c => mem c alphabet) s = true.

Definition CIDv0_shape (s : string) : Prop :=
  exists rest, s = "Qm" ++ rest /\ String.length rest = 44
               /\ chars_of base58_alphabet rest.

Definition CIDv1_shape (s : string) : Prop :=
  exists rest, s = "baf" ++ rest /\ 55 <= String.length rest
               /\ chars_of base32_alphabet rest.

(** *** The download operation *)

(** What [download] needs from the outside: fetching the whole body of a
    gateway URL (a non-2xx status, a missing body and a broken stream are
    its [Throw]) and [Deno.writeFile]. *)
Record Platform : Type := {
  fetch_body : string -> completion (list byte);
  writeFile : string -> list byte -> completion unit;
}.

Inductive Event : Type :=
| Fetch (url : string)
| WriteFile (path : string).

Record DownloadParams : Type := {
  cid : option string;
  outputPath : option string;
}.

Record DownloadResult : Type := {
  success : bool;
  size : nat;
  result_cid : string;
  result_outputPath : string;
}.

Definition gateways (cid : string) : list string :=
  [ "https://ipfs.io/ipfs/" ++ cid;
    "https://gateway.ipfs.io/ipfs/" ++ cid;
    "https://dweb.link/ipfs/" ++ cid ].

Section Download.
Variable io : Platform.

(** The [for (const gateway of gateways)] loop: the first gateway whose
    body arrives and is written wins; a failure is remembered in
    [lastError] and the next gateway is tried. *)
Fixpoint try_gateways (urls : list string) (out cid : string)
         (lastError : option thrown)
  : list Event * completion DownloadResult :=
  match urls with
  | [] =>
      ([], Throw (ThrowError
             ("Failed to download from all gateways. Last error: "
              ++ match lastError with
                 | Some t => message_of t
                 | None => "undefined"
                 end)))
  | url :: rest =>
      match fetch_body io url with
      | Return data =>
          match writeFile io out data with
          | Return _ =>
              ([Fetch url; WriteFile out],
               Return {| success := true; size := List.length data;
                         result_cid := cid; result_outputPath := out |})
          | Throw t =>
              let '(ev, r) := try_gateways rest out cid (Some t) in
              (Fetch url :: WriteFile out :: ev, r)
          end
      | Throw t =>
          let '(ev, r) := try_gateways rest out cid (Some t) in
          (Fetch url :: ev, r)
      end
  end.

(** [SynapseWrapperImpl.download]; the wrapper's only field read here is
    [_isConnected]. *)
Definition download (_isConnected : bool) (params : DownloadParams)
  : list Event * completion DownloadResult :=
  if negb _isConnected then
    ([], Throw (ThrowError "Synapse not connected"))
  else
    match cid params with
    | None | Some EmptyString =>
        ([], Throw (ThrowError "Missing required parameter: cid"))
    | Some cid0 =>
        match outputPath params with
        | None | Some EmptyString =>
            ([], Throw (ThrowError "Missing required parameter: outputPath"))
        | Some out =>
            let cid1 := trim cid0 in
            if negb (isValidCid cid1) then
              ([], Throw (ThrowError ("Invalid CID format: " ++ cid1)))
            else try_gateways (gateways cid1) out cid1 None
        end
    end.
End Download.

(** The download claim read literally: every call whose trimmed cid is not
    accepted fails with the invalid-format error. *)
Definition rejected_cid_always_invalid_format : Prop :=
  forall (io : Platform) (connected : bool) (params : DownloadParams) (c : string),
    cid params = Some c ->
    isValidCid (trim c) = false ->
    download io connected params
    = ([], Throw (ThrowError ("Invalid CID format: " ++ trim c))).

(** A platform whose gateways are all down. *)
Definition offline : Platform := {|
  fetch_body := fun _ => Throw (ThrowError "Gateway returned 504: Gateway Timeout");
  writeFile := fun _ _ => Return tt;
|}.

End Synapse.

(* ====================================================================== *)
(** ** hybrid-crypto.ts: AES-256-GCM locally, the key wrapped by Lit *)
(* ====================================================================== *)

Module HybridCrypto.

Import Base64.
Local Unset Implicit Arguments.

Record ReturnValueTest : Type := {
  comparator : string;
  value : string;
}.

Record EvmBasicAccessControlCondition : Type := {
  contractAddress : string;
  standardContractType : string;
  acc_chain : string;
  method : string;
  parameters : list string;
  returnValueTest : ReturnValueTest;
}.

(** [{ conditionType: 'evmBasic', ...condition }] *)
Record UnifiedAccessControlCondition : Type := {
  conditionType : string;
  condition : EvmBasicAccessControlCondition;
}.

Record HybridEncryptionMetadata : Type := {
  version : string;
  encryptedKey : string;
  keyHash : string;
  iv : string;
  algorithm : string;
  keyLength : nat;
  accessControlConditions : list EvmBasicAccessControlCondition;
  chain : string;
  originalMimeType : option string;
  originalSize : option nat;
  originalHash : option string;
}.

Record HybridEncryptionResult : Type := {
  encryptedFile : list byte;
  metadata : HybridEncryptionMetadata;
}.

Definition AES_KEY_SIZE : nat := 32.
Definition AES_IV_SIZE : nat := 12.
Definition AES_AUTH_TAG_SIZE : nat := 16.

(** What [client.encrypt] of the Lit SDK answers. *)
Record LitEncryptResponse : Type := {
  ciphertext : string;
  dataToEncryptHash : string;
}.

(** The services the module calls and does not implement: the random
    source and AES-GCM of Web Crypto, SHA-256, the Lit SDK and the wallet
    libraries.  [entropy n] is the n-th byte the random source ever hands
    out.  [createLitClient] and [createAuthManager] give the outcome of the
    SDK constructors when an awaited initialisation runs them. *)
Record Platform : Type := {
  Client : Type;
  AuthManager : Type;
  AuthContext : Type;
  Account : Type;
  CryptoKey : Type;
  entropy : nat -> byte;
  importKey : list byte -> completion CryptoKey;
  subtle_encrypt : CryptoKey -> list byte -> list byte -> completion (list byte);
  subtle_decrypt : CryptoKey -> list byte -> list byte -> completion (list byte);
  digest_SHA256 : list byte -> list byte;
  createLitClient : completion Client;
  createAuthManager : completion AuthManager;
  Wallet_address : string -> completion string;
  privateKeyToAccount : string -> completion Account;
  createEoaAuthContext : AuthManager -> Account -> Client -> completion AuthContext;
  client_encrypt :
    Client -> list byte -> list UnifiedAccessControlCondition -> string ->
    completion LitEncryptResponse;
  client_decrypt :
    Client -> string -> string -> list UnifiedAccessControlCondition ->
    AuthContext -> string -> completion (list byte);
  JSON_parse : string -> completion JSON;
}.

(** *** Utility functions *)

Definition normalizePrivateKey (privateKey : string) : string :=
  let trimmed := trim privateKey in
  if startsWith "0x" trimmed || startsWith "0X" trimmed then trimmed
  else "0x" ++ trimmed.

Definition createOwnerOnlyAccessControlConditions (walletAddress : string)
  : list EvmBasicAccessControlCondition :=
  [ {| contractAddress := "";
       standardContractType := "";
       acc_chain := "ethereum";
       method := "";
       parameters := [":userAddress"];
       returnValueTest :=
         {| comparator := "="; value := toLowerCase walletAddress |} |} ].

Definition toUnifiedAccessControlConditions
  (conditions : list EvmBasicAccessControlCondition)
  : list UnifiedAccessControlCondition :=
  map (fun c => {| conditionType := "evmBasic"; condition := c |}) conditions.

(** viem-adapter.ts: its own [normalizePrivateKey] knows the lower-case
    prefix only. *)
Definition viem_normalizePrivateKey (privateKey : string) : string :=
  let trimmed := trim privateKey in
  if startsWith "0x" trimmed then trimmed else "0x" ++ trimmed.

Definition hex_class (c : ascii) : bool :=
  Regex.range "0" "9" c || Regex.range "a" "f" c || Regex.range "A" "F" c.

(** [/^0x[0-9a-fA-F]{64}$/] *)
Definition hexRegex : Regex.re :=
  Regex.Seq (Regex.lit "0x") (Regex.times 64 (Regex.Class hex_class)).

Section WithPlatform.
Variable pf : Platform.

Definition getWalletAddressFromPrivateKey (privateKey : string)
  : completion string :=
  Wallet_address pf (normalizePrivateKey privateKey).

Definition sha256Hash (data : list byte) : string :=
  hex (digest_SHA256 pf data).

Definition createViemAccount (privateKey : string) : completion (Account pf) :=
  let normalizedKey := viem_normalizePrivateKey privateKey in
  if negb (Nat.eqb (String.length normalizedKey) 66) then
    Throw (ThrowError
      ("Invalid private key length. Expected 32 bytes (64 hex characters) with 0x prefix, got "
       ++ string_of_N (N.of_nat (String.length normalizedKey)) ++ " characters."))
  else if negb (Regex.test hexRegex normalizedKey) then
    Throw (ThrowError
      "Invalid private key format. Expected 0x prefix followed by 64 hexadecimal characters.")
  else privateKeyToAccount pf normalizedKey.

(** *** AES *)

Definition aesEncrypt (data key iv : list byte) : completion (list byte) :=
  (cryptoKey <- importKey pf key ;;
   subtle_encrypt pf cryptoKey iv data)%js.

Definition aesDecrypt_message (cause : string) : string :=
  "AES decryption failed: " ++ cause ++ ". "
  ++ "The file may be corrupted, tampered with, or the wrong decryption key is being used.".

Definition aesDecrypt (encryptedData key iv : list byte)
  : completion (list byte) :=
  (cryptoKey <- importKey pf key ;;
   match subtle_decrypt pf cryptoKey iv encryptedData with
   | Return decrypted => Return decrypted
   | Throw (ThrowError m) => Throw (ThrowError (aesDecrypt_message m))
   | Throw other => Throw other
   end)%js.

(** *** Module state: [litClient], [authManager], [initPromise] *)

(** A promise is named by the number of the [createLitClient] call that
    backs it.  [created] counts those calls and [drawn] the random bytes
    handed out so far. *)
Record Globals : Type := {
  litClient : option (Client pf);
  authManager : option (AuthManager pf);
  initPromise : option nat;
  created : nat;
  drawn : nat;
}.

Definition initial : Globals :=
  {| litClient := None; authManager := None; initPromise := None;
     created := 0; drawn := 0 |}.

(** What a call of [initLitClient] hands to its caller: the client, or a
    promise that follows the initialisation [p]. *)
Inductive InitReturn : Type :=
| Existing (c : Client pf)
| Pending (p : nat).

(** [initLitClient], up to its first suspension.  When neither guard
    returns, the async arrow starts running: it calls [createLitClient] and
    suspends on it, and the promise of the arrow is stored in
    [initPromise]. *)
Definition initLitClient_call (g : Globals) : InitReturn * Globals :=
  match litClient g, authManager g with
  | Some c, Some _ => (Existing c, g)
  | _, _ =>
      match initPromise g with
      | Some p => (Pending p, g)
      | None =>
          let p := created g in
          (Pending p,
           {| litClient := litClient g; authManager := authManager g;
              initPromise := Some p; created := S (created g);
              drawn := drawn g |})
      end
  end.

(** The rest of the async arrow, run when [createLitClient] settles with
    [oc]; [oa] is what [createAuthManager] does if it gets called.  The
    [catch] clears [litClient] and [authManager], the [finally] clears
    [initPromise]. *)
Definition init_settle (oc : completion (Client pf))
           (oa : completion (AuthManager pf)) (g : Globals)
  : completion (Client pf) * Globals :=
  match oc with
  | Return c =>
      match oa with
      | Return a =>
          (Return c,
           {| litClient := Some c; authManager := Some a; initPromise := None;
              created := created g; drawn := drawn g |})
      | Throw t =>
          (Throw t,
           {| litClient := None; authManager := None; initPromise := None;
              created := created g; drawn := drawn g |})
      end
  | Throw t =>
      (Throw t,
       {| litClient := None; authManager := None; initPromise := None;
          created := created g; drawn := drawn g |})
  end.

Definition isLitClientConnected (g : Globals) : bool :=
  match litClient g, authManager g with
  | Some _, Some _ => true
  | _, _ => false
  end.

Definition getLitClient (g : Globals) : option (Client pf) := litClient g.

(** *** Interleavings of [initLitClient] *)

(** The module state together with the initialisations that have started
    and not settled yet. *)
Record Sys : Type := {
  globals : Globals;
  inflight : list nat;
}.

Definition sys_initial : Sys := {| globals := initial; inflight := [] |}.

(** A caller enters [initLitClient]. *)
Definition sys_call (s : Sys) : Sys :=
  let '(_, g') := initLitClient_call (globals s) in
  {| globals := g';
     inflight := if Nat.eqb (created g') (created (globals s)) then inflight s
                 else created (globals s) :: inflight s |}.

(** The [createLitClient] call behind [p] settles. *)
Definition sys_settle (p : nat) (oc : completion (Client pf))
           (oa : completion (AuthManager pf)) (s : Sys) : Sys :=
  {| globals := snd (init_settle oc oa (globals s));
     inflight := List.remove Nat.eq_dec p (inflight s) |}.

Inductive reachable : Sys -> Prop :=
| reach_initial : reachable sys_initial
| reach_call s : reachable s -> reachable (sys_call s)
| reach_settle s p oc oa :
    reachable s -> In p (inflight s) -> reachable (sys_settle p oc oa s).

(** *** One encrypt or decrypt call *)

(** The state a call runs in: the module state and the local [aesKey]
    buffer ([None] while the call has not got one). *)
Record Frame : Type := {
  module_ : Globals;
  aesKey : option (list byte);
}.

Definition M (A : Type) : Type := Frame -> completion A * Frame.

Definition ret {A} (a : A) : M A := fun fr => (Return a, fr).

Definition throw {A} (t : thrown) : M A := fun fr => (Throw t, fr).

Definition mbind {A B} (m : M A) (k : A -> M B) : M B :=
  fun fr =>
    match m fr with
    | (Return a, fr') => k a fr'
    | (Throw t, fr') => (Throw t, fr')
    end.

Definition lift {A} (c : completion A) : M A := fun fr => (c, fr).

(** [try { body } finally { cleanup }] *)
Definition try_finally {A} (body : M A) (cleanup : M unit) : M A :=
  fun fr =>
    let '(r, fr1) := body fr in
    match cleanup fr1 with
    | (Return _, fr2) => (r, fr2)
    | (Throw t, fr2) => (Throw t, fr2)
    end.

Definition getRandomValues (n : nat) : M (list byte) :=
  fun fr =>
    let g := module_ fr in
    (Return (map (entropy pf) (seq (drawn g) n)),
     {| module_ := {| litClient := litClient g; authManager := authManager g;
                      initPromise := initPromise g; created := created g;
                      drawn := drawn g + n |};
        aesKey := aesKey fr |}).

Definition generateAESKey : M (list byte) := getRandomValues AES_KEY_SIZE.
Definition generateIV : M (list byte) := getRandomValues AES_IV_SIZE.

(** [const aesKey = ...]: the buffer the call owns from here on. *)
Definition bind_aesKey (buffer : list byte) : M unit :=
  fun fr => (Return tt, {| module_ := module_ fr; aesKey := Some buffer |}).

(** Reading [aesKey] where the code passes the buffer on. *)
Definition read_aesKey : M (list byte) :=
  fun fr =>
    match aesKey fr with
    | Some buffer => (Return buffer, fr)
    | None => (Throw (ThrowError "aesKey is not defined"), fr)
    end.

(** [aesKey.fill(0)] *)
Definition aesKey_fill0 : M unit :=
  fun fr =>
    match aesKey fr with
    | Some buffer =>
        (Return tt, {| module_ := module_ fr; aesKey := Some (fill0 buffer) |})
    | None => (Throw (ThrowError "aesKey is not defined"), fr)
    end.

(** [await initLitClient()]: the call, and for a pending initialisation the
    settlement the caller waits for. *)
Definition initLitClient_await (g : Globals)
  : completion (Client pf) * Globals :=
  match initLitClient_call g with
  | (Existing c, g1) => (Return c, g1)
  | (Pending _, g1) =>
      init_settle (createLitClient pf) (createAuthManager pf) g1
  end.

Definition initLitClient : M (Client pf) :=
  fun fr =>
    let '(r, g') := initLitClient_await (module_ fr) in
    (r, {| module_ := g'; aesKey := aesKey fr |}).

(** [getAuthContext(privateKey, chain)]; it reads the module state and
    does not use [chain]. *)
Definition getAuthContext_in (g : Globals) (privateKey : string)
  : completion (AuthContext pf) :=
  match litClient g, authManager g with
  | Some c, Some a =>
      (viemAccount <- createViemAccount privateKey ;;
       createEoaAuthContext pf a viemAccount c)%js
  | _, _ =>
      Throw (ThrowError
               "Lit client not initialized. Call initLitClient() first.")
  end.

Definition getAuthContext (privateKey : string) : M (AuthContext pf) :=
  fun fr => (getAuthContext_in (module_ fr) privateKey, fr).

Local Notation "x <- c ;; k" := (mbind c (fun x => k))
  (at level 61, c at next level, right associativity).

Definition integrity_message : string :=
  "File integrity check failed. The file may have been corrupted or tampered with.".

(** [hybridEncryptFile(file, privateKey, chain = 'ethereum', onProgress)].
    The progress callback only receives stage names and is left out. *)
Definition hybridEncryptFile (file : list byte) (privateKey : string)
           (chain_arg : option string) : M HybridEncryptionResult :=
  let chain := match chain_arg with Some c => c | None => "ethereum" end in
  (* Step 1: generate local AES key and IV *)
  key <- generateAESKey ;;
  _ <- bind_aesKey key ;;
  iv <- generateIV ;;
  (* Step 2: read file data *)
  let fileData := file in
  (* Step 3: encrypt file locally with AES *)
  k <- read_aesKey ;;
  encryptedFile <- lift (aesEncrypt fileData k iv) ;;
  (* Step 4: hash of the original file *)
  let originalHash := sha256Hash fileData in
  (* Step 5: initialise the Lit client and encrypt the AES key *)
  client <- initLitClient ;;
  walletAddress <- lift (getWalletAddressFromPrivateKey privateKey) ;;
  let accessControlConditions :=
    createOwnerOnlyAccessControlConditions walletAddress in
  let unifiedAccessControlConditions :=
    toUnifiedAccessControlConditions accessControlConditions in
  k <- read_aesKey ;;
  litResult <-
    lift (client_encrypt pf client k unifiedAccessControlConditions chain) ;;
  (* Step 6: construct metadata *)
  let metadata :=
    {| version := "hybrid-v1";
       encryptedKey := ciphertext litResult;
       keyHash := dataToEncryptHash litResult;
       iv := arrayBufferToBase64 iv;
       algorithm := "AES-GCM";
       keyLength := 256;
       accessControlConditions := accessControlConditions;
       chain := chain;
       originalMimeType := None;
       originalSize := Some (List.length fileData);
       originalHash := Some originalHash |} in
  (* Clear sensitive key from memory *)
  _ <- aesKey_fill0 ;;
  ret {| encryptedFile := encryptedFile; metadata := metadata |}.

(** [if (metadata.originalHash) { ... }] *)
Definition check_originalHash (metadata : HybridEncryptionMetadata)
           (decryptedData : list byte) : completion unit :=
  match originalHash metadata with
  | Some expected =>
      if string_truthy expected then
        let computedHash := sha256Hash decryptedData in
        if negb (String.eqb computedHash expected)
        then Throw (ThrowError integrity_message)
        else Return tt
      else Return tt
  | None => Return tt
  end.

(** [hybridDecryptFile(encryptedFile, metadata, privateKey, onProgress)] *)
Definition hybridDecryptFile (encryptedFile : list byte)
           (metadata : HybridEncryptionMetadata) (privateKey : string)
  : M (list byte) :=
  if negb (String.eqb (version metadata) "hybrid-v1") then
    throw (ThrowError ("Unsupported encryption version: " ++ version metadata
                       ++ ". " ++ "Only hybrid-v1 is supported."))
  else
    client <- initLitClient ;;
    authContext <- getAuthContext privateKey ;;
    let unifiedAccessControlConditions :=
      toUnifiedAccessControlConditions (accessControlConditions metadata) in
    (* Decrypt AES key from Lit *)
    decryptedData <-
      lift (client_decrypt pf client (encryptedKey metadata) (keyHash metadata)
              unifiedAccessControlConditions authContext (chain metadata)) ;;
    _ <- bind_aesKey decryptedData ;;
    try_finally
      ((* Decrypt file locally with AES *)
       iv <- lift (base64ToArrayBuffer (iv metadata)) ;;
       k <- read_aesKey ;;
       decryptedData <- lift (aesDecrypt encryptedFile k iv) ;;
       (* Verify hash if available *)
       _ <- lift (check_originalHash metadata decryptedData) ;;
       ret decryptedData)
      ((* Clear sensitive key from memory *)
       aesKey_fill0).

(** *** Vocabulary of the properties *)

(** The three shapes the module state takes between two turns of the
    event loop. *)
Inductive phase (s : Sys) : Prop :=
| Idle :
    litClient (globals s) = None ->
    authManager (globals s) = None ->
    initPromise (globals s) = None ->
    inflight s = [] ->
    phase s
| InFlight p :
    litClient (globals s) = None ->
    authManager (globals s) = None ->
    initPromise (globals s) = Some p ->
    inflight s = [p] ->
    phase s
| Ready c a :
    litClient (globals s) = Some c ->
    authManager (globals s) = Some a ->
    initPromise (globals s) = None ->
    inflight s = [] ->
    phase s.

(** The module state after [n] more random bytes were drawn, and with the
    [createLitClient] counter at [n]. *)
Definition with_drawn (g : Globals) (n : nat) : Globals :=
  {| litClient := litClient g; authManager := authManager g;
     initPromise := initPromise g; created := created g;
     drawn := drawn g + n |}.

Definition with_created (g : Globals) (n : nat) : Globals :=
  {| litClient := litClient g; authManager := authManager g;
     initPromise := initPromise g; created := n; drawn := drawn g |}.

(** The 12 bytes [generateIV] draws after the key. *)
Definition drawn_iv (g : Globals) : list byte :=
  map (entropy pf) (seq (drawn g + AES_KEY_SIZE) AES_IV_SIZE).

(** The metadata record [hybridEncryptFile] builds. *)
Definition metadata_of (P : list byte) (g : Globals) (walletAddress : string)
           (chain : string) (litResult : LitEncryptResponse)
  : HybridEncryptionMetadata :=
  {| version := "hybrid-v1";
     encryptedKey := ciphertext litResult;
     keyHash := dataToEncryptHash litResult;
     iv := arrayBufferToBase64 (drawn_iv g);
     algorithm := "AES-GCM";
     keyLength := 256;
     accessControlConditions :=
       createOwnerOnlyAccessControlConditions walletAddress;
     chain := chain;
     originalMimeType := None;
     originalSize := Some (List.length P);
     originalHash := Some (sha256Hash P) |}.

(** The local part of a decrypt call, once the key is there. *)
Definition open_locally (sealed : list byte)
           (metadata : HybridEncryptionMetadata) (key : list byte)
  : completion (list byte) :=
  (iv <- base64ToArrayBuffer (iv metadata) ;;
   decryptedData <- aesDecrypt sealed key iv ;;
   _ <- check_originalHash metadata decryptedData ;;
   Return decryptedData)%js.

(** The frame a call starts in. *)
Definition enter (g : Globals) : Frame := {| module_ := g; aesKey := None |}.

(** The 32 bytes [generateAESKey] draws when the module state is [g]. *)
Definition drawn_key (g : Globals) : list byte :=
  map (entropy pf) (seq (drawn g) AES_KEY_SIZE).

(** AES-GCM opens what it sealed under the same key and IV. *)
Definition AEAD_correct : Prop :=
  forall (raw iv data sealed : list byte) (key : CryptoKey pf),
    importKey pf raw = Return key ->
    subtle_encrypt pf key iv data = Return sealed ->
    subtle_decrypt pf key iv sealed = Return data.

(** *** Serialisation *)

Definition is_hybrid_v1 (v : jsval) : bool :=
  match v with
  | Some (JStr s) => String.eqb s "hybrid-v1"
  | _ => false
  end.

(** [deserializeHybridMetadata(metadataJson)]; the result is the parsed
    value itself. *)
Definition deserializeHybridMetadata (metadataJson : string)
  : completion JSON :=
  (parsed <- JSON_parse pf metadataJson ;;
   parsed_version <- get parsed "version" ;;
   if negb (is_hybrid_v1 parsed_version) then
     Throw (ThrowError ("Unsupported hybrid encryption version: "
                        ++ String_ parsed_version))
   else
     parsed_encryptedKey <- get parsed "encryptedKey" ;;
     parsed_keyHash <- get parsed "keyHash" ;;
     parsed_iv <- get parsed "iv" ;;
     if negb (truthy parsed_encryptedKey) || negb (truthy parsed_keyHash)
        || negb (truthy parsed_iv)
     then Throw (ThrowError
                   "Invalid hybrid encryption metadata: missing required fields")
     else Return parsed)%js.

(** The field [name] of a parsed value; [None] when it is absent. *)
Definition field (parsed : JSON) (name : string) : jsval :=
  match parsed with
  | JObj fields => assoc name fields
  | _ => None
  end.

Definition unsupported_version (v : jsval) : thrown :=
  ThrowError ("Unsupported hybrid encryption version: " ++ String_ v).

Definition missing_fields : thrown :=
  ThrowError "Invalid hybrid encryption metadata: missing required fields".

(** The decoding rule of the specification, read literally: a missing
    required field gives the missing-field error, a version other than the
    supported one gives the version error, anything else decodes. *)
Definition decode_as_specified : Prop :=
  forall (text : string) (parsed : JSON),
    JSON_parse pf text = Return parsed ->
    (field parsed "encryptedKey" = None \/ field parsed "keyHash" = None
     \/ field parsed "iv" = None ->
     deserializeHybridMetadata text = Throw missing_fields)
    /\ (is_hybrid_v1 (field parsed "version") = false ->
        deserializeHybridMetadata text
        = Throw (unsupported_version (field parsed "version")))
    /\ (field parsed "encryptedKey" <> None ->
        field parsed "keyHash" <> None ->
        field parsed "iv" <> None ->
        is_hybrid_v1 (field parsed "version") = true ->
        deserializeHybridMetadata text = Return parsed).

(** The zeroing rule of the specification for one call: whatever the call
    did and however it ended, a key buffer it held is all zero. *)
Definition key_zeroed (fr : Frame) : Prop :=
  match aesKey fr with
  | Some buffer => Forall (fun b => b = Byte.x00) buffer
  | None => True
  end.

End WithPlatform.

Arguments ret {pf A} a.
Arguments throw {pf A} t.
Arguments lift {pf A} c.
Arguments mbind {pf A B} m k.
Arguments try_finally {pf A} body cleanup.

End HybridCrypto.

(* ====================================================================== *)
(** ** lit-wrapper.ts: the wrapper that owns its client *)
(* ====================================================================== *)

Module LitWrapper.

Import Base64 HybridCrypto.
Local Unset Implicit Arguments.

Record ConnectParams : Type := {
  network : option string;
  networkMode : option string;
  debug : option bool;
}.

Record LitConnectResult : Type := {
  connected : bool;
  result_network : string;
  nodeCount : nat;
}.

Record EncryptParams : Type := {
  data : option string;
  param_accessControlConditions : option (list EvmBasicAccessControlCondition);
  param_chain : option string;
}.

Record LitEncryptResult : Type := {
  result_ciphertext : string;
  result_dataToEncryptHash : string;
  accessControlConditionHash : string;
}.

(** [x ?? fallback] *)
Definition nullish {A} (x : option A) (fallback : A) : A :=
  match x with
  | Some a => a
  | None => fallback
  end.

(** [new TextEncoder().encode(s)] for a string of code units below 256. *)
Definition byte_of_N (n : N) : byte :=
  match Byte.of_N n with
  | Some b => b
  | None => Byte.x00
  end.

Definition utf8_unit (c : ascii) : list byte :=
  let n := N_of_ascii c in
  if (n <? 128)%N then [byte_of_N n]
  else [byte_of_N (192 + n / 64); byte_of_N (128 + n mod 64)].

Fixpoint TextEncoder_encode (s : string) : list byte :=
  match s with
  | EmptyString => []
  | String c rest => (utf8_unit c ++ TextEncoder_encode rest)%list
  end.

Definition atob_error : thrown := ThrowError "Failed to decode base64".

Definition not_connected : thrown := ThrowError "Lit Protocol not connected".

Definition missing (name : string) : thrown :=
  ThrowError ("Missing required parameter: " ++ name).

Section WithPlatform.
Variable pf : Platform.

(** [JSON.stringify] of a condition list and the wall clock [Date.now()]. *)
Variable JSON_stringify : list EvmBasicAccessControlCondition -> string.
Variable now : Z.

(** A request that leaves the process through the SDK client. *)
Inductive AdapterCall : Type :=
| CallEncrypt (client : Client pf) (dataToEncrypt : list byte)
    (conditions : list UnifiedAccessControlCondition) (chain : string).

(** The fields of [LitWrapperImpl]. *)
Record Wrapper : Type := {
  client : option (Client pf);
  wrapper_authManager : option (AuthManager pf);
  _isConnected : bool;
  _network : string;
  _sessionExpiry : option Z;
  _nodeCount : nat;
}.

Definition createLitWrapper : Wrapper :=
  {| client := None; wrapper_authManager := None; _isConnected := false;
     _network := "naga-dev"; _sessionExpiry := None; _nodeCount := 0 |}.

(** [get isConnected()] reads the wrapper's flag and the module state of
    hybrid-crypto.ts. *)
Definition isConnected (w : Wrapper) (g : Globals pf) : bool :=
  _isConnected w && isLitClientConnected pf g.

Definition connect_failed (t : thrown) : thrown :=
  ThrowError ("Failed to connect to Lit Protocol: " ++ message_of t).

(** The [catch] block of [connect]. *)
Definition connect_catch (w : Wrapper) : Wrapper :=
  {| client := None; wrapper_authManager := None; _isConnected := false;
     _network := _network w; _sessionExpiry := _sessionExpiry w;
     _nodeCount := _nodeCount w |}.

(** [connect(params)]; [oc] and [oa] are what [createLitClient] and
    [createAuthManager] do during this call. *)
Definition connect (oc : completion (Client pf))
           (oa : completion (AuthManager pf))
           (w : Wrapper) (params : ConnectParams)
  : completion LitConnectResult * Wrapper :=
  let network := nullish (network params) "datil-dev" in
  match oc with
  | Return c =>
      let w1 :=
        {| client := Some c; wrapper_authManager := wrapper_authManager w;
           _isConnected := _isConnected w; _network := _network w;
           _sessionExpiry := _sessionExpiry w; _nodeCount := _nodeCount w |} in
      match oa with
      | Return a =>
          (Return {| connected := true; result_network := network;
                     nodeCount := 1 |},
           {| client := Some c; wrapper_authManager := Some a;
              _isConnected := true; _network := network;
              _sessionExpiry := Some (now + 60 * 60 * 1000)%Z;
              _nodeCount := 1 |})
      | Throw t => (Throw (connect_failed t), connect_catch w1)
      end
  | Throw t => (Throw (connect_failed t), connect_catch w)
  end.

Definition hashAccessConditions
           (conditions : list EvmBasicAccessControlCondition) : string :=
  hex (digest_SHA256 pf (TextEncoder_encode (JSON_stringify conditions))).

Definition encryption_failed (t : thrown) : thrown :=
  ThrowError ("Encryption failed: " ++ message_of t).

(** The part of [encrypt] that both revisions of the wrapper share: the
    parameter checks and the [try] block, run with the client [c]. *)
Definition encrypt_with (c : Client pf) (params : EncryptParams)
  : list AdapterCall * completion LitEncryptResult :=
  let chain := nullish (param_chain params) "ethereum" in
  match data params with
  | None | Some EmptyString => ([], Throw (missing "data"))
  | Some data =>
      match param_accessControlConditions params with
      | None | Some [] => ([], Throw (missing "accessControlConditions"))
      | Some accessControlConditions =>
          let unifiedAccessControlConditions :=
            toUnifiedAccessControlConditions accessControlConditions in
          match atob data with
          | None => ([], Throw (encryption_failed atob_error))
          | Some binary =>
              let dataToEncrypt := TextEncoder_encode binary in
              let call :=
                CallEncrypt c dataToEncrypt unifiedAccessControlConditions
                  chain in
              match client_encrypt pf c dataToEncrypt
                      unifiedAccessControlConditions chain with
              | Return result =>
                  ([call],
                   Return
                     {| result_ciphertext := ciphertext result;
                        result_dataToEncryptHash := dataToEncryptHash result;
                        accessControlConditionHash :=
                          hashAccessConditions accessControlConditions |})
              | Throw t => ([call], Throw (encryption_failed t))
              end
          end
      end
  end.

(** [encrypt(params)] *)
Definition encrypt (w : Wrapper) (g : Globals pf) (params : EncryptParams)
  : list AdapterCall * completion LitEncryptResult :=
  match isConnected w g, client w with
  | true, Some c => encrypt_with c params
  | _, _ => ([], Throw not_connected)
  end.

End WithPlatform.

End LitWrapper.

(* ====================================================================== *)
(** ** lit-wrapper.ts: the wrapper on the module state of hybrid-crypto.ts *)
(* ====================================================================== *)

Module LitWrapperGlobal.

Import HybridCrypto LitWrapper.
Local Unset Implicit Arguments.

Section WithPlatform.
Variable pf : Platform.
Variable JSON_stringify : list EvmBasicAccessControlCondition -> string.
Variable now : Z.

(** The fields of this [LitWrapperImpl]; the client lives in
    hybrid-crypto.ts. *)
Record Wrapper : Type := {
  _network : string;
  _sessionExpiry : option Z;
  _nodeCount : nat;
}.

Definition createLitWrapper : Wrapper :=
  {| _network := "naga-dev"; _sessionExpiry := None; _nodeCount := 0 |}.

Definition isConnected (g : Globals pf) : bool := isLitClientConnected pf g.

(** [connect(params)]: [await initLitClient(network)]; the function under
    that name takes no parameter and ignores the argument. *)
Definition connect (w : Wrapper) (g : Globals pf) (params : ConnectParams)
  : completion LitConnectResult * Wrapper * Globals pf :=
  let networkMode := nullish (networkMode params) "testnet" in
  let networkFromMode :=
    if String.eqb networkMode "mainnet" then "datil" else "datil-dev" in
  let network := nullish (network params) networkFromMode in
  match initLitClient pf {| module_ := g; aesKey := None |} with
  | (Return _, fr) =>
      (Return {| connected := true; result_network := network;
                 nodeCount := 1 |},
       {| _network := network; _nodeCount := 1;
          _sessionExpiry := Some (now + 60 * 60 * 1000)%Z |},
       module_ pf fr)
  | (Throw t, fr) => (Throw (LitWrapper.connect_failed t), w, module_ pf fr)
  end.

(** [encrypt(params)] *)
Definition encrypt (g : Globals pf) (params : EncryptParams)
  : list (AdapterCall pf) * completion LitEncryptResult :=
  if negb (isConnected g) then ([], Throw not_connected)
  else
    match getLitClient pf g with
    | None => ([], Throw not_connected)
    | Some currentClient =>
        encrypt_with pf JSON_stringify currentClient params
    end.

(** The policy of a call is empty or absent. *)
Definition empty_policy (params : EncryptParams) : Prop :=
  param_accessControlConditions params = None
  \/ param_accessControlConditions params = Some [].

(** [!data] *)
Definition no_data (params : EncryptParams) : bool :=
  match data params with
  | None | Some EmptyString => true
  | Some _ => false
  end.

(** The empty-policy rule of the specification, read literally: whatever
    the state, such a call fails with the empty-policy error. *)
Definition empty_policy_always_reported : Prop :=
  forall (w : LitWrapper.Wrapper pf) (g : Globals pf) (params : EncryptParams),
    empty_policy params ->
    LitWrapper.encrypt pf JSON_stringify w g params
    = ([], Throw (missing "accessControlConditions")).

(** The reset rule of the specification: after a failed [connect] the
    flag, the client, the auth manager and the session expiry of the wrapper
    are all cleared. *)
Definition failed_connect_clears_all : Prop :=
  forall (oc : completion (Client pf)) (oa : completion (AuthManager pf))
         (w w' : LitWrapper.Wrapper pf) (params : ConnectParams) (t : thrown),
    LitWrapper.connect pf now oc oa w params = (Throw t, w') ->
    LitWrapper._isConnected pf w' = false
    /\ LitWrapper.client pf w' = None
    /\ LitWrapper.wrapper_authManager pf w' = None
    /\ LitWrapper._sessionExpiry pf w' = None.

End WithPlatform.

End LitWrapperGlobal.


(* ====================================================================== *)
(** ** main.ts: the JSON-RPC dispatcher and the read loop *)
(* ====================================================================== *)

Module Main.

(** [ErrorCodes] of types.ts. *)
Definition PARSE_ERROR : Z := (-32700)%Z.
Definition INVALID_REQUEST : Z := (-32600)%Z.
Definition METHOD_NOT_FOUND : Z := (-32601)%Z.
Definition INVALID_PARAMS : Z := (-32602)%Z.
Definition INTERNAL_ERROR : Z := (-32603)%Z.

Definition VERSION : string := "1.0.0".

(** One line written to stdout: what [sendResponse] prints for
    [createResponse] and for [createErrorResponse], and what
    [sendNotification] prints. *)
Inductive Line : Type :=
| Response (id : jsval) (result : jsval)
| ErrorResponse (id : jsval) (code : Z) (message : string) (data : option string)
| Notification (method : string) (params : jsval).

Definition is_response (l : Line) : bool :=
  match l with
  | Notification _ _ => false
  | _ => true
  end.

Definition responses (ls : list Line) : list Line := filter is_response ls.

(** *** Splitting the input buffer *)

Definition newline : ascii := "010"%char.

(** [buffer.indexOf('\n')]; [None] is its [-1]. *)
Fixpoint indexOf (c : ascii) (s : string) : option nat :=
  match s with
  | EmptyString => None
  | String d rest =>
      if Ascii.eqb d c then Some 0 else option_map S (indexOf c rest)
  end.

(** [s.slice(0, n)] and [s.slice(n)] for [n] within the string. *)
Fixpoint slice_to (n : nat) (s : string) : string :=
  match n, s with
  | S k, String c rest => String c (slice_to k rest)
  | _, _ => EmptyString
  end.

Fixpoint slice_from (n : nat) (s : string) : string :=
  match n, s with
  | S k, String _ rest => slice_from k rest
  | _, _ => s
  end.

Lemma slice_from_shorter (c : ascii) (s : string) (i : nat) :
  indexOf c s = Some i -> String.length (slice_from (S i) s) < String.length s.
Proof.
  revert i. induction s as [|d rest IH]; intros i H; cbn in H; [discriminate|].
  destruct (Ascii.eqb d c).
  - injection H as <-. cbn. destruct rest; cbn; lia.
  - destruct (indexOf c rest) as [j|] eqn:E; [|discriminate].
    injection H as <-. specialize (IH j eq_refl).
    cbn [slice_from String.length] in *. lia.
Qed.

(** The complete lines of a stream and its unterminated rest, read off
    character by character: the reference the read loop is compared
    with. *)
Fixpoint complete_lines (s : string) : list string * string :=
  match s with
  | EmptyString => ([], EmptyString)
  | String c rest =>
      let '(ls, rem) := complete_lines rest in
      if Ascii.eqb c newline then (EmptyString :: ls, rem)
      else
        match ls with
        | [] => ([], String c rem)
        | l :: ls' => (String c l :: ls', rem)
        end
  end.

(** Keeps the equation of a scrutinee for the termination proof. *)
Definition inspect {A : Type} (a : A) : {b : A | a = b} := exist _ a eq_refl.

Section WithRuntime.

(** Everything the method handlers work on besides the shutdown flag: the
    two wrappers, the SDKs behind them, the file system, the clock. *)
Variable World : Type.

(** [JSON.parse]; its [Throw] is the SyntaxError. *)
Variable JSON_parse : string -> completion JSON.

Record Runtime : Type := {
  isShuttingDown : bool;
  world : World;
}.

(** What running a handler to completion gives: the notifications it sent
    on the way, its result or the error it threw, and the state it left. *)
Record HandlerRun (S : Type) : Type := {
  emitted : list (string * jsval);
  outcome : completion jsval;
  after : S;
}.

Definition Handler : Type := jsval -> Runtime -> HandlerRun Runtime.

(** The entries of [methods] other than [ping] and [shutdown], and what a
    lookup finds on [Object.prototype]; none of them writes
    [isShuttingDown]. *)
Variable registered : string -> option (jsval -> World -> HandlerRun World).

(** Disconnecting both wrappers, as [shutdown] does. *)
Variable disconnect_wrappers : World -> option thrown * World.

Definition ping : Handler :=
  fun _ rt =>
    {| emitted := []; outcome := Return (Some (JStr "pong")); after := rt |}.

Definition shutdown : Handler :=
  fun _ rt =>
    let '(failure, w) := disconnect_wrappers (world rt) in
    {| emitted := [];
       outcome :=
         match failure with
         | Some t => Throw t
         | None => Return (Some (JObj [("status", JStr "shutting_down")]))
         end;
       after := {| isShuttingDown := true; world := w |} |}.

Definition on_world (h : jsval -> World -> HandlerRun World) : Handler :=
  fun params rt =>
    let r := h params (world rt) in
    {| emitted := emitted r; outcome := outcome r;
       after := {| isShuttingDown := isShuttingDown rt; world := after r |} |}.

(** [methods[method]] *)
Definition methods (name : string) : option Handler :=
  if String.eqb name "ping" then Some ping
  else if String.eqb name "shutdown" then Some shutdown
  else option_map on_world (registered name).

(** What one call leaves behind: the lines it printed, whether it returned
    or threw, and the state. *)
Record Run : Type := {
  lines : list Line;
  status : completion unit;
  state : Runtime;
}.

Definition notifications (sent : list (string * jsval)) : list Line :=
  map (fun n => Notification (fst n) (snd n)) sent.

(** [id === undefined || id === null] *)
Definition is_notification_id (id : jsval) : bool :=
  match id with
  | None | Some JNull => true
  | _ => false
  end.

(** [handleRequest(request)].  The destructuring of [request] stands before
    the [try]; it reads the three properties and throws on [null]. *)
Definition handleRequest (request : JSON) (rt : Runtime) : Run :=
  match get request "method", get request "params", get request "id" with
  | Return method, Return params, Return id =>
      let isNotification := is_notification_id id in
      match methods (String_ method) with
      | None =>
          {| lines :=
               if isNotification then []
               else [ErrorResponse id METHOD_NOT_FOUND
                       ("Method not found: " ++ String_ method) None];
             status := Return tt;
             state := rt |}
      | Some handler =>
          let r := handler params rt in
          {| lines :=
               (notifications (emitted r)
                ++ if isNotification then []
                   else match outcome r with
                        | Return result => [Response id result]
                        | Throw error =>
                            [ErrorResponse id INTERNAL_ERROR (message_of error)
                               None]
                        end)%list;
             status := Return tt;
             state := after r |}
      end
  | Throw _, _, _ | _, Throw _, _ | _, _, Throw _ =>
      {| lines := [];
         status := Throw (TypeError_destructure "method" "request");
         state := rt |}
  end.

(** The propagation rule of the specification, read literally: whatever
    value was parsed, [handleRequest] returns. *)
Definition handleRequest_never_throws : Prop :=
  forall (request : JSON) (rt : Runtime),
    status (handleRequest request rt) = Return tt.

Definition parse_error (t : thrown) : Line :=
  ErrorResponse (Some JNull) PARSE_ERROR "Parse error" (Some (message_of t)).

(** The body of the inner loop for one trimmed line: [continue] on an empty
    line; else parse, dispatch, and answer a throw of either with the parse
    error response. *)
Definition process_line (line : string) (rt : Runtime) : list Line * Runtime :=
  if String.eqb line "" then ([], rt)
  else
    match JSON_parse line with
    | Return request =>
        let r := handleRequest request rt in
        match status r with
        | Return _ => (lines r, state r)
        | Throw t => ((lines r ++ [parse_error t])%list, state r)
        end
    | Throw t => ([parse_error t], rt)
    end.

(** [while ((newlineIndex = buffer.indexOf('\n')) !== -1) { ... }] *)
Equations? drain (buffer : string) (rt : Runtime)
  : list Line * string * Runtime by wf (String.length buffer) lt :=
drain buffer rt with inspect (indexOf newline buffer) := {
  | exist _ None _ => ([], buffer, rt)
  | exist _ (Some newlineIndex) found =>
      let line := trim (slice_to newlineIndex buffer) in
      let buffer' := slice_from (S newlineIndex) buffer in
      let '(out, rt1) := process_line line rt in
      let '(out', rest, rt2) := drain buffer' rt1 in
      ((out ++ out')%list, rest, rt2) }.
Proof. eapply slice_from_shorter; eassumption. Qed.

(** [while (!isShuttingDown) { read a chunk; buffer += chunk; drain }];
    the stream ends with its last chunk. *)
Fixpoint read_loop (chunks : list string) (buffer : string) (rt : Runtime)
  : list Line * Runtime :=
  match chunks with
  | [] => ([], rt)
  | value :: later =>
      if isShuttingDown rt then ([], rt)
      else
        let '(out, buffer', rt1) := drain (buffer ++ value) rt in
        let '(out', rt2) := read_loop later buffer' rt1 in
        ((out ++ out')%list, rt2)
  end.

(** The text of a sequence of chunks. *)
Definition stream (chunks : list string) : string :=
  fold_right append EmptyString chunks.

Definition ready : Line :=
  Notification "ready" (Some (JObj [("version", JStr VERSION)])).

(** [main()]: what it prints for the chunks the input stream delivers. *)
Definition main (chunks : list string) (rt : Runtime) : list Line * Runtime :=
  let '(out, rt') := read_loop chunks "" rt in
  (ready :: out, rt').

(** The requests of [lines] handled one after the other, each from the
    state its predecessor left. *)
Fixpoint run_lines (ls : list string) (rt : Runtime) : list Line * Runtime :=
  match ls with
  | [] => ([], rt)
  | l :: rest =>
      let '(out, rt1) := process_line (trim l) rt in
      let '(out', rt2) := run_lines rest rt1 in
      ((out ++ out')%list, rt2)
  end.

End WithRuntime.

End Main.

(* ====================================================================== *)
(** ** The runtime right after start-up *)
(* ====================================================================== *)

(** main.ts before any connect request: [litWrapper] and [synapseWrapper]
    are [null], so the guarded handlers throw.  Used to run the dispatcher
    on concrete requests. *)
Module Startup.

Import Main.

Definition quote : string := String (ascii_of_nat 34) EmptyString.

Definition quoted (s : string) : string := quote ++ s ++ quote.

(** The line of a request with a numeric id, and of a notification. *)
Definition request_text (id method : string) : string :=
  "{" ++ quoted "jsonrpc" ++ ":" ++ quoted "2.0" ++ ","
  ++ quoted "id" ++ ":" ++ id ++ ","
  ++ quoted "method" ++ ":" ++ quoted method ++ "}".

Definition notification_text (method : string) : string :=
  "{" ++ quoted "jsonrpc" ++ ":" ++ quoted "2.0" ++ ","
  ++ quoted "method" ++ ":" ++ quoted method ++ "}".

Definition request_fields (id : Z) (method : string)
  : list (string * JSON) :=
  [("jsonrpc", JStr "2.0"); ("id", JNum id); ("method", JStr method)].

Definition notification_fields (method : string) : list (string * JSON) :=
  [("jsonrpc", JStr "2.0"); ("method", JStr method)].

(** [JSON.parse] on the lines used below; any other text is a syntax
    error here. *)
Definition parse (line : string) : completion JSON :=
  if String.eqb line (request_text "1" "ping")
  then Return (JObj (request_fields 1 "ping"))
  else if String.eqb line (request_text "2" "ping")
  then Return (JObj (request_fields 2 "ping"))
  else if String.eqb line (request_text "7" "lit.encrypt")
  then Return (JObj (request_fields 7 "lit.encrypt"))
  else if String.eqb line (notification_text "nope.nope")
  then Return (JObj (notification_fields "nope.nope"))
  else Throw (ThrowError "Unexpected token").

Definition throws (message : string) : jsval -> unit -> HandlerRun unit :=
  fun _ w =>
    {| emitted := []; outcome := Throw (ThrowError message); after := w |}.

Definition member (name : string) (names : list string) : bool :=
  existsb (String.eqb name) names.

(** The handlers that only look at a wrapper that is not there. *)
Definition registered (name : string)
  : option (jsval -> unit -> HandlerRun unit) :=
  if member name ["lit.encrypt"; "lit.decrypt"; "lit.encryptFile";
                  "lit.decryptFile"]
  then Some (throws "Lit Protocol not connected")
  else if member name ["synapse.upload"; "synapse.getStatus"; "synapse.getCid";
                       "synapse.download"; "synapse.createCar"]
  then Some (throws "Synapse not connected")
  else if String.eqb name "synapse.validateFileSize"
  then Some (throws "Synapse wrapper not initialized")
  else if String.eqb name "lit.getSession"
  then Some (fun _ w =>
               {| emitted := [];
                  outcome := Return (Some (JObj [("active", JBool false)]));
                  after := w |})
  else None.

Definition disconnect_wrappers (w : unit) : option thrown * unit := (None, w).

Definition rt0 : Runtime unit := {| isShuttingDown := false; world := tt |}.

(** Two ping requests, arriving in two chunks cut in the middle of the
    second line. *)
Definition two_pings : string :=
  request_text "1" "ping" ++ String newline
    (request_text "2" "ping" ++ String newline "").

Definition two_pings_chunks : list string :=
  [slice_to 50 two_pings; slice_from 50 two_pings].

End Startup.

(* ====================================================================== *)
(** ** A small platform to run the engine on *)
(* ====================================================================== *)

(** Stand-ins for Web Crypto and the Lit network that can be computed
    with: the cipher puts the key in front of the data and checks it on the
    way back, the network hands the key back to whoever asks. *)
Module Toy.

Import Base64 HybridCrypto.

Fixpoint bytes_eqb (a b : list byte) : bool :=
  match a, b with
  | [], [] => true
  | x :: a', y :: b' => Byte.eqb x y && bytes_eqb a' b'
  | _, _ => false
  end.

Definition importKey (raw : list byte) : completion (list byte) :=
  if Nat.eqb (List.length raw) 32 then Return raw
  else Throw (ThrowError "Invalid key length").

Definition seal (key iv data : list byte) : completion (list byte) :=
  Return (key ++ data)%list.

Definition open (key iv sealed : list byte) : completion (list byte) :=
  if bytes_eqb (firstn (List.length key) sealed) key
  then Return (skipn (List.length key) sealed)
  else Throw (ThrowError "OperationError").

Definition digest (data : list byte) : list byte :=
  firstn 32 (data ++ repeat Byte.x00 32)%list.

Definition entropy (n : nat) : byte :=
  match Byte.of_N (N.of_nat (7 * n + 1) mod 256) with
  | Some b => b
  | None => Byte.x00
  end.

Definition wrap (c : unit) (key : list byte)
           (conditions : list UnifiedAccessControlCondition) (chain : string)
  : completion LitEncryptResponse :=
  Return {| ciphertext := arrayBufferToBase64 key;
            dataToEncryptHash := hex (digest key) |}.

Definition wrap_fails (c : unit) (key : list byte)
           (conditions : list UnifiedAccessControlCondition) (chain : string)
  : completion LitEncryptResponse :=
  Throw (ThrowError "network request failed").

Definition unwrap (c : unit) (wrapped keyHash : string)
           (conditions : list UnifiedAccessControlCondition) (ctx : unit)
           (chain : string) : completion (list byte) :=
  base64ToArrayBuffer wrapped.

Definition quote : string := String (ascii_of_nat 34) EmptyString.

(** The text [{"version":"hybrid-v1","encryptedKey":"<k>","keyHash":"abc",
    "iv":"AAAA"}] and what [JSON.parse] makes of it. *)
Definition metadata_text (wrappedKey : string) : string :=
  let q s := quote ++ s ++ quote in
  "{" ++ q "version" ++ ":" ++ q "hybrid-v1" ++ ","
  ++ q "encryptedKey" ++ ":" ++ q wrappedKey ++ ","
  ++ q "keyHash" ++ ":" ++ q "abc" ++ "," ++ q "iv" ++ ":" ++ q "AAAA" ++ "}".

Definition metadata_value (wrappedKey : string) : JSON :=
  JObj [("version", JStr "hybrid-v1"); ("encryptedKey", JStr wrappedKey);
        ("keyHash", JStr "abc"); ("iv", JStr "AAAA")].

Definition parse (text : string) : completion JSON :=
  if String.eqb text (metadata_text "d3JhcHBlZA==")
  then Return (metadata_value "d3JhcHBlZA==")
  else if String.eqb text (metadata_text "")
  then Return (metadata_value "")
  else Throw (ThrowError "Unexpected token").

Definition make
           (wrapper : unit -> list byte -> list UnifiedAccessControlCondition ->
                      string -> completion LitEncryptResponse)
           (client : completion unit) : Platform :=
  {| Client := unit;
     AuthManager := unit;
     AuthContext := unit;
     Account := unit;
     CryptoKey := list byte;
     HybridCrypto.entropy := entropy;
     HybridCrypto.importKey := importKey;
     subtle_encrypt := seal;
     subtle_decrypt := open;
     digest_SHA256 := digest;
     createLitClient := client;
     createAuthManager := Return tt;
     Wallet_address := fun _ => Return "0x1234567890ABCDEF1234567890abcdef12345678";
     privateKeyToAccount := fun _ => Return tt;
     createEoaAuthContext := fun _ _ _ => Return tt;
     client_encrypt := wrapper;
     client_decrypt := unwrap;
     JSON_parse := parse |}.

(** The network up, the key-wrapping call failing, the network down. *)
Definition online : Platform := make wrap (Return tt).
Definition wrap_down : Platform := make wrap_fails (Return tt).
Definition offline : Platform :=
  make wrap (Throw (ThrowError "connect ECONNREFUSED")).

(** The private key of the repository's tests and the payload of the
    specification's scenario, [Hello, Haven!]. *)
Definition TEST_PRIVATE_KEY : string :=
  "0x1234567890abcdef1234567890abcdef1234567890abcdef1234567890abcdef".

Definition hello : list byte := list_byte_of_string "Hello, Haven!".

(** What encrypting [hello] on the platform with the network up gives. *)
Definition hello_sealed : HybridEncryptionResult * Frame online :=
  match hybridEncryptFile online hello TEST_PRIVATE_KEY None
          (enter online (initial online)) with
  | (Return r, fr) => (r, fr)
  | (Throw _, fr) =>
      ({| encryptedFile := [];
          metadata := metadata_of online [] (initial online) "" ""
                        {| ciphertext := ""; dataToEncryptHash := "" |} |}, fr)
  end.

(** The module state with the client initialised, and the wrapper a
    successful [connect] at time 0 leaves. *)
Definition ready : Globals online :=
  Build_Globals online (Some tt) (Some tt) None 1 0.

Definition connected_wrapper : LitWrapper.Wrapper online :=
  LitWrapper.Build_Wrapper online (Some tt) (Some tt) true "datil-dev"
    (Some 3600000%Z) 1.

End Toy.

(* ====================================================================== *)
(** ** A session that ends with a shutdown request *)
(* ====================================================================== *)

(** The runtime of [Startup] with a [JSON.parse] that also knows the line
    of a shutdown request. *)
Module Session.

Import Main.

Definition shutdown_text : string := Startup.request_text "3" "shutdown".

Definition parse (line : string) : completion JSON :=
  if String.eqb line shutdown_text
  then Return (JObj (Startup.request_fields 3 "shutdown"))
  else Startup.parse line.

Definition terminated (line : string) : string :=
  line ++ String newline "".

(** A ping, the shutdown request and one more ping, one line per chunk. *)
Definition chunks : list string :=
  [terminated (Startup.request_text "1" "ping");
   terminated shutdown_text;
   terminated (Startup.request_text "2" "ping")].

End Session.

(* ====================================================================== *)
(** ** synapse-wrapper.ts: reading the trace of a download *)
(* ====================================================================== *)

Module Gateways.

Import Synapse.

(** The URLs a run fetched, in the order of the requests. *)
Definition fetched (events : list Event) : list string :=
  flat_map (fun e => match e with Fetch url => [url] | WriteFile _ => [] end)
           events.

(** What goes wrong with one gateway inside the [try] of the loop: the
    fetch throws, or the body arrives and writing it to [out] throws. *)
Definition gateway_failure (io : Platform) (out url : string)
  : option thrown :=
  match fetch_body io url with
  | Throw t => Some t
  | Return data =>
      match writeFile io out data with
      | Throw t => Some t
      | Return _ => None
      end
  end.

Definition gateway_fails (io : Platform) (out url : string) : bool :=
  match gateway_failure io out url with
  | Some _ => true
  | None => false
  end.

(** The error the loop remembers after the gateways [urls] have all
    failed. *)
Definition last_failure (io : Platform) (out : string) (urls : list string)
           (lastError : option thrown) : option thrown :=
  fold_left (fun _ u => gateway_failure io out u) urls lastError.

(** The arguments that get past the guards of [download]. *)
Definition well_formed (params : DownloadParams) (c out : string) : Prop :=
  cid params = Some c /\ outputPath params = Some out
  /\ c <> "" /\ out <> "" /\ isValidCid (trim c) = true.

Definition sample_cid : string :=
  "QmYwAPJzv5CZsnAzt8auqD9BKKy1CjV5v8wRWGW4Y8Y1zT".

Definition sample_params : DownloadParams :=
  {| cid := Some (" " ++ sample_cid); outputPath := Some "/tmp/out" |}.

(** ipfs.io is down, the other gateways answer with five bytes. *)
Definition first_down : Platform := {|
  fetch_body := fun url =>
    if String.prefix "https://ipfs.io/" url
    then Throw (ThrowError "Gateway returned 504: Gateway Timeout")
    else Return (list_byte_of_string "video");
  writeFile := fun _ _ => Return tt;
|}.

End Gateways.

(* ====================================================================== *)
(** ** hybrid-crypto.ts: disconnecting, the type guard, hex digests *)
(* ====================================================================== *)

Module HybridCryptoSupport.

Import Base64 HybridCrypto.
Local Unset Implicit Arguments.

(** The value of a lower-case hex digit, and a hex string read back into
    bytes: what a reader of [sha256Hash]'s output recovers. *)
Definition hexvalue (c : ascii) : option N :=
  let n := N_of_ascii c in
  if ((48 <=? n) && (n <=? 57))%N then Some (n - 48)%N
  else if ((97 <=? n) && (n <=? 102))%N then Some (n - 87)%N
  else None.

Fixpoint unhex (s : string) : option (list byte) :=
  match s with
  | EmptyString => Some []
  | String a (String b rest) =>
      match hexvalue a, hexvalue b, unhex rest with
      | Some x, Some y, Some bytes =>
          option_map (fun v => v :: bytes) (Byte.of_N (x * 16 + y))
      | _, _, _ => None
      end
  | String _ EmptyString => None
  end.

(** [typeof v === 'string'] *)
Definition is_string (v : jsval) : bool :=
  match v with
  | Some (JStr _) => true
  | _ => false
  end.

(** [v !== ''] for a field that holds a string. *)
Definition nonempty_string (v : jsval) : bool :=
  match v with
  | Some (JStr s) => negb (String.eqb s "")
  | _ => false
  end.

(** [isHybridMetadata(metadata)]; arrays and primitives have none of the
    four properties. *)
Definition isHybridMetadata (metadata : jsval) : bool :=
  match metadata with
  | Some (JObj fields) =>
      is_hybrid_v1 (assoc "version" fields)
      && is_string (assoc "encryptedKey" fields)
      && is_string (assoc "keyHash" fields)
      && is_string (assoc "iv" fields)
  | _ => false
  end.

(** The three ways the code base puts [0x] in front of a private key:
    [normalizePrivateKey] of hybrid-crypto.ts and of viem-adapter.ts are in
    [HybridCrypto]; lit-payment.ts and the upload of synapse-wrapper.ts do
    not trim. *)
Definition prefix_0x (privateKey : string) : string :=
  if startsWith "0x" privateKey then privateKey else "0x" ++ privateKey.

Section WithPlatform.
Variable pf : Platform.

(** [disconnectLitClient()].  [closing] is what [litClient.disconnect()]
    does; its error is logged and dropped.  The result lists the clients
    that were asked to disconnect. *)
Definition disconnectLitClient (closing : Client pf -> completion unit)
           (g : Globals pf) : list (Client pf) * Globals pf :=
  match litClient pf g with
  | Some c =>
      match closing c with
      | Return _ | Throw _ =>
          ([c],
           {| litClient := None; authManager := None; initPromise := None;
              created := created pf g; drawn := drawn pf g |})
      end
  | None => ([], g)
  end.

End WithPlatform.

End HybridCryptoSupport.

(* ====================================================================== *)
(** ** lit-wrapper.ts: decrypt, sessions, disconnect and the file methods *)
(* ====================================================================== *)

(** The remaining methods of the wrapper that owns its client. *)
Module LitWrapperOps.

Import Base64 HybridCrypto HybridCryptoSupport LitWrapper.
Local Unset Implicit Arguments.

Record DecryptParams : Type := {
  param_ciphertext : option string;
  param_dataToEncryptHash : option string;
  decrypt_accessControlConditions : option (list EvmBasicAccessControlCondition);
  decrypt_chain : option string;
  decrypt_privateKey : option string;
}.

Record LitSessionResult : Type := {
  active : bool;
  expiresAt : option Z;
  resourceAbilities : list string;
}.

Record EncryptFileParams : Type := {
  filePath : option string;
  file_chain : option string;
  file_privateKey : option string;
}.

Record LitEncryptFileResult : Type := {
  encryptedFilePath : string;
  metadataPath : string;
  file_metadata : HybridEncryptionMetadata;
  originalSize_ : nat;
  encryptedSize : nat;
}.

Record DecryptFileParams : Type := {
  param_encryptedFilePath : option string;
  param_metadataPath : option string;
  param_outputPath : option string;
  param_privateKey : option string;
}.

Record LitDecryptFileResult : Type := {
  outputPath : string;
  size : nat;
  integrityCheck : bool;
}.

Inductive FileEvent : Type :=
| ReadFile (path : string)
| WriteFile (path : string) (data : list byte).

(** A string parameter that is there and not empty: what passes [if (x)]. *)
Definition present (x : option string) : option string :=
  match x with
  | Some s => if string_truthy s then Some s else None
  | None => None
  end.

(** [a || b] followed by a truthiness test. *)
Definition first_present (a b : option string) : option string :=
  match present a with
  | Some s => Some s
  | None => present b
  end.

Definition inactive : LitSessionResult :=
  {| active := false; expiresAt := None; resourceAbilities := [] |}.

Definition decryption_failed (t : thrown) : thrown :=
  ThrowError ("Decryption failed: " ++ message_of t).

Definition file_encryption_failed (t : thrown) : thrown :=
  ThrowError ("File encryption failed: " ++ message_of t).

Definition file_decryption_failed (t : thrown) : thrown :=
  ThrowError ("File decryption failed: " ++ message_of t).

(** The bytes above 127 in a payload. *)
Definition high (b : byte) : bool := (128 <=? Byte.to_N b)%N.

Definition count_high (bytes : list byte) : nat :=
  List.length (filter high bytes).

Section WithPlatform.
Variable pf : Platform.

(** [Deno.env.get], the number of arguments a call may spread, the file
    system, [JSON.stringify] of a metadata record, [TextDecoder.decode],
    and the TypeScript cast [parsed as HybridEncryptionMetadata]: the
    record a parsed value is read as. *)
Variable env : string -> option string.
Variable max_arguments : nat.
Variable readFile : string -> completion (list byte).
Variable writeFile : string -> list byte -> completion unit.
Variable JSON_stringify_metadata : HybridEncryptionMetadata -> string.
Variable TextDecoder_decode : list byte -> string.
Variable as_metadata : JSON -> HybridEncryptionMetadata.

(** A request that leaves the process through the auth manager or the
    client during [decrypt]. *)
Inductive NetworkCall : Type :=
| SignIn (a : AuthManager pf) (account : Account pf) (c : Client pf)
| Decrypt (c : Client pf) (ciphertext dataToEncryptHash : string)
    (conditions : list UnifiedAccessControlCondition)
    (authContext : AuthContext pf) (chain : string).

Definition getPrivateKeyFromEnv : option string :=
  match present (env "HAVEN_PRIVATE_KEY") with
  | Some key => Some key
  | None => env "PRIVATE_KEY"
  end.

(** [getPrivateKey(params)]; the parameter counts when it is a non-empty
    string. *)
Definition getPrivateKey (params : DecryptParams) : completion string :=
  match present (decrypt_privateKey params) with
  | Some key => Return key
  | None =>
      match present getPrivateKeyFromEnv with
      | Some envKey => Return envKey
      | None =>
          Throw (ThrowError
            "Private key not found. Set HAVEN_PRIVATE_KEY environment variable.")
      end
  end.

(** [createAuthContext(privateKey)] *)
Definition createAuthContext (w : Wrapper pf) (privateKey : string)
  : list NetworkCall * completion (AuthContext pf) :=
  match client pf w, wrapper_authManager pf w with
  | Some c, Some a =>
      match createViemAccount pf privateKey with
      | Return viemAccount =>
          ([SignIn a viemAccount c], createEoaAuthContext pf a viemAccount c)
      | Throw t => ([], Throw t)
      end
  | _, _ => ([], Throw (ThrowError "Lit client not initialized"))
  end.

(** [String.fromCharCode(...bytes)]: the spread passes one argument per
    byte, and a call with too many arguments throws a RangeError. *)
Definition fromCharCode_spread (bytes : list byte) : completion string :=
  if Nat.leb (List.length bytes) max_arguments
  then Return (string_of_list_byte bytes)
  else Throw (ThrowError "Maximum call stack size exceeded").

(** [decrypt(params)] *)
Definition decrypt (w : Wrapper pf) (g : Globals pf) (params : DecryptParams)
  : list NetworkCall * completion string :=
  match isConnected pf w g, client pf w, wrapper_authManager pf w with
  | true, Some c, Some _ =>
      let chain := nullish (decrypt_chain params) "ethereum" in
      match present (param_ciphertext params) with
      | None => ([], Throw (missing "ciphertext"))
      | Some ciphertext =>
          match present (param_dataToEncryptHash params) with
          | None => ([], Throw (missing "dataToEncryptHash"))
          | Some dataToEncryptHash =>
              match decrypt_accessControlConditions params with
              | None | Some [] =>
                  ([], Throw (missing "accessControlConditions"))
              | Some accessControlConditions =>
                  match getPrivateKey params with
                  | Throw t => ([], Throw (decryption_failed t))
                  | Return privateKey =>
                      match createAuthContext w privateKey with
                      | (calls, Throw t) =>
                          (calls, Throw (decryption_failed t))
                      | (calls, Return authContext) =>
                          let unifiedAccessControlConditions :=
                            toUnifiedAccessControlConditions
                              accessControlConditions in
                          let call :=
                            Decrypt c ciphertext dataToEncryptHash
                              unifiedAccessControlConditions authContext
                              chain in
                          match client_decrypt pf c ciphertext
                                  dataToEncryptHash
                                  unifiedAccessControlConditions authContext
                                  chain with
                          | Throw t =>
                              ((calls ++ [call])%list,
                               Throw (decryption_failed t))
                          | Return decryptedData =>
                              match fromCharCode_spread decryptedData with
                              | Throw t =>
                                  ((calls ++ [call])%list,
                                   Throw (decryption_failed t))
                              | Return binary =>
                                  ((calls ++ [call])%list,
                                   Return (btoa binary))
                              end
                          end
                      end
                  end
              end
          end
      end
  | _, _, _ => ([], Throw not_connected)
  end.

(** [getSession()] when the clock shows [clock]. *)
Definition getSession (w : Wrapper pf) (g : Globals pf) (clock : Z)
  : LitSessionResult :=
  match isConnected pf w g, _sessionExpiry pf w with
  | true, Some expiry =>
      if (expiry <=? clock)%Z then inactive
      else {| active := true; expiresAt := Some expiry;
              resourceAbilities := ["encryption"; "decryption"] |}
  | _, _ => inactive
  end.

(** [disconnect()]: the module's client is asked to disconnect when the
    wrapper has a client of its own; the wrapper's client is dropped. *)
Definition disconnect (closing : Client pf -> completion unit)
           (w : Wrapper pf) (g : Globals pf)
  : list (Client pf) * Wrapper pf * Globals pf :=
  let '(closed, g') :=
    match client pf w with
    | Some _ => disconnectLitClient pf closing g
    | None => ([], g)
    end in
  (closed,
   {| client := None; wrapper_authManager := None; _isConnected := false;
      _network := ""; _sessionExpiry := None; _nodeCount := _nodeCount pf w |},
   g').

(** [encryptFile(params)] *)
Definition encryptFile (w : Wrapper pf) (g : Globals pf)
           (params : EncryptFileParams)
  : list FileEvent * completion LitEncryptFileResult * Globals pf :=
  if negb (isConnected pf w g) then ([], Throw not_connected, g)
  else
    let chain := nullish (file_chain params) "ethereum" in
    match present (filePath params) with
    | None => ([], Throw (missing "filePath"), g)
    | Some filePath =>
        match first_present (file_privateKey params) getPrivateKeyFromEnv with
        | None =>
            ([], Throw (ThrowError
               "Private key required for encryption. Set HAVEN_PRIVATE_KEY environment variable or pass privateKey parameter."),
             g)
        | Some privateKey =>
            match readFile filePath with
            | Throw t =>
                ([ReadFile filePath], Throw (file_encryption_failed t), g)
            | Return fileData =>
                match hybridEncryptFile pf fileData privateKey (Some chain)
                        (enter pf g) with
                | (Throw t, fr) =>
                    ([ReadFile filePath], Throw (file_encryption_failed t),
                     module_ pf fr)
                | (Return r, fr) =>
                    let encryptedFilePath := filePath ++ ".encrypted" in
                    let write1 :=
                      WriteFile encryptedFilePath (encryptedFile r) in
                    match writeFile encryptedFilePath (encryptedFile r) with
                    | Throw t =>
                        ([ReadFile filePath; write1],
                         Throw (file_encryption_failed t), module_ pf fr)
                    | Return _ =>
                        let metadataPath :=
                          encryptedFilePath ++ ".meta.json" in
                        let metadataJson :=
                          JSON_stringify_metadata (metadata r) in
                        let metadataBytes :=
                          TextEncoder_encode metadataJson in
                        let write2 := WriteFile metadataPath metadataBytes in
                        match writeFile metadataPath metadataBytes with
                        | Throw t =>
                            ([ReadFile filePath; write1; write2],
                             Throw (file_encryption_failed t), module_ pf fr)
                        | Return _ =>
                            ([ReadFile filePath; write1; write2],
                             Return
                               {| encryptedFilePath := encryptedFilePath;
                                  metadataPath := metadataPath;
                                  file_metadata := metadata r;
                                  originalSize_ := List.length fileData;
                                  encryptedSize :=
                                    List.length (encryptedFile r) |},
                             module_ pf fr)
                        end
                    end
                end
            end
        end
    end.

(** [decryptFile(params)] *)
Definition decryptFile (w : Wrapper pf) (g : Globals pf)
           (params : DecryptFileParams)
  : list FileEvent * completion LitDecryptFileResult * Globals pf :=
  if negb (isConnected pf w g) then ([], Throw not_connected, g)
  else
    match present (param_encryptedFilePath params) with
    | None => ([], Throw (missing "encryptedFilePath"), g)
    | Some encryptedFilePath =>
        match present (param_outputPath params) with
        | None => ([], Throw (missing "outputPath"), g)
        | Some outputPath =>
            match first_present (param_privateKey params)
                    getPrivateKeyFromEnv with
            | None =>
                ([], Throw (ThrowError
                   "Private key required for decryption. Set HAVEN_PRIVATE_KEY environment variable or pass privateKey parameter."),
                 g)
            | Some privateKey =>
                match readFile encryptedFilePath with
                | Throw t =>
                    ([ReadFile encryptedFilePath],
                     Throw (file_decryption_failed t), g)
                | Return encryptedData =>
                    let metaPath :=
                      match present (param_metadataPath params) with
                      | Some path => path
                      | None => encryptedFilePath ++ ".meta.json"
                      end in
                    let reads :=
                      [ReadFile encryptedFilePath; ReadFile metaPath] in
                    match readFile metaPath with
                    | Throw t => (reads, Throw (file_decryption_failed t), g)
                    | Return metadataBytes =>
                        let metadataJson :=
                          TextDecoder_decode metadataBytes in
                        match deserializeHybridMetadata pf metadataJson with
                        | Throw t =>
                            (reads, Throw (file_decryption_failed t), g)
                        | Return parsed =>
                            let metadata := as_metadata parsed in
                            match hybridDecryptFile pf encryptedData metadata
                                    privateKey (enter pf g) with
                            | (Throw t, fr) =>
                                (reads, Throw (file_decryption_failed t),
                                 module_ pf fr)
                            | (Return decryptedData, fr) =>
                                let events :=
                                  (reads
                                   ++ [WriteFile outputPath decryptedData])%list
                                in
                                match writeFile outputPath decryptedData with
                                | Throw t =>
                                    (events, Throw (file_decryption_failed t),
                                     module_ pf fr)
                                | Return _ =>
                                    let integrityCheck :=
                                      match originalHash metadata with
                                      | Some expected =>
                                          if string_truthy expected
                                          then String.eqb
                                                 (hex (digest_SHA256 pf
                                                         decryptedData))
                                                 expected
                                          else true
                                      | None => true
                                      end in
                                    (events,
                                     Return
                                       {| outputPath := outputPath;
                                          size := List.length decryptedData;
                                          integrityCheck := integrityCheck |},
                                     module_ pf fr)
                                end
                            end
                        end
                    end
                end
            end
        end
    end.

End WithPlatform.

End LitWrapperOps.

(* ====================================================================== *)
(** ** A small file system for the file methods *)
(* ====================================================================== *)

(** Three files next to each other: a plaintext, its sealed form and the
    metadata, on the platform of [Toy]. *)
Module ToyFiles.

Import HybridCrypto LitWrapper LitWrapperOps.

Definition env (name : string) : option string :=
  if String.eqb name "HAVEN_PRIVATE_KEY" then Some Toy.TEST_PRIVATE_KEY
  else None.

Definition plain_path : string := "/tmp/hello.txt".
Definition sealed_path : string := "/tmp/hello.txt.encrypted".
Definition metadata_path : string := "/tmp/hello.txt.encrypted.meta.json".

Definition readFile (path : string) : completion (list byte) :=
  if String.eqb path plain_path then Return Toy.hello
  else if String.eqb path sealed_path
  then Return (encryptedFile (fst Toy.hello_sealed))
  else if String.eqb path metadata_path
  then Return (list_byte_of_string (Toy.metadata_text "d3JhcHBlZA=="))
  else Throw (ThrowError "No such file or directory").

Definition writeFile (path : string) (data : list byte) : completion unit :=
  Return tt.

(** Stand-ins for [JSON.stringify] and the cast of the parsed metadata. *)
Definition stringify (metadata : HybridEncryptionMetadata) : string :=
  Toy.metadata_text (encryptedKey metadata).

Definition as_metadata (parsed : JSON) : HybridEncryptionMetadata :=
  metadata (fst Toy.hello_sealed).

Definition owner_only : list EvmBasicAccessControlCondition :=
  createOwnerOnlyAccessControlConditions
    "0x1234567890ABCDEF1234567890abcdef12345678".

Definition decrypt_params : DecryptParams :=
  {| param_ciphertext := Some "aGVsbG8=";
     param_dataToEncryptHash := Some "abc";
     decrypt_accessControlConditions := Some owner_only;
     decrypt_chain := None;
     decrypt_privateKey := None |}.

Definition encryptFile_params : EncryptFileParams :=
  {| filePath := Some plain_path; file_chain := None;
     file_privateKey := None |}.

Definition decryptFile_params : DecryptFileParams :=
  {| param_encryptedFilePath := Some sealed_path;
     param_metadataPath := None;
     param_outputPath := Some "/tmp/hello.out";
     param_privateKey := Some Toy.TEST_PRIVATE_KEY |}.

End ToyFiles.

(* ====================================================================== *)
(** ** A JavaScript [Map] with string keys *)
(* ====================================================================== *)

(** The entries in insertion order, as [Map.prototype.keys] lists them:
    [set] on a key that is there keeps its place, on a new key appends. *)
Module JsMap.

Section WithValues.
Variable V : Type.

Definition t : Type := list (string * V).

Definition empty : t := [].

Fixpoint get (k : string) (m : t) : option V :=
  match m with
  | [] => None
  | (k', v) :: rest => if String.eqb k k' then Some v else get k rest
  end.

Fixpoint set (k : string) (v : V) (m : t) : t :=
  match m with
  | [] => [(k, v)]
  | (k', v') :: rest =>
      if String.eqb k k' then (k', v) :: rest else (k', v') :: set k v rest
  end.

Fixpoint delete (k : string) (m : t) : t :=
  match m with
  | [] => []
  | (k', v') :: rest =>
      if String.eqb k k' then rest else (k', v') :: delete k rest
  end.

Definition keys (m : t) : list string := map fst m.

Definition size (m : t) : nat := List.length m.

End WithValues.

End JsMap.

(* ====================================================================== *)
(** ** browser-shim.ts: the storage shim and its installation *)
(* ====================================================================== *)

Module BrowserShim.

(** [class MemoryStorage]: its only field is the map [data]. *)
Record MemoryStorage : Type := {
  data : JsMap.t string;
}.

Definition new_MemoryStorage : MemoryStorage := {| data := JsMap.empty _ |}.

Definition length (s : MemoryStorage) : nat := JsMap.size (data s).

Definition clear (s : MemoryStorage) : MemoryStorage :=
  {| data := JsMap.empty _ |}.

(** [this.data.get(key) ?? null]; [None] is its [null]. *)
Definition getItem (key : string) (s : MemoryStorage) : option string :=
  JsMap.get key (data s).

(** [Array.from(this.data.keys())[index] ?? null] for an integer index. *)
Definition key (index : Z) (s : MemoryStorage) : option string :=
  if (index <? 0)%Z then None
  else nth_error (JsMap.keys (data s)) (Z.to_nat index).

Definition removeItem (key : string) (s : MemoryStorage) : MemoryStorage :=
  {| data := JsMap.delete key (data s) |}.

Definition setItem (key value : string) (s : MemoryStorage) : MemoryStorage :=
  {| data := JsMap.set key value (data s) |}.

(** The stores a program can get hold of: a new one, changed through its
    methods. *)
Inductive reachable : MemoryStorage -> Prop :=
| reach_new : reachable new_MemoryStorage
| reach_setItem k v s : reachable s -> reachable (setItem k v s)
| reach_removeItem k s : reachable s -> reachable (removeItem k s)
| reach_clear s : reachable s -> reachable (clear s).









End BrowserShim.

(* ====================================================================== *)
(** ** Reading a decimal number back *)
(* ====================================================================== *)

(** The inverse of [String(n)] on integers, used to tell cache keys
    apart. *)
Module Decimal.

Definition is_digit (c : ascii) : bool :=
  ((48 <=? N_of_ascii c) && (N_of_ascii c <=? 57))%N.

(** A digit or the minus sign. *)
Definition is_numeral (c : ascii) : bool :=
  is_digit c || Ascii.eqb c "-".

Fixpoint value (s : string) (acc : N) : N :=
  match s with
  | EmptyString => acc
  | String c rest => value rest (acc * 10 + (N_of_ascii c - 48))%N
  end.

Definition parse_Z (s : string) : Z :=
  match s with
  | EmptyString => 0%Z
  | String c rest =>
      if Ascii.eqb c "-" then Z.opp (Z.of_N (value rest 0))
      else Z.of_N (value s 0)
  end.

End Decimal.

(* ====================================================================== *)
(** ** lit-storage.ts: the memory storage of the auth manager *)
(* ====================================================================== *)

Module LitStorage.

Record PKPData : Type := {
  tokenId : string;
  publicKey : string;
  ethAddress : string;
}.

Section WithApp.

(** [LitAuthData] is [any] in the source. *)
Variable LitAuthData : Type.
Variable appName networkName : string.

(** The six maps [createMemoryStorage] closes over; a time stamp is kept
    with three of them. *)
Record Stores : Type := {
  authDataStore : JsMap.t LitAuthData;
  innerDelegationStore : JsMap.t string;
  pkpTokensStore : JsMap.t (list string * Z);
  pkpFullStore : JsMap.t (list PKPData * Z);
  pkpDetailsStore : JsMap.t (string * string);
  pkpAddressStore : JsMap.t (list string * Z);
}.

Definition createMemoryStorage : Stores :=
  {| authDataStore := JsMap.empty _; innerDelegationStore := JsMap.empty _;
     pkpTokensStore := JsMap.empty _; pkpFullStore := JsMap.empty _;
     pkpDetailsStore := JsMap.empty _; pkpAddressStore := JsMap.empty _ |}.

Definition AUTH_PREFIX : string := "lit-auth".
Definition PKP_PREFIX : string := "lit-pkp-tokens".
Definition PKP_FULL_PREFIX : string := "lit-pkp-full".
Definition PKP_DETAILS_PREFIX : string := "lit-pkp-details".
Definition PKP_ADDRESS_PREFIX : string := "lit-pkp-address".

Definition buildLookupKey (address : string) : string :=
  AUTH_PREFIX ++ ":" ++ appName ++ ":" ++ networkName ++ ":" ++ address.

(** The auth method type is an integer, printed in decimal. *)
Definition buildPKPCacheKey (authMethodType : Z) (authMethodId : string)
  : string :=
  PKP_PREFIX ++ ":" ++ appName ++ ":" ++ networkName ++ ":"
  ++ string_of_Z authMethodType ++ ":" ++ authMethodId.

Definition buildPKPFullCacheKey (authMethodType : Z) (authMethodId : string)
  : string :=
  PKP_FULL_PREFIX ++ ":" ++ appName ++ ":" ++ networkName ++ ":"
  ++ string_of_Z authMethodType ++ ":" ++ authMethodId.

Definition buildPKPDetailsCacheKey (tokenId : string) : string :=
  PKP_DETAILS_PREFIX ++ ":" ++ appName ++ ":" ++ networkName ++ ":" ++ tokenId.

Definition buildPKPAddressCacheKey (ownerAddress : string) : string :=
  PKP_ADDRESS_PREFIX ++ ":" ++ appName ++ ":" ++ networkName ++ ":"
  ++ ownerAddress.

Definition read (address : string) (s : Stores) : option LitAuthData :=
  JsMap.get (buildLookupKey address) (authDataStore s).

Definition write (address : string) (authData : LitAuthData) (s : Stores)
  : Stores :=
  {| authDataStore :=
       JsMap.set (buildLookupKey address) authData (authDataStore s);
     innerDelegationStore := innerDelegationStore s;
     pkpTokensStore := pkpTokensStore s; pkpFullStore := pkpFullStore s;
     pkpDetailsStore := pkpDetailsStore s;
     pkpAddressStore := pkpAddressStore s |}.

Definition inner_delegation_key (publicKey : string) : string :=
  buildLookupKey (appName ++ "-inner-delegation:" ++ publicKey).

Definition writeInnerDelegationAuthSig (publicKey authSig : string)
           (s : Stores) : Stores :=
  {| authDataStore := authDataStore s;
     innerDelegationStore :=
       JsMap.set (inner_delegation_key publicKey) authSig
         (innerDelegationStore s);
     pkpTokensStore := pkpTokensStore s; pkpFullStore := pkpFullStore s;
     pkpDetailsStore := pkpDetailsStore s;
     pkpAddressStore := pkpAddressStore s |}.

Definition readInnerDelegationAuthSig (publicKey : string) (s : Stores)
  : option string :=
  JsMap.get (inner_delegation_key publicKey) (innerDelegationStore s).

(** [now] is [Date.now()] at the time of the call. *)
Definition writePKPTokens (now : Z) (authMethodType : Z)
           (authMethodId : string) (tokenIds : list string) (s : Stores)
  : Stores :=
  {| authDataStore := authDataStore s;
     innerDelegationStore := innerDelegationStore s;
     pkpTokensStore :=
       JsMap.set (buildPKPCacheKey authMethodType authMethodId)
         (tokenIds, now) (pkpTokensStore s);
     pkpFullStore := pkpFullStore s;
     pkpDetailsStore := pkpDetailsStore s;
     pkpAddressStore := pkpAddressStore s |}.

(** [value?.tokenIds ?? null] *)
Definition readPKPTokens (authMethodType : Z) (authMethodId : string)
           (s : Stores) : option (list string) :=
  option_map fst
    (JsMap.get (buildPKPCacheKey authMethodType authMethodId)
       (pkpTokensStore s)).

Definition writePKPs (now : Z) (authMethodType : Z) (authMethodId : string)
           (pkps : list PKPData) (s : Stores) : Stores :=
  {| authDataStore := authDataStore s;
     innerDelegationStore := innerDelegationStore s;
     pkpTokensStore := pkpTokensStore s;
     pkpFullStore :=
       JsMap.set (buildPKPFullCacheKey authMethodType authMethodId)
         (pkps, now) (pkpFullStore s);
     pkpDetailsStore := pkpDetailsStore s;
     pkpAddressStore := pkpAddressStore s |}.

Definition readPKPs (authMethodType : Z) (authMethodId : string) (s : Stores)
  : option (list PKPData) :=
  option_map fst
    (JsMap.get (buildPKPFullCacheKey authMethodType authMethodId)
       (pkpFullStore s)).

Definition writePKPDetails (details : PKPData) (s : Stores) : Stores :=
  {| authDataStore := authDataStore s;
     innerDelegationStore := innerDelegationStore s;
     pkpTokensStore := pkpTokensStore s; pkpFullStore := pkpFullStore s;
     pkpDetailsStore :=
       JsMap.set (buildPKPDetailsCacheKey (tokenId details))
         (publicKey details, ethAddress details) (pkpDetailsStore s);
     pkpAddressStore := pkpAddressStore s |}.

Definition readPKPDetails (tokenId : string) (s : Stores)
  : option (string * string) :=
  JsMap.get (buildPKPDetailsCacheKey tokenId) (pkpDetailsStore s).

Definition writePKPTokensByAddress (now : Z) (ownerAddress : string)
           (tokenIds : list string) (s : Stores) : Stores :=
  {| authDataStore := authDataStore s;
     innerDelegationStore := innerDelegationStore s;
     pkpTokensStore := pkpTokensStore s; pkpFullStore := pkpFullStore s;
     pkpDetailsStore := pkpDetailsStore s;
     pkpAddressStore :=
       JsMap.set (buildPKPAddressCacheKey ownerAddress) (tokenIds, now)
         (pkpAddressStore s) |}.

Definition readPKPTokensByAddress (ownerAddress : string) (s : Stores)
  : option (list string) :=
  option_map fst
    (JsMap.get (buildPKPAddressCacheKey ownerAddress) (pkpAddressStore s)).

End WithApp.

End LitStorage.

(* ====================================================================== *)
(** ** synapse-wrapper.ts: connect and disconnect *)
(* ====================================================================== *)

Module SynapseSession.

Import LitWrapper.

Record ConnectParams : Type := {
  networkMode : option string;
  endpoint : option string;
  apiKey : option string;
  privateKey : option string;
  rpcUrl : option string;
}.

Record SynapseConnectResult : Type := {
  connected : bool;
  result_endpoint : string;
}.

(** What [fetch] resolves to, as far as [connect] looks at it. *)
Record Response : Type := {
  ok : bool;
  status : nat;
  statusText : string;
}.

(** The fields of [SynapseWrapperImpl]; [_synapse] is [null] or the
    service an upload has initialised. *)
Record Wrapper : Type := {
  _isConnected : bool;
  _endpoint : string;
  _apiKey : string;
  _privateKey : string;
  _rpcUrl : string;
  _synapse : bool;
}.

Definition createSynapseWrapper : Wrapper :=
  {| _isConnected := false; _endpoint := ""; _apiKey := "";
     _privateKey := ""; _rpcUrl := ""; _synapse := false |}.

Inductive Event : Type :=
| Fetch (url : string) (authorization : option string)
| Warn (message : string)
| Cleanup.

(** [s.includes(word)] *)
Fixpoint includes (word s : string) : bool :=
  String.prefix word s
  || match s with
     | EmptyString => false
     | String _ rest => includes word rest
     end.

Definition MAINNET_RPC : string := "https://api.node.glif.io/rpc/v1".
Definition CALIBRATION_RPC : string :=
  "https://api.calibration.node.glif.io/rpc/v1".

Definition credentials_required : thrown :=
  ThrowError
    "Synapse API key or private key is required. Set SYNAPSE_API_KEY or HAVEN_PRIVATE_KEY environment variable.".

Section WithPlatform.

(** [Deno.env.get] and [fetch] with the [Authorization] header it is
    given. *)
Variable env : string -> option string.
Variable fetch : string -> option string -> completion Response.

(** The [try] block around the health check: what it throws is caught,
    and logged unless it is no [Error] or its message contains [404]. *)
Definition health_check (endpoint apiKey : string) : list Event :=
  let url := endpoint ++ "/health" in
  let authorization :=
    if string_truthy apiKey then Some ("Bearer " ++ apiKey) else None in
  let thrown_inside : option thrown :=
    match fetch url authorization with
    | Return response =>
        if negb (ok response) && negb (Nat.eqb (status response) 404)
        then Some (ThrowError
                     ("Synapse endpoint health check failed: "
                      ++ string_of_N (N.of_nat (status response)) ++ " "
                      ++ statusText response))
        else None
    | Throw t => Some t
    end in
  Fetch url authorization
  :: match thrown_inside with
     | Some (ThrowError message) =>
         if negb (includes "404" message)
         then [Warn ("Could not reach Synapse endpoint, continuing anyway: "
                     ++ message)]
         else []
     | Some (ThrowValue _) | None => []
     end.

(** The constants at the head of [connect]. *)
Definition defaultRpcUrl_of (params : ConnectParams) : string :=
  let networkMode := nullish (networkMode params) "testnet" in
  if String.eqb networkMode "mainnet" then MAINNET_RPC else CALIBRATION_RPC.

Definition endpoint_of (params : ConnectParams) : string :=
  nullish (endpoint params) (defaultRpcUrl_of params).

Definition apiKey_of (params : ConnectParams) : string :=
  nullish (apiKey params) (nullish (env "SYNAPSE_API_KEY") "").

Definition privateKey_of (params : ConnectParams) : string :=
  nullish (privateKey params) (nullish (env "HAVEN_PRIVATE_KEY") "").

Definition rpcUrl_of (params : ConnectParams) : string :=
  nullish (rpcUrl params)
    (nullish (env "FILECOIN_RPC_URL") (defaultRpcUrl_of params)).

(** [connect(params)] *)
Definition connect (w : Wrapper) (params : ConnectParams)
  : list Event * completion SynapseConnectResult * Wrapper :=
  let endpoint := endpoint_of params in
  let apiKey := apiKey_of params in
  let privateKey := privateKey_of params in
  let rpcUrl := rpcUrl_of params in
  if negb (string_truthy apiKey) && negb (string_truthy privateKey)
  then ([], Throw credentials_required, w)
  else
    (health_check endpoint apiKey,
     Return {| connected := true; result_endpoint := endpoint |},
     {| _isConnected := true; _endpoint := endpoint; _apiKey := apiKey;
        _privateKey := privateKey; _rpcUrl := rpcUrl;
        _synapse := _synapse w |}).

(** [disconnect()]; what [cleanupSynapseService] throws is logged and
    dropped. *)
Definition disconnect (w : Wrapper) : list Event * Wrapper :=
  (if _synapse w then [Cleanup] else [],
   {| _isConnected := false; _endpoint := ""; _apiKey := "";
      _privateKey := _privateKey w; _rpcUrl := _rpcUrl w;
      _synapse := false |}).

End WithPlatform.

(** An endpoint that cannot be reached. *)
Definition unreachable (url : string) (authorization : option string)
  : completion Response :=
  Throw (ThrowError "error sending request: connection refused").

Definition no_env (name : string) : option string := None.

End SynapseSession.

(* ====================================================================== *)
(** ** lit-payment.ts: capacity credits *)
(* ====================================================================== *)

Module LitPayment.

Import HybridCryptoSupport.

Record PaymentStatus : Type := {
  ready : bool;
  status : string;
  message : string;
  error : option string;
  suggestions : list string;
}.

Definition minting_not_implemented : thrown :=
  ThrowError
    "Capacity credit minting not yet implemented. Please mint manually via Lit Explorer: https://explorer.litprotocol.com".

Section WithPlatform.

(** [new ethers.JsonRpcProvider(url)], [new ethers.Wallet(key)] and
    [new ethers.Wallet(key, provider)], the last two giving the address,
    and [provider.getBalance]. *)
Variable Provider : Type.
Variable JsonRpcProvider : string -> completion Provider.
Variable Wallet : string -> completion string.
Variable Wallet_on : string -> Provider -> completion string.
Variable getBalance : Provider -> string -> completion N.

Definition CHRONICLE_YELLOWSTONE_rpcUrl : string :=
  "https://yellowstone-rpc.litprotocol.com".

(** [checkPaymentReadiness(config)]; it reads [config.privateKey] only. *)
Definition checkPaymentReadiness (privateKey : string) : PaymentStatus :=
  match Wallet privateKey with
  | Return walletAddress =>
      {| ready := false; status := "no_credits";
         message := "Capacity credits check not yet implemented.";
         error := None;
         suggestions :=
           ["Mint capacity credits via Lit Explorer: https://explorer.litprotocol.com";
            "Or mint programmatically using LitContracts SDK";
            "Capacity credits are NFTs on Chronicle Yellowstone blockchain"] |}
  | Throw t =>
      {| ready := false; status := "error";
         message := "Failed to check payment status";
         error := Some (message_of t); suggestions := [] |}
  end.

Definition getChronicleProvider : completion Provider :=
  JsonRpcProvider CHRONICLE_YELLOWSTONE_rpcUrl.

Definition createCapacityCreditWallet (privateKey : string)
  : completion string :=
  let normalizedKey := prefix_0x privateKey in
  match getChronicleProvider with
  | Return provider => Wallet_on normalizedKey provider
  | Throw t => Throw t
  end.

(** [checkLitKeyBalance(walletAddress)]; the provider is made before the
    [try]. *)
Definition checkLitKeyBalance (walletAddress : string) : completion N :=
  match getChronicleProvider with
  | Return provider =>
      match getBalance provider walletAddress with
      | Return balance => Return balance
      | Throw _ => Return 0%N
      end
  | Throw t => Throw t
  end.

(** [verifyPaymentSetup(privateKey, network)], with the warnings it
    prints. *)
Definition verifyPaymentSetup (privateKey network : string)
  : list string * completion unit :=
  if String.eqb network "naga-dev" || String.eqb network "datil-dev"
  then ([], Return tt)
  else
    match createCapacityCreditWallet privateKey with
    | Throw t => ([], Throw t)
    | Return walletAddress =>
        match checkLitKeyBalance walletAddress with
        | Throw t => ([], Throw t)
        | Return litKeyBalance =>
            ((if N.eqb litKeyBalance 0
              then ["[Lit Payment] Warning: No LITKEY tokens for gas. Get some from the faucet."]
              else [])
             ++ ["[Lit Payment] Warning: Capacity credit check not fully implemented";
                 "[Lit Payment] Ensure you have capacity credits minted for this wallet";
                 "[Lit Payment] Mint at: https://explorer.litprotocol.com"],
             Return tt)%list
        end
    end.

(** [mintCapacityCredits(privateKey, requestsPerDay, daysUntilExpiration)];
    the two numbers are only printed. *)
Definition mintCapacityCredits (privateKey : string) : completion unit :=
  match createCapacityCreditWallet privateKey with
  | Throw t => Throw t
  | Return _ => Throw minting_not_implemented
  end.

End WithPlatform.

End LitPayment.

(* ====================================================================== *)
(** ** Strings *)
(* ====================================================================== *)

Module StringFacts.

Lemma append_nil_inv (s1 s2 : string) :
  (s1 ++ s2)%string = EmptyString -> s1 = EmptyString /\ s2 = EmptyString.
Proof. destruct s1; cbn; [auto | discriminate]. Qed.

Lemma append_empty_r (s : string) : (s ++ "")%string = s.
Proof. induction s; cbn; congruence. Qed.

Lemma append_assoc (a b c : string) :
  ((a ++ b) ++ c)%string = (a ++ (b ++ c))%string.
Proof. induction a; cbn; congruence. Qed.

End StringFacts.

(* ====================================================================== *)
(** ** Properties of the base64 conversions *)
(* ====================================================================== *)

Module Base64Facts.

Import Base64.
Local Open Scope N_scope.

Lemma b64index_b64char (n : N) : n < 64 -> b64index (b64char n) = Some n.
Proof.
  intros H.
  assert (Hn : (N.to_nat n < 64)%nat) by lia.
  rewrite <- (N2Nat.id n). generalize dependent (N.to_nat n). clear.
  intros k Hk.
  do 64 (destruct k as [|k]; [reflexivity|]). lia.
Qed.

Lemma b64char_not_pad (n : N) : n < 64 -> Ascii.eqb (b64char n) pad = false.
Proof.
  intros H.
  assert (Hn : (N.to_nat n < 64)%nat) by lia.
  rewrite <- (N2Nat.id n). generalize dependent (N.to_nat n). clear.
  intros k Hk.
  do 64 (destruct k as [|k]; [reflexivity|]). lia.
Qed.

Lemma code_bound (a : ascii) : N_of_ascii a < 256.
Proof. apply N_ascii_bounded. Qed.

Lemma string_ind3 (P : string -> Prop) :
  P EmptyString ->
  (forall a, P (String a EmptyString)) ->
  (forall a b, P (String a (String b EmptyString))) ->
  (forall a b c rest, P rest -> P (String a (String b (String c rest)))) ->
  forall s, P s.
Proof.
  intros H0 H1 H2 H3.
  fix IH 1. intros s.
  destruct s as [|a [|b [|c rest]]].
  - exact H0.
  - apply H1.
  - apply H2.
  - apply H3. apply IH.
Qed.

Ltac divlia := zify; Z.to_euclidean_division_equations; lia.

Lemma recombine_hi (x y : N) :
  x < 256 -> y < 256 -> x / 4 * 4 + (x mod 4 * 16 + y / 16) / 16 = x.
Proof. intros; divlia. Qed.

Lemma recombine_hi0 (x : N) :
  x < 256 -> x / 4 * 4 + (x mod 4 * 16) / 16 = x.
Proof. intros; divlia. Qed.

Lemma recombine_mid (x y z : N) :
  x < 256 -> y < 256 -> z < 256 ->
  (x mod 4 * 16 + y / 16) mod 16 * 16 + (y mod 16 * 4 + z / 64) / 4 = y.
Proof. intros; divlia. Qed.

Lemma recombine_mid0 (x y : N) :
  x < 256 -> y < 256 ->
  (x mod 4 * 16 + y / 16) mod 16 * 16 + (y mod 16 * 4) / 4 = y.
Proof. intros; divlia. Qed.

Lemma recombine_lo (y z : N) :
  y < 256 -> z < 256 -> (y mod 16 * 4 + z / 64) mod 4 * 64 + z mod 64 = z.
Proof. intros; divlia. Qed.

Lemma sextet_1 (x : N) : x < 256 -> x / 4 < 64.
Proof. intros; divlia. Qed.
Lemma sextet_2 (x y : N) : x < 256 -> y < 256 -> x mod 4 * 16 + y / 16 < 64.
Proof. intros; divlia. Qed.
Lemma sextet_2' (x : N) : x mod 4 * 16 < 64.
Proof. intros; divlia. Qed.
Lemma sextet_3 (y z : N) : y < 256 -> z < 256 -> y mod 16 * 4 + z / 64 < 64.
Proof. intros; divlia. Qed.
Lemma sextet_3' (y : N) : y mod 16 * 4 < 64.
Proof. intros; divlia. Qed.
Lemma sextet_4 (z : N) : z mod 64 < 64.
Proof. intros; divlia. Qed.

Lemma b64char_not_whitespace (n : N) :
  n < 64 -> is_ascii_whitespace (b64char n) = false.
Proof.
  intros H.
  assert (Hn : (N.to_nat n < 64)%nat) by lia.
  rewrite <- (N2Nat.id n). generalize dependent (N.to_nat n). clear.
  intros k Hk.
  do 64 (destruct k as [|k]; [reflexivity|]). lia.
Qed.

Lemma btoa_no_whitespace (s : string) : strip_whitespace (btoa s) = btoa s.
Proof.
  induction s as [|a|a b|a b c rest IH] using string_ind3.
  - reflexivity.
  - cbn [btoa strip_whitespace].
    rewrite !b64char_not_whitespace
      by (first [apply sextet_1 | apply sextet_2']; apply code_bound).
    reflexivity.
  - cbn [btoa strip_whitespace].
    rewrite !b64char_not_whitespace
      by (first [apply sextet_1 | apply sextet_2 | apply sextet_3'];
          apply code_bound).
    reflexivity.
  - cbn [btoa strip_whitespace].
    rewrite !b64char_not_whitespace
      by (first [apply sextet_1 | apply sextet_2 | apply sextet_3
                | apply sextet_4]; apply code_bound).
    now rewrite IH.
Qed.

Lemma forgiving_decode_btoa (s : string) : forgiving_decode (btoa s) = Some s.
Proof.
  induction s as [|a|a b|a b c rest IH] using string_ind3.
  - reflexivity.
  - cbn [btoa forgiving_decode].
    rewrite !b64index_b64char
      by (first [apply sextet_1 | apply sextet_2']; apply code_bound).
    cbn. rewrite recombine_hi0 by apply code_bound.
    now rewrite ascii_N_embedding.
  - cbn [btoa forgiving_decode].
    rewrite !b64index_b64char
      by (first [apply sextet_1 | apply sextet_2 | apply sextet_3'];
          apply code_bound).
    rewrite b64char_not_pad by apply sextet_3'.
    cbn. rewrite recombine_hi, recombine_mid0 by apply code_bound.
    now rewrite !ascii_N_embedding.
  - cbn [btoa forgiving_decode].
    rewrite !b64index_b64char
      by (first [apply sextet_1 | apply sextet_2 | apply sextet_3
                | apply sextet_4]; apply code_bound).
    rewrite !b64char_not_pad
      by (first [apply sextet_3 | apply sextet_4]; apply code_bound).
    rewrite IH.
    rewrite recombine_hi, recombine_mid, recombine_lo by apply code_bound.
    now rewrite !ascii_N_embedding.
Qed.

Theorem atob_btoa (s : string) : atob (btoa s) = Some s.
Proof. unfold atob. now rewrite btoa_no_whitespace, forgiving_decode_btoa. Qed.

(** Text without padding and text with line breaks decode as well. *)
Example atob_unpadded :
  atob "YQ" = Some "a" /\ atob "YWI" = Some "ab"
  /\ atob (String (ascii_of_nat 10) "Y W J j") = Some "abc"
  /\ atob "Y" = None /\ atob "YQ=" = None /\ atob "Y=Q=" = None.
Proof. repeat split; reflexivity. Qed.

Theorem base64_roundtrip (bytes : list byte) :
  base64ToArrayBuffer (arrayBufferToBase64 bytes) = Return bytes.
Proof.
  unfold base64ToArrayBuffer, arrayBufferToBase64.
  rewrite atob_btoa. now rewrite list_byte_of_string_of_list_byte.
Qed.

End Base64Facts.

(* ====================================================================== *)
(** ** Properties of the pattern matcher *)
(* ====================================================================== *)

Module RegexFacts.

Import Regex StringFacts.

#[local] Hint Constructors lang : core.

Ltac inv_lang :=
  repeat match goal with
    | H : lang Void _ |- _ => inversion H
    | H : lang Eps _ |- _ => inversion H; subst; clear H
    | H : lang (Class _) _ |- _ => inversion H; subst; clear H
    | H : lang (Seq _ _) _ |- _ => inversion H; subst; clear H
    | H : lang (Alt _ _) _ |- _ => inversion H; subst; clear H
    end.

Ltac cons_app c s :=
  change (String c s) with (String c EmptyString ++ s)%string.

Lemma nullable_lang (r : re) : nullable r = true <-> lang r EmptyString.
Proof.
  split.
  - induction r; cbn; intros H; try discriminate; auto.
    + apply andb_true_iff in H as [H1 H2].
      change EmptyString with (EmptyString ++ EmptyString)%string. auto.
    + apply orb_true_iff in H as [H|H]; auto.
  - remember EmptyString as s eqn:Es.
    induction 1; cbn; try discriminate; auto.
    + apply append_nil_inv in Es as [-> ->]. rewrite IHlang1, IHlang2; auto.
    + rewrite IHlang; auto.
    + rewrite IHlang; auto using orb_true_r.
Qed.

Lemma lang_cons_seq r1 r2 c s1 s2 :
  lang r1 (String c s1) -> lang r2 s2 -> lang (Seq r1 r2) (String c (s1 ++ s2)).
Proof.
  intros H1 H2. change (String c (s1 ++ s2)) with (String c s1 ++ s2)%string.
  auto.
Qed.

Lemma lang_cons_star r c s1 s2 :
  lang r (String c s1) -> lang (Star r) s2 -> lang (Star r) (String c (s1 ++ s2)).
Proof.
  intros H1 H2. change (String c (s1 ++ s2)) with (String c s1 ++ s2)%string.
  auto.
Qed.

Lemma deriv_sound (r : re) :
  forall c s, lang (deriv c r) s -> lang r (String c s).
Proof.
  induction r; cbn; intros c s H.
  - inv_lang.
  - inv_lang.
  - destruct (p c) eqn:E; inv_lang. auto.
  - destruct (nullable r1) eqn:E; inv_lang; auto using lang_cons_seq.
    apply nullable_lang in E.
    change (String c s) with (EmptyString ++ String c s)%string. auto.
  - inv_lang; auto.
  - inv_lang. auto using lang_cons_star.
Qed.

Lemma deriv_complete (r : re) (w : string) :
  lang r w -> forall c s, w = String c s -> lang (deriv c r) s.
Proof.
  induction 1 as [ | p a Hp | r1 r2 s1 s2 H1 IH1 H2 IH2 | r1 r2 s0 H1 IH1
                 | r1 r2 s0 H1 IH1 | r0 | r0 s1 s2 H1 IH1 H2 IH2 ];
    intros c s E; cbn.
  - discriminate.
  - injection E as -> <-. rewrite Hp. auto.
  - destruct s1 as [|a s1']; cbn in E.
    + subst s2. apply nullable_lang in H1 as Hn. rewrite Hn. eauto.
    + injection E as -> <-.
      destruct (nullable r1); eauto.
  - eauto.
  - eauto.
  - discriminate.
  - destruct s1 as [|a s1']; cbn in E.
    + eauto.
    + injection E as -> <-. eauto.
Qed.

Theorem test_lang (s : string) : forall r, test r s = true <-> lang r s.
Proof.
  induction s as [|c s IH]; intros r; cbn.
  - apply nullable_lang.
  - rewrite IH. split.
    + apply deriv_sound.
    + intros H. eapply deriv_complete; eauto.
Qed.

(** *** Languages of the builders *)

Lemma lang_lit (w s : string) : lang (lit w) s <-> s = w.
Proof.
  revert s. induction w as [|c w IH]; intros s; cbn.
  - split; [intros H; inv_lang; auto | intros ->; auto].
  - split.
    + intros H. inv_lang.
      match goal with E : Ascii.eqb _ _ = true |- _ =>
        apply Ascii.eqb_eq in E as -> end.
      match goal with L : lang (lit w) _ |- _ => apply IH in L as -> end.
      reflexivity.
    + intros ->. cons_app c w.
      constructor; [constructor; apply Ascii.eqb_refl | now apply IH].
Qed.

Lemma lang_times_class (p : ascii -> bool) (n : nat) (s : string) :
  lang (times n (Class p)) s <-> String.length s = n /\ all p s = true.
Proof.
  revert s. induction n as [|n IH]; intros s; cbn.
  - split.
    + intros H; inv_lang; auto.
    + intros [H _]. destruct s; [auto | discriminate].
  - split.
    + intros H. inv_lang. cbn.
      match goal with L : lang (times n _) _ |- _ =>
        apply IH in L as [<- ->] end.
      match goal with E : p _ = true |- _ => rewrite E end. auto.
    + intros [Hl Ha]. destruct s as [|c s]; [discriminate|].
      cbn in Hl, Ha. apply andb_true_iff in Ha as [Hc Ha].
      cons_app c s.
      constructor; [auto | apply IH; split; congruence].
Qed.

Lemma lang_star_class (p : ascii -> bool) (s : string) :
  lang (Star (Class p)) s <-> all p s = true.
Proof.
  split.
  - remember (Star (Class p)) as r eqn:Er.
    induction 1 as [ | | | | | r0 | r0 s1 s2 H1 IH1 H2 IH2 ];
      try discriminate; auto.
    injection Er as ->. inv_lang. cbn.
    match goal with E : p _ = true |- _ => rewrite E end.
    rewrite IH2; auto.
  - induction s as [|c s IH]; cbn; intros H; auto.
    apply andb_true_iff in H as [Hc Ha].
    cons_app c s. auto.
Qed.

Lemma all_app (p : ascii -> bool) (s1 s2 : string) :
  all p (s1 ++ s2) = all p s1 && all p s2.
Proof.
  induction s1 as [|c s1 IH]; cbn; [auto | rewrite IH; apply andb_assoc].
Qed.

Lemma length_app (s1 s2 : string) :
  String.length (s1 ++ s2) = String.length s1 + String.length s2.
Proof. induction s1; cbn; auto. Qed.

Lemma split_at (n : nat) (s : string) :
  n <= String.length s ->
  exists s1 s2, s = (s1 ++ s2)%string /\ String.length s1 = n.
Proof.
  revert s. induction n as [|n IH]; intros s H.
  - exists EmptyString, s. auto.
  - destruct s as [|c s]; cbn in H; [lia|].
    destruct (IH s ltac:(lia)) as (s1 & s2 & -> & Hl).
    exists (String c s1), s2. cbn. auto.
Qed.

Lemma lang_alt (r1 r2 : re) (s : string) :
  lang (Alt r1 r2) s <-> lang r1 s \/ lang r2 s.
Proof. split; [intros H; inv_lang; auto | intros [H|H]; auto]. Qed.

Lemma lang_at_least_class (p : ascii -> bool) (n : nat) (s : string) :
  lang (at_least n (Class p)) s <-> n <= String.length s /\ all p s = true.
Proof.
  unfold at_least. split.
  - intros H. inversion H as [ | | r1 r2 s1 s2 H1 H2 | | | | ]; subst.
    apply lang_times_class in H1 as [Hl Ha].
    apply lang_star_class in H2.
    rewrite length_app, all_app, Ha, H2. split; [lia | auto].
  - intros [Hl Ha].
    destruct (split_at Hl) as (s1 & s2 & -> & Hl1).
    rewrite all_app in Ha. apply andb_true_iff in Ha as [Ha1 Ha2].
    constructor; [apply lang_times_class | apply lang_star_class]; auto.
Qed.

End RegexFacts.

(* ====================================================================== *)
(** ** Properties of CID validation and download *)
(* ====================================================================== *)

Module SynapseFacts.

Import Regex RegexFacts Synapse.

Lemma base58_class_alphabet (c : ascii) :
  base58_class c = mem c base58_alphabet.
Proof. destruct c as [[] [] [] [] [] [] [] []]; reflexivity. Qed.

Lemma base32_class_alphabet (c : ascii) :
  base32_class c = mem c base32_alphabet.
Proof. destruct c as [[] [] [] [] [] [] [] []]; reflexivity. Qed.

Lemma all_ext (p q : ascii -> bool) (s : string) :
  (forall c, p c = q c) -> all p s = all q s.
Proof. intros E. induction s as [|c s IH]; cbn; [auto | now rewrite E, IH]. Qed.

Lemma lang_prefixed (w : string) (r : re) (s : string) :
  lang (Seq (lit w) r) s <-> exists rest, s = w ++ rest /\ lang r rest.
Proof.
  split.
  - intros H. inversion H as [ | | r1 r2 s1 s2 H1 H2 | | | | ]; subst.
    apply lang_lit in H1 as ->. eauto.
  - intros (rest & -> & H). constructor; [now apply lang_lit | auto].
Qed.

Lemma isValidCid_shapes (s : string) :
  isValidCid s = true <-> CIDv0_shape s \/ CIDv1_shape s.
Proof.
  unfold isValidCid, cid_pattern, CIDv0_shape, CIDv1_shape, chars_of.
  rewrite test_lang, lang_alt, !lang_prefixed.
  split; (intros [(rest & E & H) | (rest & E & H)]; [left | right]);
    exists rest; (split; [exact E|]).
  - apply lang_times_class in H.
    now rewrite <- (all_ext rest base58_class_alphabet).
  - apply lang_at_least_class in H.
    now rewrite <- (all_ext rest base32_class_alphabet).
  - apply lang_times_class.
    now rewrite (all_ext rest base58_class_alphabet).
  - apply lang_at_least_class.
    now rewrite (all_ext rest base32_class_alphabet).
Qed.

(** The assertions of the repository's own test of [isValidCid]. *)
Example isValidCid_v0 :
  isValidCid "QmYwAPJzv5CZsnAzt8auqD9BKKy1CjV5v8wRWGW4Y8Y1zT" = true.
Proof. vm_compute. reflexivity. Qed.

Example isValidCid_v1 :
  isValidCid "bafybeigdyrzt5sfp7udm7hu76uh7y26nf3efuylqabf3oclgtqy55fbzdi" = true.
Proof. vm_compute. reflexivity. Qed.

Example isValidCid_rejects :
  map isValidCid ["invalid"; ""; "Qm"; "bafy"] = [false; false; false; false].
Proof. vm_compute. reflexivity. Qed.

(** C10, counterexample.  The call of the repository's own test,
    [download({cid: 'test', outputPath: '/tmp/test.mp4'})] on a wrapper that
    is not connected, has a rejected cid and fails with
    [Synapse not connected], not with an invalid-format error. *)
Lemma download_rejected_cid_not_connected :
  ~ rejected_cid_always_invalid_format.
Proof.
  intros H.
  specialize (H offline false
                {| cid := Some "test"; outputPath := Some "/tmp/test.mp4" |}
                "test" eq_refl eq_refl).
  discriminate H.
Qed.

(** The same happens on a connected wrapper when the cid is the empty
    string: the missing-parameter guard comes first. *)
Example download_empty_cid :
  download offline true {| cid := Some ""; outputPath := Some "/tmp/out" |}
  = ([], Throw (ThrowError "Missing required parameter: cid")).
Proof. reflexivity. Qed.

(** C10, amended.  [isValidCid s] is true exactly when [s] has the CIDv0
    shape ([Qm] and exactly 44 base58 characters) or the CIDv1 shape ([baf]
    and 55 or more base32 characters).  A download whose trimmed cid is not
    accepted contacts no gateway and writes no file, and fails: with
    [Synapse not connected] on a wrapper that is not connected, else with
    the missing-parameter error when the cid is empty or the output path is
    absent or empty, and with [Invalid CID format: <trimmed cid>] in every
    other case. *)
Theorem isValidCid_shapes_and_download_gate
  (io : Platform) (s : string) (connected : bool) (params : DownloadParams)
  (c : string) :
  cid params = Some c ->
  isValidCid (trim c) = false ->
  (isValidCid s = true <-> CIDv0_shape s \/ CIDv1_shape s)
  /\ fst (download io connected params) = []
  /\ snd (download io connected params)
     = Throw (ThrowError
         (if negb connected then "Synapse not connected"
          else if String.eqb c "" then "Missing required parameter: cid"
          else match outputPath params with
               | None | Some EmptyString =>
                   "Missing required parameter: outputPath"
               | Some _ => "Invalid CID format: " ++ trim c
               end)).
Proof.
  intros Hc Hbad. split; [apply isValidCid_shapes|].
  unfold download. rewrite Hc.
  destruct connected; cbn [negb]; [|auto].
  destruct c as [|a c']; [auto|].
  cbn [String.eqb].
  destruct (outputPath params) as [[|b o]|]; auto.
  rewrite Hbad. auto.
Qed.

(** A connected wrapper and a cid that is no CID. *)
Lemma isValidCid_shapes_and_download_gate_witness :
  (isValidCid "Qm" = true <-> CIDv0_shape "Qm" \/ CIDv1_shape "Qm")
  /\ fst (download offline true
            {| cid := Some " not-a-cid "; outputPath := Some "/tmp/out" |}) = []
  /\ snd (download offline true
            {| cid := Some " not-a-cid "; outputPath := Some "/tmp/out" |})
     = Throw (ThrowError "Invalid CID format: not-a-cid").
Proof.
  exact (@isValidCid_shapes_and_download_gate offline "Qm" true
           {| cid := Some " not-a-cid "; outputPath := Some "/tmp/out" |}
           " not-a-cid " eq_refl eq_refl).
Defined.

(** An accepted cid does reach the gateways, in their listed order. *)
Example download_valid_cid_contacts_gateways :
  fst (download offline true
         {| cid := Some "QmYwAPJzv5CZsnAzt8auqD9BKKy1CjV5v8wRWGW4Y8Y1zT";
            outputPath := Some "/tmp/out" |})
  = map Fetch (gateways "QmYwAPJzv5CZsnAzt8auqD9BKKy1CjV5v8wRWGW4Y8Y1zT").
Proof. vm_compute. reflexivity. Qed.

End SynapseFacts.

(* ====================================================================== *)
(** ** Properties of the hybrid encryption module *)
(* ====================================================================== *)

Module HybridCryptoFacts.

Import Base64 Base64Facts HybridCrypto.

Section WithPlatform.
Variable pf : Platform.

Local Abbreviation Globals := (Globals pf).
Local Abbreviation Sys := (Sys pf).

(** *** Single flight *)

Lemma call_idle (g : Globals) :
  litClient pf g = None -> initPromise pf g = None ->
  initLitClient_call pf g
  = (Pending pf (created pf g),
     {| litClient := litClient pf g; authManager := authManager pf g;
        initPromise := Some (created pf g); created := S (created pf g);
        drawn := drawn pf g |}).
Proof. intros Hc Hp. unfold initLitClient_call. now rewrite Hc, Hp. Qed.

Lemma call_pending (g : Globals) (p : nat) :
  litClient pf g = None -> initPromise pf g = Some p ->
  initLitClient_call pf g = (Pending pf p, g).
Proof. intros Hc Hp. unfold initLitClient_call. now rewrite Hc, Hp. Qed.

Lemma call_ready (g : Globals) (c : Client pf) (a : AuthManager pf) :
  litClient pf g = Some c -> authManager pf g = Some a ->
  initLitClient_call pf g = (Existing pf c, g).
Proof. intros Hc Ha. unfold initLitClient_call. now rewrite Hc, Ha. Qed.

Lemma phase_call (s : Sys) : phase pf s -> phase pf (sys_call pf s).
Proof.
  intros [Hc Ha Hp Hi | p Hc Ha Hp Hi | c a Hc Ha Hp Hi]; unfold sys_call.
  - rewrite (call_idle Hc Hp). cbn [created].
    replace (Nat.eqb (S (created pf (globals pf s))) (created pf (globals pf s)))
      with false by (symmetry; apply Nat.eqb_neq; lia).
    apply InFlight with (p := created pf (globals pf s)); cbn; congruence.
  - rewrite (call_pending Hc Hp), Nat.eqb_refl.
    apply InFlight with (p := p); cbn; congruence.
  - rewrite (call_ready Hc Ha), Nat.eqb_refl.
    apply Ready with (c := c) (a := a); cbn; congruence.
Qed.

Lemma phase_settle (s : Sys) (p : nat) (oc : completion (Client pf))
      (oa : completion (AuthManager pf)) :
  phase pf s -> In p (inflight pf s) -> phase pf (sys_settle pf p oc oa s).
Proof.
  intros [Hc Ha Hp Hi | q Hc Ha Hp Hi | c a Hc Ha Hp Hi] Hin;
    rewrite Hi in Hin; cbn in Hin; try contradiction.
  destruct Hin as [<- | []].
  assert (Hrm : List.remove Nat.eq_dec q (inflight pf s) = []).
  { rewrite Hi. cbn. now destruct (Nat.eq_dec q q). }
  unfold sys_settle, init_settle.
  destruct oc as [c|t]; [destruct oa as [a|t]|].
  - apply Ready with (c := c) (a := a); cbn; auto.
  - apply Idle; cbn; auto.
  - apply Idle; cbn; auto.
Qed.

Lemma reachable_phase (s : Sys) : reachable pf s -> phase pf s.
Proof.
  induction 1 as [ | s _ IH | s p oc oa _ IH Hin ].
  - apply Idle; reflexivity.
  - now apply phase_call.
  - now apply phase_settle.
Qed.

(** C9.  In every state that calls of [initLitClient] and settlements of
    [createLitClient] can lead to: at most one initialisation is in flight;
    a call made while the client and the auth manager are set returns that
    client and changes nothing; a call made while an initialisation is in
    flight returns the promise of that initialisation and changes nothing;
    and a call runs [createLitClient] only when no client is set and
    nothing is in flight. *)
Theorem initLitClient_single_flight (s : Sys) :
  reachable pf s ->
  List.length (inflight pf s) <= 1
  /\ (forall c a,
         litClient pf (globals pf s) = Some c ->
         authManager pf (globals pf s) = Some a ->
         initLitClient_call pf (globals pf s) = (Existing pf c, globals pf s)
         /\ sys_call pf s = s)
  /\ (forall p,
         In p (inflight pf s) ->
         initLitClient_call pf (globals pf s) = (Pending pf p, globals pf s)
         /\ sys_call pf s = s)
  /\ (created pf (globals pf (sys_call pf s)) <> created pf (globals pf s) ->
      litClient pf (globals pf s) = None /\ inflight pf s = []).
Proof.
  intros Hr. apply reachable_phase in Hr.
  destruct s as [g fl]. cbn [globals inflight] in *.
  assert (Hsame : forall r, initLitClient_call pf g = (r, g) ->
                            sys_call pf {| globals := g; inflight := fl |}
                            = {| globals := g; inflight := fl |}).
  { intros r E. unfold sys_call. cbn [globals inflight]. rewrite E.
    now rewrite Nat.eqb_refl. }
  assert (Hcount : forall r, initLitClient_call pf g = (r, g) ->
                             created pf (globals pf (sys_call pf
                               {| globals := g; inflight := fl |}))
                             = created pf g).
  { intros r E. now rewrite (Hsame r E). }
  destruct Hr as [Hc Ha Hp Hi | p Hc Ha Hp Hi | c a Hc Ha Hp Hi];
    cbn [globals inflight] in *; subst fl.
  - split; [cbn; lia|]. split; [|split].
    + intros c a Hc'. congruence.
    + intros p [].
    + auto.
  - pose proof (call_pending Hc Hp) as E.
    split; [cbn; lia|]. split; [|split].
    + intros c a Hc'. congruence.
    + intros q [<- | []]. eauto.
    + intros Hne. exfalso. apply Hne. eauto.
  - pose proof (call_ready Hc Ha) as E.
    split; [cbn; lia|]. split; [|split].
    + intros c' a' Hc' _. rewrite Hc in Hc'. injection Hc' as <-. eauto.
    + intros p [].
    + intros Hne. exfalso. apply Hne. eauto.
Qed.

(** *** Failed initialisation *)

Lemma init_settle_failure (oc : completion (Client pf))
      (oa : completion (AuthManager pf)) (g g' : Globals) (t : thrown) :
  init_settle pf oc oa g = (Throw t, g') ->
  litClient pf g' = None /\ authManager pf g' = None
  /\ initPromise pf g' = None.
Proof.
  unfold init_settle.
  destruct oc as [c|t1]; [destruct oa as [a|t2]|]; intros [= <- <-]; auto.
Qed.

Lemma init_settle_success (oc : completion (Client pf))
      (oa : completion (AuthManager pf)) (g g' : Globals) (c : Client pf) :
  init_settle pf oc oa g = (Return c, g') ->
  litClient pf g' = Some c /\ (exists a, authManager pf g' = Some a)
  /\ initPromise pf g' = None /\ drawn pf g' = drawn pf g.
Proof.
  unfold init_settle.
  destruct oc as [c1|t1]; [destruct oa as [a|t2]|]; intros [= <- <-];
    cbn; eauto.
Qed.

Lemma await_failure (g g' : Globals) (t : thrown) :
  initLitClient_await pf g = (Throw t, g') ->
  litClient pf g' = None /\ authManager pf g' = None
  /\ initPromise pf g' = None.
Proof.
  unfold initLitClient_await.
  destruct (initLitClient_call pf g) as [[c|p] g1]; [discriminate|].
  apply init_settle_failure.
Qed.

Lemma await_success (g g' : Globals) (c : Client pf) :
  initLitClient_await pf g = (Return c, g') ->
  litClient pf g' = Some c /\ exists a, authManager pf g' = Some a.
Proof.
  unfold initLitClient_await, initLitClient_call.
  destruct (litClient pf g) as [c0|] eqn:Hc;
    [destruct (authManager pf g) as [a0|] eqn:Ha|].
  - intros [= <- <-]. eauto.
  - destruct (initPromise pf g); intros E;
      apply init_settle_success in E; destruct E as (? & ? & _); auto.
  - destruct (initPromise pf g); intros E;
      apply init_settle_success in E; destruct E as (? & ? & _); auto.
Qed.

Lemma await_ready (g : Globals) (c : Client pf) (a : AuthManager pf) :
  litClient pf g = Some c -> authManager pf g = Some a ->
  initLitClient_await pf g = (Return c, g).
Proof.
  intros Hc Ha. unfold initLitClient_await. now rewrite (call_ready Hc Ha).
Qed.

(** *** One encrypt call, step by step *)

(** Every way [hybridEncryptFile] can go.  The key buffer is zeroed on the
    last line only; every earlier exit leaves with the key in it. *)
Lemma hybridEncryptFile_run (P : list byte) (privateKey : string)
      (chain_arg : option string) (g : Globals) :
  hybridEncryptFile pf P privateKey chain_arg (enter pf g)
  = let chain := match chain_arg with Some c => c | None => "ethereum" end in
    let key := drawn_key pf g in
    let g1 := with_drawn pf (with_drawn pf g AES_KEY_SIZE) AES_IV_SIZE in
    match aesEncrypt pf P key (drawn_iv pf g) with
    | Throw t => (Throw t, {| module_ := g1; aesKey := Some key |})
    | Return sealed =>
        match initLitClient_await pf g1 with
        | (Throw t, g2) => (Throw t, {| module_ := g2; aesKey := Some key |})
        | (Return client, g2) =>
            match getWalletAddressFromPrivateKey pf privateKey with
            | Throw t => (Throw t, {| module_ := g2; aesKey := Some key |})
            | Return walletAddress =>
                match client_encrypt pf client key
                        (toUnifiedAccessControlConditions
                           (createOwnerOnlyAccessControlConditions
                              walletAddress)) chain with
                | Throw t =>
                    (Throw t, {| module_ := g2; aesKey := Some key |})
                | Return litResult =>
                    (Return {| encryptedFile := sealed;
                               metadata := metadata_of pf P g walletAddress
                                             chain litResult |},
                     {| module_ := g2; aesKey := Some (fill0 key) |})
                end
            end
        end
    end.
Proof.
  unfold hybridEncryptFile, mbind, generateAESKey, generateIV, getRandomValues,
    bind_aesKey, read_aesKey, lift, enter, initLitClient, aesKey_fill0, ret.
  cbn [module_ aesKey litClient authManager initPromise created drawn].
  fold (drawn_key pf g) (drawn_iv pf g).
  fold (with_drawn pf g AES_KEY_SIZE).
  fold (with_drawn pf (with_drawn pf g AES_KEY_SIZE) AES_IV_SIZE).
  destruct (aesEncrypt pf P (drawn_key pf g) (drawn_iv pf g)) as [sealed|t];
    [|reflexivity].
  destruct (initLitClient_await pf _) as [[client|t] g2]; [|reflexivity].
  cbn [module_ aesKey].
  destruct (getWalletAddressFromPrivateKey pf privateKey) as [wa|t];
    [|reflexivity].
  destruct (client_encrypt pf client _ _ _) as [litResult|t]; reflexivity.
Qed.

(** Every way [hybridDecryptFile] can go.  There is no key buffer before
    the network has answered; from then on the [finally] zeroes it. *)
Lemma hybridDecryptFile_run (sealed : list byte)
      (metadata : HybridEncryptionMetadata) (privateKey : string)
      (g : Globals) :
  hybridDecryptFile pf sealed metadata privateKey (enter pf g)
  = if negb (String.eqb (version metadata) "hybrid-v1") then
      (Throw (ThrowError ("Unsupported encryption version: "
                          ++ version metadata ++ ". "
                          ++ "Only hybrid-v1 is supported.")), enter pf g)
    else
      match initLitClient_await pf g with
      | (Throw t, g1) => (Throw t, enter pf g1)
      | (Return client, g1) =>
          match getAuthContext_in pf g1 privateKey with
          | Throw t => (Throw t, enter pf g1)
          | Return authContext =>
              match client_decrypt pf client (encryptedKey metadata)
                      (keyHash metadata)
                      (toUnifiedAccessControlConditions
                         (accessControlConditions metadata))
                      authContext (chain metadata) with
              | Throw t => (Throw t, enter pf g1)
              | Return key =>
                  (open_locally pf sealed metadata key,
                   {| module_ := g1; aesKey := Some (fill0 key) |})
              end
          end
      end.
Proof.
  unfold hybridDecryptFile.
  destruct (negb (String.eqb (version metadata) "hybrid-v1")); [reflexivity|].
  unfold mbind at 1. unfold initLitClient, enter. cbn [module_ aesKey].
  destruct (initLitClient_await pf g) as [[client|t] g1]; [|reflexivity].
  unfold mbind at 1. unfold getAuthContext. cbn [module_ aesKey].
  destruct (getAuthContext_in pf g1 privateKey) as [ctx|t]; [|reflexivity].
  unfold mbind at 1. unfold lift at 1.
  destruct (client_decrypt pf client _ _ _ ctx _) as [key|t]; [|reflexivity].
  unfold mbind at 1. unfold bind_aesKey. cbn [module_ aesKey].
  unfold try_finally, open_locally, mbind, lift, read_aesKey, aesKey_fill0, ret.
  cbn [module_ aesKey].
  destruct (base64ToArrayBuffer (iv metadata)) as [ivb|t]; [|reflexivity].
  cbn [Js.bind].
  destruct (aesDecrypt pf sealed key ivb) as [data|t]; [|reflexivity].
  cbn [Js.bind].
  destruct (check_originalHash pf metadata data) as [[]|t]; reflexivity.
Qed.

Lemma fill0_all_zero (buffer : list byte) :
  Forall (fun b => b = Byte.x00) (fill0 buffer).
Proof. unfold fill0. induction buffer; cbn; auto. Qed.

(** [hybridDecryptFile] leaves no key behind, however it ends. *)
Lemma hybridDecryptFile_zeroes_key (sealed : list byte)
      (metadata : HybridEncryptionMetadata) (privateKey : string)
      (g : Globals) :
  key_zeroed pf
    (snd (hybridDecryptFile pf sealed metadata privateKey (enter pf g))).
Proof.
  rewrite hybridDecryptFile_run. unfold key_zeroed.
  destruct (negb _); [exact I|].
  destruct (initLitClient_await pf g) as [[client|t] g1]; [|exact I].
  destruct (getAuthContext_in pf g1 privateKey); [|exact I].
  destruct (client_decrypt pf client _ _ _ _ _); [|exact I].
  cbn. apply fill0_all_zero.
Qed.

(** [hybridEncryptFile] zeroes the key when it returns ... *)
Lemma hybridEncryptFile_success_zeroes_key (P : list byte)
      (privateKey : string) (chain_arg : option string) (g : Globals)
      (r : HybridEncryptionResult) (fr : Frame pf) :
  hybridEncryptFile pf P privateKey chain_arg (enter pf g) = (Return r, fr) ->
  aesKey pf fr = Some (fill0 (drawn_key pf g)).
Proof.
  rewrite hybridEncryptFile_run. cbv zeta.
  destruct (aesEncrypt pf P _ _); [|discriminate].
  destruct (initLitClient_await pf _) as [[client|t] g2]; [|discriminate].
  destruct (getWalletAddressFromPrivateKey pf privateKey); [|discriminate].
  destruct (client_encrypt pf client _ _ _); [|discriminate].
  now intros [= _ <-].
Qed.

(** ... and leaves it as it was whenever it throws. *)
Lemma hybridEncryptFile_failure_keeps_key (P : list byte)
      (privateKey : string) (chain_arg : option string) (g : Globals)
      (t : thrown) (fr : Frame pf) :
  hybridEncryptFile pf P privateKey chain_arg (enter pf g) = (Throw t, fr) ->
  aesKey pf fr = Some (drawn_key pf g).
Proof.
  rewrite hybridEncryptFile_run. cbv zeta.
  destruct (aesEncrypt pf P _ _); [|now intros [= _ <-]].
  destruct (initLitClient_await pf _) as [[client|t'] g2];
    [|now intros [= _ <-]].
  destruct (getWalletAddressFromPrivateKey pf privateKey);
    [|now intros [= _ <-]].
  destruct (client_encrypt pf client _ _ _); [discriminate|].
  now intros [= _ <-].
Qed.

(** *** Round trip *)

Lemma check_originalHash_of_plaintext (P : list byte) (g : Globals)
      (walletAddress chain : string) (litResult : LitEncryptResponse) :
  check_originalHash pf (metadata_of pf P g walletAddress chain litResult) P
  = Return tt.
Proof.
  unfold check_originalHash, metadata_of. cbn [originalHash].
  destruct (string_truthy _); [|reflexivity].
  now rewrite String.eqb_refl.
Qed.

(** C1.  Let [hybridEncryptFile] return on a plaintext [P]: the sealed file
    and its metadata, whose policy is the owner-only condition of the
    wallet (never empty).  Let AES-GCM be correct, and let the caller of
    [hybridDecryptFile] satisfy the policy: its key yields an account, the
    auth manager an auth context for it, and the client's decrypt returns
    the bytes of the key that was wrapped.  Then [hybridDecryptFile] on the
    sealed file and that metadata returns exactly [P], and the
    [originalHash] check on the way passes.  The key that was used has 32
    bytes and the IV, which the metadata carries in base64, 12. *)
Theorem hybrid_round_trip
        (P : list byte) (privateKey privateKey' : string)
        (chain_arg : option string) (g : Globals)
        (r : HybridEncryptionResult) (fr : Frame pf)
        (account : Account pf) :
  AEAD_correct pf ->
  hybridEncryptFile pf P privateKey chain_arg (enter pf g) = (Return r, fr) ->
  createViemAccount pf privateKey' = Return account ->
  (forall c a,
      litClient pf (module_ pf fr) = Some c ->
      authManager pf (module_ pf fr) = Some a ->
      exists authContext,
        createEoaAuthContext pf a account c = Return authContext
        /\ client_decrypt pf c (encryptedKey (metadata r))
             (keyHash (metadata r))
             (toUnifiedAccessControlConditions
                (accessControlConditions (metadata r)))
             authContext (chain (metadata r))
           = Return (drawn_key pf g)) ->
  fst (hybridDecryptFile pf (encryptedFile r) (metadata r) privateKey'
         (enter pf (module_ pf fr)))
  = Return P
  /\ originalHash (metadata r) = Some (sha256Hash pf P)
  /\ check_originalHash pf (metadata r) P = Return tt
  /\ accessControlConditions (metadata r) <> []
  /\ List.length (drawn_key pf g) = 32
  /\ base64ToArrayBuffer (iv (metadata r)) = Return (drawn_iv pf g)
  /\ List.length (drawn_iv pf g) = 12.
Proof.
  intros Haead Henc Hacct Hid.
  rewrite hybridEncryptFile_run in Henc. cbv zeta in Henc.
  destruct (aesEncrypt pf P _ _) as [sealed|] eqn:Hseal; [|discriminate].
  destruct (initLitClient_await pf _) as [[client|] g2] eqn:Hinit;
    [|discriminate].
  destruct (getWalletAddressFromPrivateKey pf privateKey) as [wa|];
    [|discriminate].
  destruct (client_encrypt pf client _ _ _) as [litResult|]; [|discriminate].
  injection Henc as <- <-. cbn [module_ encryptedFile metadata] in *.
  apply await_success in Hinit as (Hc & a & Ha).
  destruct (Hid client a Hc Ha) as (ctx & Hctx & Hunwrap).
  split; [|split; [reflexivity|split; [|split; [|split; [|split; [|]]]]]].
  - rewrite hybridDecryptFile_run.
    match goal with
    | |- context [metadata_of pf P g wa ?ch litResult] =>
        set (md := metadata_of pf P g wa ch litResult) in *
    end.
    change (version md) with "hybrid-v1".
    change (negb (String.eqb "hybrid-v1" "hybrid-v1")) with false. cbv iota.
    rewrite (await_ready Hc Ha).
    unfold getAuthContext_in. rewrite Hc, Ha, Hacct. cbn [Js.bind].
    rewrite Hctx, Hunwrap. cbn [fst].
    unfold open_locally.
    change (iv md) with (arrayBufferToBase64 (drawn_iv pf g)).
    rewrite base64_roundtrip. cbn [Js.bind].
    unfold aesEncrypt in Hseal. unfold aesDecrypt.
    destruct (importKey pf (drawn_key pf g)) as [key|] eqn:Hkey;
      [|discriminate].
    cbn [Js.bind] in *.
    rewrite (Haead _ _ _ _ _ Hkey Hseal).
    unfold md. cbn [Js.bind]. now rewrite check_originalHash_of_plaintext.
  - apply check_originalHash_of_plaintext.
  - discriminate.
  - unfold drawn_key. now rewrite length_map, length_seq.
  - apply base64_roundtrip.
  - unfold drawn_iv. now rewrite length_map, length_seq.
Qed.

(** *** Decoding metadata *)

Lemma get_field (parsed : JSON) (name : string) :
  parsed <> JNull -> get parsed name = Return (field parsed name).
Proof. destruct parsed; intros H; try reflexivity. now destruct H. Qed.

(** C4, amended.  For a text that parses to anything but [null], decoding
    first compares the version: unless [version] is the string [hybrid-v1]
    it fails with the unsupported-version error, whatever else is missing.
    Otherwise it fails with the missing-fields error when one of
    [encryptedKey], [keyHash], [iv] is absent or falsy (an empty string,
    [null], [false], 0), and in every other case it returns the parsed
    value itself, unknown fields included. *)
Theorem deserializeHybridMetadata_checks (text : string) (parsed : JSON) :
  JSON_parse pf text = Return parsed ->
  parsed <> JNull ->
  deserializeHybridMetadata pf text
  = if negb (is_hybrid_v1 (field parsed "version")) then
      Throw (unsupported_version (field parsed "version"))
    else if truthy (field parsed "encryptedKey")
            && truthy (field parsed "keyHash") && truthy (field parsed "iv")
    then Return parsed
    else Throw missing_fields.
Proof.
  intros Hp Hn. unfold deserializeHybridMetadata. rewrite Hp. cbn [Js.bind].
  rewrite !(get_field _ Hn). cbn [Js.bind].
  destruct (negb (is_hybrid_v1 _)); [reflexivity|].
  destruct (truthy (field parsed "encryptedKey")),
    (truthy (field parsed "keyHash")), (truthy (field parsed "iv"));
    reflexivity.
Qed.

End WithPlatform.

(** *** On the small platform *)

Lemma toy_AEAD_correct : AEAD_correct Toy.online.
Proof.
  intros raw ivb data sealed key _ Hseal. cbn in *.
  injection Hseal as <-. unfold Toy.open.
  rewrite firstn_app, firstn_all, Nat.sub_diag, app_nil_r.
  rewrite skipn_app, skipn_all, Nat.sub_diag. cbn [skipn app].
  replace (Toy.bytes_eqb key key) with true; [reflexivity|].
  clear. induction key as [|b key IH]; cbn; [reflexivity|].
  rewrite <- IH, andb_true_r. symmetry. now apply Byte.byte_dec_lb.
Qed.

(** The round trip of [Hello, Haven!] with the network up. *)
Lemma hybrid_round_trip_witness :
  fst (hybridDecryptFile Toy.online (encryptedFile (fst Toy.hello_sealed))
         (metadata (fst Toy.hello_sealed)) Toy.TEST_PRIVATE_KEY
         (enter Toy.online (module_ Toy.online (snd Toy.hello_sealed))))
  = Return Toy.hello
  /\ originalHash (metadata (fst Toy.hello_sealed))
     = Some (sha256Hash Toy.online Toy.hello)
  /\ check_originalHash Toy.online (metadata (fst Toy.hello_sealed)) Toy.hello
     = Return tt
  /\ accessControlConditions (metadata (fst Toy.hello_sealed)) <> []
  /\ List.length (drawn_key Toy.online (initial Toy.online)) = 32
  /\ base64ToArrayBuffer (iv (metadata (fst Toy.hello_sealed)))
     = Return (drawn_iv Toy.online (initial Toy.online))
  /\ List.length (drawn_iv Toy.online (initial Toy.online)) = 12.
Proof.
  apply (@hybrid_round_trip Toy.online Toy.hello Toy.TEST_PRIVATE_KEY
           Toy.TEST_PRIVATE_KEY None (initial Toy.online)
           (fst Toy.hello_sealed) (snd Toy.hello_sealed) tt).
  - exact toy_AEAD_correct.
  - vm_compute. reflexivity.
  - vm_compute. reflexivity.
  - intros c a _ _. exists tt. split; vm_compute; reflexivity.
Defined.

(** A complete metadata text decodes to its parsed value. *)
Lemma deserializeHybridMetadata_checks_witness :
  deserializeHybridMetadata Toy.online (Toy.metadata_text "d3JhcHBlZA==")
  = Return (Toy.metadata_value "d3JhcHBlZA==").
Proof.
  apply (@deserializeHybridMetadata_checks Toy.online
           (Toy.metadata_text "d3JhcHBlZA==")
           (Toy.metadata_value "d3JhcHBlZA==")).
  - vm_compute. reflexivity.
  - discriminate.
Defined.

(** C4, counterexample.  In
    [{"version":"hybrid-v1","encryptedKey":"","keyHash":"abc","iv":"AAAA"}]
    no required field is absent and the version is the supported one, yet
    decoding fails: the empty wrapped key counts as missing. *)
Lemma decode_rejects_empty_wrapped_key : ~ decode_as_specified Toy.online.
Proof.
  intros H.
  destruct (H (Toy.metadata_text "") (Toy.metadata_value "") eq_refl)
    as (_ & _ & Hok).
  specialize (Hok ltac:(discriminate) ltac:(discriminate) ltac:(discriminate)
                  eq_refl).
  vm_compute in Hok. discriminate Hok.
Qed.

(** C2 at a failing input.  The network accepts the connection and then
    fails the key-wrapping call: [hybridEncryptFile] throws and the key
    buffer still holds the 32 key bytes, none of them zeroed. *)
Theorem hybridEncryptFile_wrap_failure_leaves_key :
  fst (hybridEncryptFile Toy.wrap_down Toy.hello Toy.TEST_PRIVATE_KEY None
         (enter Toy.wrap_down (initial Toy.wrap_down)))
  = Throw (ThrowError "network request failed")
  /\ aesKey Toy.wrap_down
       (snd (hybridEncryptFile Toy.wrap_down Toy.hello Toy.TEST_PRIVATE_KEY
               None (enter Toy.wrap_down (initial Toy.wrap_down))))
     = Some (drawn_key Toy.wrap_down (initial Toy.wrap_down))
  /\ ~ key_zeroed Toy.wrap_down
         (snd (hybridEncryptFile Toy.wrap_down Toy.hello Toy.TEST_PRIVATE_KEY
                 None (enter Toy.wrap_down (initial Toy.wrap_down)))).
Proof.
  split; [vm_compute; reflexivity|]. split; [vm_compute; reflexivity|].
  intros H. vm_compute in H. inversion H as [|b l Hb _]. discriminate Hb.
Qed.

(** The state with one initialisation in flight. *)
Lemma initLitClient_single_flight_witness :
  List.length (inflight Toy.online (sys_call Toy.online (sys_initial Toy.online)))
  <= 1
  /\ (forall c a,
         litClient Toy.online (globals Toy.online (sys_call Toy.online (sys_initial Toy.online))) = Some c ->
         authManager Toy.online (globals Toy.online (sys_call Toy.online (sys_initial Toy.online))) = Some a ->
         initLitClient_call Toy.online (globals Toy.online (sys_call Toy.online (sys_initial Toy.online)))
         = (Existing Toy.online c, globals Toy.online (sys_call Toy.online (sys_initial Toy.online)))
         /\ sys_call Toy.online (sys_call Toy.online (sys_initial Toy.online))
            = sys_call Toy.online (sys_initial Toy.online))
  /\ (forall p,
         In p (inflight Toy.online (sys_call Toy.online (sys_initial Toy.online))) ->
         initLitClient_call Toy.online (globals Toy.online (sys_call Toy.online (sys_initial Toy.online)))
         = (Pending Toy.online p, globals Toy.online (sys_call Toy.online (sys_initial Toy.online)))
         /\ sys_call Toy.online (sys_call Toy.online (sys_initial Toy.online))
            = sys_call Toy.online (sys_initial Toy.online))
  /\ (created Toy.online (globals Toy.online (sys_call Toy.online (sys_call Toy.online (sys_initial Toy.online))))
      <> created Toy.online (globals Toy.online (sys_call Toy.online (sys_initial Toy.online))) ->
      litClient Toy.online (globals Toy.online (sys_call Toy.online (sys_initial Toy.online))) = None
      /\ inflight Toy.online (sys_call Toy.online (sys_initial Toy.online)) = []).
Proof.
  apply (@initLitClient_single_flight Toy.online
           (sys_call Toy.online (sys_initial Toy.online))).
  apply reach_call, reach_initial.
Defined.

(** Two callers and one settlement: one [createLitClient] call. *)
Example two_callers_one_initialisation :
  let s2 := sys_call Toy.online (sys_call Toy.online (sys_initial Toy.online)) in
  let s3 := sys_settle Toy.online 0 (Return tt) (Return tt) s2 in
  created Toy.online (globals Toy.online s2) = 1
  /\ inflight Toy.online s2 = [0]
  /\ isLitClientConnected Toy.online (globals Toy.online s3) = true
  /\ created Toy.online (globals Toy.online (sys_call Toy.online s3)) = 1.
Proof. vm_compute. auto. Qed.

End HybridCryptoFacts.

(* ====================================================================== *)
(** ** Properties of the Lit wrapper *)
(* ====================================================================== *)

Module LitWrapperFacts.

Import HybridCrypto HybridCryptoFacts LitWrapper.

Section WithPlatform.
Variable pf : Platform.
Variable JSON_stringify : list EvmBasicAccessControlCondition -> string.
Variable now : Z.

Lemma encrypt_with_empty_policy (c : Client pf) (params : EncryptParams) :
  LitWrapperGlobal.empty_policy params ->
  encrypt_with pf JSON_stringify c params
  = ([], Throw (if LitWrapperGlobal.no_data params then missing "data"
                else missing "accessControlConditions")).
Proof.
  intros He. unfold encrypt_with, LitWrapperGlobal.no_data.
  destruct (data params) as [[|ch d]|]; try reflexivity.
  now destruct He as [-> | ->].
Qed.

(** C3, amended.  A call of [encrypt] with an empty or absent policy never
    reaches the network: it makes no adapter call and throws.  The error is
    [Lit Protocol not connected] when the wrapper is not connected (or has
    no client), else the missing-[data] error when [data] is absent or
    empty, and the missing-[accessControlConditions] error in every other
    case.  Both revisions of the wrapper behave so. *)
Theorem empty_policy_rejected_before_network
        (w : Wrapper pf) (g : Globals pf) (params : EncryptParams) :
  LitWrapperGlobal.empty_policy params ->
  LitWrapper.encrypt pf JSON_stringify w g params
  = ([], Throw (match isConnected pf w g, client pf w with
                | true, Some _ =>
                    if LitWrapperGlobal.no_data params then missing "data"
                    else missing "accessControlConditions"
                | _, _ => not_connected
                end))
  /\ LitWrapperGlobal.encrypt pf JSON_stringify g params
     = ([], Throw (if isLitClientConnected pf g
                   then if LitWrapperGlobal.no_data params then missing "data"
                        else missing "accessControlConditions"
                   else not_connected)).
Proof.
  intros He. split.
  - unfold LitWrapper.encrypt.
    destruct (isConnected pf w g); [|reflexivity].
    destruct (client pf w) as [c|]; [|reflexivity].
    now apply encrypt_with_empty_policy.
  - unfold LitWrapperGlobal.encrypt, LitWrapperGlobal.isConnected,
      isLitClientConnected, getLitClient.
    destruct (litClient pf g) as [c|]; [|reflexivity].
    destruct (authManager pf g); [|reflexivity].
    cbn [negb]. now apply encrypt_with_empty_policy.
Qed.

(** What a failed [connect] leaves.  The [catch] block of the wrapper that
    owns its client clears the connected flag, the client and the auth
    manager, so [isConnected] is false whatever the module state; it does
    not touch the network label, the node count and the session expiry,
    which stay as an earlier connection left them.  When [connect] of the
    wrapper on the module state fails, [initLitClient] has failed:
    [litClient], [authManager] and [initPromise] of the module are all
    cleared and [isConnected] is false. *)
Lemma failed_connect_leaves
      (oc : completion (Client pf)) (oa : completion (AuthManager pf))
      (w w' : Wrapper pf) (params : ConnectParams) (t : thrown)
      (wg wg' : LitWrapperGlobal.Wrapper) (g g' : Globals pf) (tg : thrown) :
  (LitWrapper.connect pf now oc oa w params = (Throw t, w') ->
   _isConnected pf w' = false
   /\ client pf w' = None
   /\ wrapper_authManager pf w' = None
   /\ (forall g0, isConnected pf w' g0 = false)
   /\ _network pf w' = _network pf w
   /\ _nodeCount pf w' = _nodeCount pf w
   /\ _sessionExpiry pf w' = _sessionExpiry pf w)
  /\ (LitWrapperGlobal.connect pf now wg g params = (Throw tg, wg', g') ->
      litClient pf g' = None
      /\ authManager pf g' = None
      /\ initPromise pf g' = None
      /\ LitWrapperGlobal.isConnected pf g' = false
      /\ wg' = wg).
Proof.
  split.
  - intros Hown. unfold LitWrapper.connect in Hown.
    destruct oc as [c|t1]; [destruct oa as [a|t2]|];
      try discriminate; injection Hown as _ <-; cbn; auto 10.
  - intros Hglobal.
    unfold LitWrapperGlobal.connect, initLitClient in Hglobal.
    cbn [module_ aesKey] in Hglobal.
    destruct (initLitClient_await pf g) as [[c|t1] g1] eqn:E;
      [discriminate|].
    injection Hglobal as _ <- <-. cbn [module_].
    apply await_failure in E as (Hc & Ha & Hp).
    unfold LitWrapperGlobal.isConnected, isLitClientConnected.
    rewrite Hc. auto.
Qed.

End WithPlatform.

(** *** On the small platform *)

(** C3, counterexample.  A connected wrapper is asked to encrypt the empty
    payload (its base64 is the empty string) under an empty policy: the
    call fails with the missing-[data] error, not with the empty-policy
    error. *)
Lemma empty_policy_with_empty_data :
  ~ LitWrapperGlobal.empty_policy_always_reported Toy.online (fun _ => "[]").
Proof.
  intros H.
  specialize (H Toy.connected_wrapper Toy.ready
                {| data := Some ""; param_accessControlConditions := Some [];
                   param_chain := None |}
                (or_intror eq_refl)).
  discriminate H.
Qed.

(** The call of the repository's test of [encrypt] on a wrapper that was
    never connected, with the policy emptied, fails as the test expects. *)
Example empty_policy_on_disconnected_wrapper :
  LitWrapper.encrypt Toy.online (fun _ => "[]") (createLitWrapper Toy.online)
    (initial Toy.online)
    {| data := Some "dGVzdCBkYXRh"; param_accessControlConditions := Some [];
       param_chain := None |}
  = ([], Throw not_connected).
Proof. reflexivity. Qed.

(** Connected, with data, and an empty policy: the empty-policy error. *)
Lemma empty_policy_rejected_before_network_witness :
  LitWrapper.encrypt Toy.online (fun _ => "[]") Toy.connected_wrapper Toy.ready
    {| data := Some "dGVzdCBkYXRh"; param_accessControlConditions := Some [];
       param_chain := None |}
  = ([], Throw (missing "accessControlConditions"))
  /\ LitWrapperGlobal.encrypt Toy.online (fun _ => "[]") Toy.ready
       {| data := Some "dGVzdCBkYXRh"; param_accessControlConditions := Some [];
          param_chain := None |}
     = ([], Throw (missing "accessControlConditions")).
Proof.
  apply (@empty_policy_rejected_before_network Toy.online (fun _ => "[]")
           Toy.connected_wrapper Toy.ready
           {| data := Some "dGVzdCBkYXRh";
              param_accessControlConditions := Some [];
              param_chain := None |}).
  right. reflexivity.
Defined.

(** A non-empty policy does reach the network, once. *)
Example encrypt_calls_the_network_once :
  List.length
    (fst (LitWrapper.encrypt Toy.online (fun _ => "[]") Toy.connected_wrapper
            Toy.ready
            {| data := Some "dGVzdCBkYXRh";
               param_accessControlConditions :=
                 Some (createOwnerOnlyAccessControlConditions
                         "0x1234567890123456789012345678901234567890");
               param_chain := None |}))
  = 1.
Proof. vm_compute. reflexivity. Qed.

(** The reset rule fails on a wrapper that connected at time 0 and whose
    next [connect] fails. *)
Lemma failed_reconnect_keeps_session_expiry :
  ~ LitWrapperGlobal.failed_connect_clears_all Toy.online 0.
Proof.
  intros H.
  destruct (H (Throw (ThrowError "connect ECONNREFUSED")) (Return tt)
              Toy.connected_wrapper
              (connect_catch Toy.online Toy.connected_wrapper)
              {| network := None; networkMode := None; debug := None |}
              (connect_failed (ThrowError "connect ECONNREFUSED")) eq_refl)
    as (_ & _ & _ & Hexp).
  discriminate Hexp.
Qed.

Example connected_wrapper_comes_from_connect :
  snd (LitWrapper.connect Toy.online 0 (Return tt) (Return tt)
         (createLitWrapper Toy.online)
         {| network := None; networkMode := None; debug := None |})
  = Toy.connected_wrapper.
Proof. reflexivity. Qed.

(** C8 at a failing input.  A wrapper that connected at time 0 (network
    [datil-dev], session until 3600000) is asked to connect to [naga] two
    hours later, and [createLitClient] rejects.  [connect] throws, and the
    flag, the client and the auth manager are cleared, but the wrapper
    still carries the session expiry and the network label of the first
    connection: the state is not reset.  [disconnect] on the same wrapper
    clears both. *)
Theorem failed_reconnect_leaves_stale_session :
  fst (LitWrapper.connect Toy.online 7200000
         (Throw (ThrowError "connect ECONNREFUSED")) (Return tt)
         Toy.connected_wrapper
         {| network := Some "naga"; networkMode := None; debug := None |})
  = Throw (ThrowError
             "Failed to connect to Lit Protocol: connect ECONNREFUSED")
  /\ snd (LitWrapper.connect Toy.online 7200000
            (Throw (ThrowError "connect ECONNREFUSED")) (Return tt)
            Toy.connected_wrapper
            {| network := Some "naga"; networkMode := None; debug := None |})
     = LitWrapper.Build_Wrapper Toy.online None None false "datil-dev"
         (Some 3600000%Z) 1
  /\ snd (fst (LitWrapperOps.disconnect Toy.online (fun _ => Return tt)
                 Toy.connected_wrapper Toy.ready))
     = LitWrapper.Build_Wrapper Toy.online None None false "" None 1
  /\ _sessionExpiry Toy.online
       (snd (LitWrapper.connect Toy.online 7200000
               (Throw (ThrowError "connect ECONNREFUSED")) (Return tt)
               Toy.connected_wrapper
               {| network := Some "naga"; networkMode := None;
                  debug := None |}))
     <> None.
Proof. repeat split; try reflexivity; discriminate. Qed.

(** A new wrapper, as [main] makes one for every [lit.connect], has
    nothing a failed [connect] could leave behind. *)
Example failed_first_connect_leaves_nothing :
  snd (LitWrapper.connect Toy.offline 0
         (Throw (ThrowError "connect ECONNREFUSED")) (Return tt)
         (createLitWrapper Toy.offline)
         {| network := None; networkMode := None; debug := None |})
  = createLitWrapper Toy.offline.
Proof. reflexivity. Qed.

End LitWrapperFacts.

(* ====================================================================== *)
(** ** Properties of the dispatcher and the read loop *)
(* ====================================================================== *)

Module MainFacts.

Import Main StringFacts.

Section WithRuntime.
Variable World : Type.
Variable JSON_parse : string -> completion JSON.
Variable registered : string -> option (jsval -> World -> HandlerRun World).
Variable disconnect_wrappers : World -> option thrown * World.

Local Abbreviation Runtime := (Runtime World).
Local Abbreviation handleRequest := (handleRequest registered disconnect_wrappers).
Local Abbreviation methods := (methods registered disconnect_wrappers).
Local Abbreviation process_line :=
  (process_line JSON_parse registered disconnect_wrappers).
Local Abbreviation drain := (drain JSON_parse registered disconnect_wrappers).
Local Abbreviation read_loop := (read_loop JSON_parse registered disconnect_wrappers).
Local Abbreviation run_lines := (run_lines JSON_parse registered disconnect_wrappers).
Local Abbreviation main := (main JSON_parse registered disconnect_wrappers).

(** *** The inner loop against the character-wise splitter *)

Lemma drain_unfold (buffer : string) (rt : Runtime) :
  drain buffer rt
  = match indexOf newline buffer with
    | None => ([], buffer, rt)
    | Some newlineIndex =>
        let '(out, rt1) :=
          process_line (trim (slice_to newlineIndex buffer)) rt in
        let '(out', rest, rt2) :=
          drain (slice_from (S newlineIndex) buffer) rt1 in
        ((out ++ out')%list, rest, rt2)
    end.
Proof.
  rewrite drain_equation_1.
  destruct (inspect (indexOf newline buffer)) as [[i|] e].
  - rewrite drain_clause_1_equation_1. now rewrite e.
  - rewrite drain_clause_1_equation_2. now rewrite e.
Qed.

Lemma complete_lines_no_newline (s : string) :
  indexOf newline s = None -> complete_lines s = ([], s).
Proof.
  induction s as [|c rest IH]; cbn; [auto|].
  destruct (Ascii.eqb c newline); [discriminate|].
  destruct (indexOf newline rest); [discriminate|].
  intros _. now rewrite IH.
Qed.

Lemma complete_lines_first (s : string) (i : nat) :
  indexOf newline s = Some i ->
  complete_lines s
  = (slice_to i s :: fst (complete_lines (slice_from (S i) s)),
     snd (complete_lines (slice_from (S i) s))).
Proof.
  revert i. induction s as [|c rest IH]; intros i; cbn [indexOf];
    [discriminate|].
  cbn [complete_lines].
  destruct (Ascii.eqb c newline).
  - intros [= <-]. cbn. now destruct (complete_lines rest).
  - destruct (indexOf newline rest) as [j|]; [|discriminate].
    intros [= <-]. rewrite (IH j eq_refl). reflexivity.
Qed.

Lemma drain_complete_lines (n : nat) :
  forall (buffer : string) (rt : Runtime),
    String.length buffer < n ->
    drain buffer rt
    = (fst (run_lines (fst (complete_lines buffer)) rt),
       snd (complete_lines buffer),
       snd (run_lines (fst (complete_lines buffer)) rt)).
Proof.
  induction n as [|n IH]; intros buffer rt Hn; [lia|].
  rewrite drain_unfold.
  destruct (indexOf newline buffer) as [i|] eqn:E.
  - rewrite (complete_lines_first E). cbn [fst snd run_lines].
    destruct (process_line (trim (slice_to i buffer)) rt) as [out rt1].
    pose proof (slice_from_shorter E) as Hlt.
    rewrite IH by lia.
    destruct (run_lines _ rt1) as [out' rt2]. reflexivity.
  - rewrite (complete_lines_no_newline E). reflexivity.
Qed.

Lemma drain_run_lines (buffer : string) (rt : Runtime) :
  drain buffer rt
  = (fst (run_lines (fst (complete_lines buffer)) rt),
     snd (complete_lines buffer),
     snd (run_lines (fst (complete_lines buffer)) rt)).
Proof. apply (@drain_complete_lines (S (String.length buffer))). lia. Qed.

Lemma run_lines_app (l1 l2 : list string) (rt : Runtime) :
  run_lines (l1 ++ l2) rt
  = ((fst (run_lines l1 rt) ++ fst (run_lines l2 (snd (run_lines l1 rt))))%list,
     snd (run_lines l2 (snd (run_lines l1 rt)))).
Proof.
  revert rt. induction l1 as [|l l1 IH]; intros rt; cbn.
  - now destruct (run_lines l2 rt).
  - destruct (process_line (trim l) rt) as [out rt1]. rewrite IH.
    destruct (run_lines l1 rt1) as [out1 rt2]. cbn.
    now rewrite app_assoc.
Qed.

(** Lines of a stream that arrives in two pieces. *)
Lemma complete_lines_app (s1 s2 : string) :
  complete_lines (s1 ++ s2)
  = ((fst (complete_lines s1)
      ++ fst (complete_lines (snd (complete_lines s1) ++ s2)))%list,
     snd (complete_lines (snd (complete_lines s1) ++ s2))).
Proof.
  induction s1 as [|c s1 IH]; cbn [append complete_lines].
  - cbn. now destruct (complete_lines s2).
  - rewrite IH.
    destruct (complete_lines s1) as [l1 r1]. cbn [fst snd].
    destruct (Ascii.eqb c newline) eqn:Ec.
    + reflexivity.
    + destruct l1 as [|l l1]; cbn [fst snd app].
      * cbn [append complete_lines]. rewrite Ec.
        now destruct (complete_lines (r1 ++ s2)) as [[|l2 ls2] r2].
      * reflexivity.
Qed.

Lemma complete_lines_rest_no_newline (s : string) :
  indexOf newline (snd (complete_lines s)) = None.
Proof.
  induction s as [|c s IH]; cbn [complete_lines]; [reflexivity|].
  destruct (complete_lines s) as [ls rem]. cbn [snd] in IH.
  destruct (Ascii.eqb c newline) eqn:Ec; [exact IH|].
  destruct ls; cbn [snd indexOf]; [|exact IH].
  now rewrite Ec, IH.
Qed.

(** *** The read loop *)

(** The loop handles, in stream order, the complete lines of the chunks it
    has read, and it stops reading only at the end of the stream or once
    the shutdown flag is up. *)
Lemma read_loop_sequential (chunks : list string) :
  forall (buffer : string) (rt : Runtime),
    indexOf newline buffer = None ->
    exists k,
      k <= List.length chunks
      /\ read_loop chunks buffer rt
         = run_lines
             (fst (complete_lines (buffer ++ stream (firstn k chunks)))) rt
      /\ (k = List.length chunks
          \/ isShuttingDown (snd (read_loop chunks buffer rt)) = true).
Proof.
  induction chunks as [|value later IH]; intros buffer rt Hb.
  - exists 0. cbn. rewrite append_empty_r, (complete_lines_no_newline Hb).
    auto.
  - cbn [read_loop]. destruct (isShuttingDown rt) eqn:Hs.
    + exists 0. cbn [firstn stream fold_right].
      rewrite append_empty_r, (complete_lines_no_newline Hb). cbn.
      split; [lia | auto].
    + rewrite drain_run_lines.
      set (L := fst (complete_lines (buffer ++ value))).
      set (R := snd (complete_lines (buffer ++ value))).
      set (rt1 := snd (run_lines L rt)).
      destruct (IH R rt1 (complete_lines_rest_no_newline _))
        as (k & Hk & E & Hend).
      exists (S k). split; [cbn; lia|].
      cbn [firstn stream fold_right].
      rewrite <- append_assoc, complete_lines_app. cbn [fst].
      rewrite run_lines_app. fold L R rt1. fold (stream (firstn k later)).
      rewrite E in Hend |- *.
      destruct (run_lines (fst (complete_lines (R ++ stream (firstn k later))))
                  rt1) as [out' rt2].
      cbn [fst snd] in *.
      split; [reflexivity|].
      destruct Hend as [-> | Hend]; [left; reflexivity | right; exact Hend].
Qed.

(** *** The dispatcher *)

Lemma responses_notifications (sent : list (string * jsval)) :
  responses (notifications sent) = [].
Proof. induction sent; cbn; auto. Qed.

Lemma responses_app (l1 l2 : list Line) :
  responses (l1 ++ l2) = (responses l1 ++ responses l2)%list.
Proof. apply filter_app. Qed.

(** [handleRequest] on a request whose three fields can be read. *)
Lemma handleRequest_fields (request : JSON) (rt : Runtime)
      (method params id : jsval) :
  get request "method" = Return method ->
  get request "params" = Return params ->
  get request "id" = Return id ->
  handleRequest request rt
  = match methods (String_ method) with
    | None =>
        {| lines :=
             if is_notification_id id then []
             else [ErrorResponse id METHOD_NOT_FOUND
                     ("Method not found: " ++ String_ method) None];
           status := Return tt;
           state := rt |}
    | Some handler =>
        {| lines :=
             (notifications (emitted (handler params rt))
              ++ if is_notification_id id then []
                 else match outcome (handler params rt) with
                      | Return result => [Response id result]
                      | Throw error =>
                          [ErrorResponse id INTERNAL_ERROR (message_of error)
                             None]
                      end)%list;
           status := Return tt;
           state := after (handler params rt) |}
    end.
Proof. intros Hm Hp Hi. unfold Main.handleRequest. now rewrite Hm, Hp, Hi. Qed.

(** C6.  A message whose [id] is absent or [null] gets no response of any
    kind from [handleRequest]: no result, no method-not-found error when
    the method is unknown, no internal error when the handler throws.  The
    only lines the call may print are the notifications the handler itself
    sent. *)
Theorem notification_gets_no_response
        (request : JSON) (rt : Runtime) (id : jsval) :
  get request "id" = Return id ->
  is_notification_id id = true ->
  responses (lines (handleRequest request rt)) = []
  /\ status (handleRequest request rt) = Return tt.
Proof.
  intros Hid Hn.
  destruct request; cbn in Hid; try discriminate;
    injection Hid as <-;
    match goal with
    | |- context [handleRequest ?r rt] =>
        rewrite (@handleRequest_fields r rt _ _ _ eq_refl eq_refl eq_refl)
    end;
    destruct (methods _) as [handler|]; cbn [lines status]; rewrite ?Hn;
    rewrite ?app_nil_r, ?responses_notifications; auto.
Qed.

(** Whatever the handlers do, a parsed value other than [null] never makes
    [handleRequest] throw. *)
Lemma handleRequest_returns (request : JSON) (rt : Runtime) :
  request <> JNull -> status (handleRequest request rt) = Return tt.
Proof.
  intros Hn.
  assert (E : forall name, exists v, get request name = Return v).
  { intros name. destruct request; cbn; eauto. now destruct Hn. }
  destruct (E "method") as [m Hm], (E "params") as [p Hp], (E "id") as [i Hi].
  rewrite (handleRequest_fields rt Hm Hp Hi).
  now destruct (methods _).
Qed.

(** What a throwing handler leaves of a request whose fields were read. *)
Lemma handler_error_response
      (request : JSON) (rt : Runtime) (method params id : jsval)
      (handler : Handler World) (error : thrown) :
  get request "method" = Return method ->
  get request "params" = Return params ->
  get request "id" = Return id ->
  methods (String_ method) = Some handler ->
  outcome (handler params rt) = Throw error ->
  responses (lines (handleRequest request rt))
  = (if is_notification_id id then []
     else [ErrorResponse id INTERNAL_ERROR (message_of error) None])
  /\ state (handleRequest request rt) = after (handler params rt).
Proof.
  intros Hm Hp Hi Hh Ht.
  rewrite (handleRequest_fields rt Hm Hp Hi).
  rewrite Hh, Ht. cbn [lines status state].
  rewrite responses_app, responses_notifications.
  destruct (is_notification_id id); auto.
Qed.

(** C7, amended.  On every parsed value other than [null],
    [handleRequest] returns normally, whatever the handler does: the three
    fields can be read, and when the handler throws and the request carries
    an id, the call prints exactly one response, the error response with
    that id, code -32603 and the message of the error; when it carries no
    id it prints none.  The state is the one the handler left, and the
    caller goes on with it.  On the parsed value [null] the destructuring
    throws before the [try]: [handleRequest] throws a TypeError, prints
    nothing and leaves the state alone, and the loop of [main] answers the
    line with the parse error response and goes on from the same state. *)
Theorem handler_error_becomes_one_error_response
        (request : JSON) (rt : Runtime) :
  (request <> JNull ->
   status (handleRequest request rt) = Return tt
   /\ exists method params id : jsval,
        get request "method" = Return method
        /\ get request "params" = Return params
        /\ get request "id" = Return id
        /\ forall (handler : Handler World) (error : thrown),
             methods (String_ method) = Some handler ->
             outcome (handler params rt) = Throw error ->
             responses (lines (handleRequest request rt))
             = (if is_notification_id id then []
                else [ErrorResponse id INTERNAL_ERROR (message_of error)
                        None])
             /\ state (handleRequest request rt) = after (handler params rt))
  /\ (request = JNull ->
      status (handleRequest request rt)
      = Throw (TypeError_destructure "method" "request")
      /\ lines (handleRequest request rt) = []
      /\ state (handleRequest request rt) = rt
      /\ forall line : string,
           line <> "" ->
           JSON_parse line = Return request ->
           process_line line rt
           = ([parse_error (TypeError_destructure "method" "request")], rt)).
Proof.
  split.
  - intros Hn. split; [now apply handleRequest_returns|].
    assert (E : forall name, exists v, get request name = Return v).
    { intros name. destruct request; cbn; eauto. now destruct Hn. }
    destruct (E "method") as [m Hm], (E "params") as [p Hp],
      (E "id") as [i Hi].
    exists m, p, i. split; [exact Hm|]. split; [exact Hp|].
    split; [exact Hi|].
    intros handler error Hh Ht.
    exact (@handler_error_response request rt m p i handler error
             Hm Hp Hi Hh Ht).
  - intros ->. repeat split.
    intros line Hl Hp. unfold Main.process_line.
    apply String.eqb_neq in Hl. rewrite Hl, Hp. reflexivity.
Qed.

(** *** Two pings *)

Lemma complete_lines_line (l rest : string) :
  indexOf newline l = None ->
  complete_lines (l ++ String newline rest)
  = (l :: fst (complete_lines rest), snd (complete_lines rest)).
Proof.
  induction l as [|c l IH]; cbn [append indexOf complete_lines].
  - intros _. cbn. now destruct (complete_lines rest).
  - destruct (Ascii.eqb c newline); [discriminate|].
    destruct (indexOf newline l); [discriminate|].
    intros _. now rewrite IH.
Qed.

Lemma stream_app (c1 c2 : list string) :
  stream (c1 ++ c2) = stream c1 ++ stream c2.
Proof.
  induction c1 as [|c c1 IH]; cbn; [reflexivity|].
  fold (stream (c1 ++ c2)) (stream c1). now rewrite IH, append_assoc.
Qed.

Lemma process_line_ping (line : string) (rt : Runtime)
      (fields : list (string * JSON)) :
  line <> "" ->
  JSON_parse line = Return (JObj fields) ->
  assoc "method" fields = Some (JStr "ping") ->
  is_notification_id (assoc "id" fields) = false ->
  process_line line rt
  = ([Response (assoc "id" fields) (Some (JStr "pong"))], rt).
Proof.
  intros Hne Hp Hm Hid. unfold Main.process_line.
  apply String.eqb_neq in Hne. rewrite Hne, Hp.
  rewrite (@handleRequest_fields (JObj fields) rt _ _ _ eq_refl eq_refl eq_refl).
  rewrite Hm. cbn. now rewrite Hid.
Qed.

Lemma prefix_of_two {A : Type} (a b : A) (l1 l2 : list A) :
  (l1 ++ l2)%list = [a; b] -> l1 = [] \/ l1 = [a] \/ l1 = [a; b].
Proof.
  destruct l1 as [|x [|y [|z l1]]]; cbn; intros E; auto.
  - injection E as -> _. auto.
  - injection E as -> -> _. auto.
  - discriminate.
Qed.

(** C5.  [main] prints the ready notification and then, for the complete
    lines of the chunks it has read, taken in stream order, what each line's
    request prints, every request handled to completion from the state its
    predecessor left; it reads every chunk unless the shutdown flag comes
    up.  In particular two consecutive lines that parse to ping requests
    with ids 1 and 2 give, however the stream is cut into chunks, the pong
    response for id 1 and after it the pong response for id 2. *)
Theorem main_answers_in_request_order
        (chunks : list string) (rt : Runtime) (line1 line2 : string)
        (fields1 fields2 : list (string * JSON)) :
  (exists k,
      k <= List.length chunks
      /\ main chunks rt
         = (ready :: fst (run_lines
                            (fst (complete_lines (stream (firstn k chunks)))) rt),
            snd (run_lines
                   (fst (complete_lines (stream (firstn k chunks)))) rt))
      /\ (k = List.length chunks
          \/ isShuttingDown (snd (main chunks rt)) = true))
  /\ (isShuttingDown rt = false ->
      stream chunks = line1 ++ String newline (line2 ++ String newline "") ->
      indexOf newline line1 = None ->
      indexOf newline line2 = None ->
      trim line1 <> "" ->
      trim line2 <> "" ->
      JSON_parse (trim line1) = Return (JObj fields1) ->
      JSON_parse (trim line2) = Return (JObj fields2) ->
      assoc "method" fields1 = Some (JStr "ping") ->
      assoc "method" fields2 = Some (JStr "ping") ->
      assoc "id" fields1 = Some (JNum 1) ->
      assoc "id" fields2 = Some (JNum 2) ->
      fst (main chunks rt)
      = [ready;
         Response (Some (JNum 1)) (Some (JStr "pong"));
         Response (Some (JNum 2)) (Some (JStr "pong"))]).
Proof.
  assert (General :
    exists k,
      k <= List.length chunks
      /\ main chunks rt
         = (ready :: fst (run_lines
                            (fst (complete_lines (stream (firstn k chunks)))) rt),
            snd (run_lines
                   (fst (complete_lines (stream (firstn k chunks)))) rt))
      /\ (k = List.length chunks
          \/ isShuttingDown (snd (main chunks rt)) = true)).
  { destruct (@read_loop_sequential chunks "" rt eq_refl) as (k & Hk & E & Hend).
    exists k. unfold Main.main. rewrite E in Hend |- *. cbn [append] in *.
    destruct (run_lines _ rt) as [out rt']. cbn [fst snd] in *. auto. }
  split; [exact General|].
  intros Hs Hstream Hn1 Hn2 Ht1 Ht2 Hp1 Hp2 Hm1 Hm2 Hi1 Hi2.
  assert (Hlines : complete_lines (stream chunks) = ([line1; line2], "")).
  { rewrite Hstream, (complete_lines_line _ Hn1). cbn [fst snd].
    now rewrite (complete_lines_line _ Hn2). }
  assert (P1 : forall r, process_line (trim line1) r
                         = ([Response (Some (JNum 1)) (Some (JStr "pong"))], r)).
  { intros r. rewrite <- Hi1.
    apply process_line_ping; auto. now rewrite Hi1. }
  assert (P2 : forall r, process_line (trim line2) r
                         = ([Response (Some (JNum 2)) (Some (JStr "pong"))], r)).
  { intros r. rewrite <- Hi2.
    apply process_line_ping; auto. now rewrite Hi2. }
  destruct General as (k & Hk & E & [-> | Hend]).
  - rewrite E, firstn_all, Hlines. cbn [fst run_lines].
    rewrite P1, P2. reflexivity.
  - exfalso. rewrite E in Hend. cbn [snd] in Hend.
    pose proof (firstn_skipn k chunks) as Hsplit.
    apply (f_equal stream) in Hsplit. rewrite stream_app in Hsplit.
    pose proof Hlines as Hl. rewrite <- Hsplit, complete_lines_app in Hl.
    injection Hl as Hl _.
    apply prefix_of_two in Hl as [Hl | [Hl | Hl]]; rewrite Hl in Hend;
      cbn [run_lines] in Hend; rewrite ?P1, ?P2 in Hend; cbn in Hend;
      congruence.
Qed.

End WithRuntime.

(** *** The dispatcher at start-up *)

(** Two pings cut into chunks in the middle of the second line. *)
Lemma main_answers_in_request_order_witness :
  fst (main Startup.parse Startup.registered Startup.disconnect_wrappers
         Startup.two_pings_chunks Startup.rt0)
  = [ready;
     Response (Some (JNum 1)) (Some (JStr "pong"));
     Response (Some (JNum 2)) (Some (JStr "pong"))].
Proof.
  apply (proj2 (@main_answers_in_request_order unit Startup.parse
                  Startup.registered Startup.disconnect_wrappers
                  Startup.two_pings_chunks Startup.rt0
                  (Startup.request_text "1" "ping")
                  (Startup.request_text "2" "ping")
                  (Startup.request_fields 1 "ping")
                  (Startup.request_fields 2 "ping")));
    try reflexivity; vm_compute; discriminate.
Defined.

(** A notification for a method nobody registered. *)
Lemma notification_gets_no_response_witness :
  responses
    (lines (handleRequest Startup.registered Startup.disconnect_wrappers
              (JObj (Startup.notification_fields "nope.nope")) Startup.rt0))
  = []
  /\ status (handleRequest Startup.registered Startup.disconnect_wrappers
               (JObj (Startup.notification_fields "nope.nope")) Startup.rt0)
     = Return tt.
Proof.
  apply (@notification_gets_no_response unit Startup.registered
           Startup.disconnect_wrappers
           (JObj (Startup.notification_fields "nope.nope")) Startup.rt0 None);
    reflexivity.
Defined.

(** [lit.encrypt] with id 7 before any connect. *)
Lemma handler_error_becomes_one_error_response_witness :
  status (handleRequest Startup.registered Startup.disconnect_wrappers
            (JObj (Startup.request_fields 7 "lit.encrypt")) Startup.rt0)
  = Return tt
  /\ responses
       (lines (handleRequest Startup.registered Startup.disconnect_wrappers
                 (JObj (Startup.request_fields 7 "lit.encrypt")) Startup.rt0))
     = [ErrorResponse (Some (JNum 7)) INTERNAL_ERROR
          "Lit Protocol not connected" None]
  /\ state (handleRequest Startup.registered Startup.disconnect_wrappers
              (JObj (Startup.request_fields 7 "lit.encrypt")) Startup.rt0)
     = Startup.rt0.
Proof.
  destruct (proj1 (@handler_error_becomes_one_error_response unit
                     Startup.parse Startup.registered
                     Startup.disconnect_wrappers
                     (JObj (Startup.request_fields 7 "lit.encrypt"))
                     Startup.rt0)
              ltac:(discriminate))
    as (Hs & m & p & i & Hm & Hp & Hi & Hh).
  injection Hm as <-. injection Hp as <-. injection Hi as <-.
  destruct (Hh (on_world (Startup.throws "Lit Protocol not connected"))
              (ThrowError "Lit Protocol not connected") eq_refl eq_refl)
    as [Hr Hst].
  split; [exact Hs|]. split; [exact Hr | exact Hst].
Defined.

(** The unknown-method scenario of the specification. *)
Example unknown_method_response :
  lines (handleRequest Startup.registered Startup.disconnect_wrappers
           (JObj (Startup.request_fields 5 "nope.nope")) Startup.rt0)
  = [ErrorResponse (Some (JNum 5)) METHOD_NOT_FOUND
       "Method not found: nope.nope" None].
Proof. reflexivity. Qed.

(** C7, counterexample.  The parsed value [null]: the destructuring in
    [handleRequest] throws before the [try], so the call does propagate an
    exception. *)
Lemma null_request_escapes_handleRequest :
  ~ handleRequest_never_throws Startup.registered Startup.disconnect_wrappers.
Proof.
  intros H. specialize (H JNull Startup.rt0). discriminate H.
Qed.

(** The error [null] raises, as [main] prints it in the [data] of its
    answer. *)
Example null_request_throws :
  status (handleRequest Startup.registered Startup.disconnect_wrappers
            JNull Startup.rt0)
  = Throw (ThrowError
             "Cannot destructure property 'method' of 'request' as it is null.").
Proof. reflexivity. Qed.

End MainFacts.

(* ====================================================================== *)
(** ** More on the read loop: framing, shutdown, one answer per line *)
(* ====================================================================== *)

Module ProtocolFacts.

Import Main StringFacts MainFacts.

Section WithRuntime.
Variable World : Type.
Variable JSON_parse : string -> completion JSON.
Variable registered : string -> option (jsval -> World -> HandlerRun World).
Variable disconnect_wrappers : World -> option thrown * World.

Local Abbreviation Runtime := (Runtime World).
Local Abbreviation handleRequest := (handleRequest registered disconnect_wrappers).
Local Abbreviation methods := (methods registered disconnect_wrappers).
Local Abbreviation process_line :=
  (process_line JSON_parse registered disconnect_wrappers).
Local Abbreviation drain := (drain JSON_parse registered disconnect_wrappers).
Local Abbreviation read_loop := (read_loop JSON_parse registered disconnect_wrappers).
Local Abbreviation run_lines := (run_lines JSON_parse registered disconnect_wrappers).
Local Abbreviation main := (main JSON_parse registered disconnect_wrappers).

(** *** The shutdown flag only goes up *)

Lemma handler_keeps_flag_up (name : string) (handler : Handler World)
      (params : jsval) (rt : Runtime) :
  methods name = Some handler ->
  isShuttingDown rt = true ->
  isShuttingDown (after (handler params rt)) = true.
Proof.
  unfold Main.methods. intros Hm Hs.
  destruct (String.eqb name "ping"); [injection Hm as <-; exact Hs|].
  destruct (String.eqb name "shutdown").
  - injection Hm as <-. unfold shutdown.
    now destruct (disconnect_wrappers (world rt)).
  - destruct (registered name) as [h|]; [|discriminate].
    injection Hm as <-. exact Hs.
Qed.

Lemma handleRequest_keeps_flag_up (request : JSON) (rt : Runtime) :
  isShuttingDown rt = true ->
  isShuttingDown (state (handleRequest request rt)) = true.
Proof.
  intros Hs. unfold Main.handleRequest.
  destruct (get request "method") as [m|]; [|exact Hs].
  destruct (get request "params") as [p|]; [|exact Hs].
  destruct (get request "id") as [i|]; [|exact Hs].
  destruct (Main.methods registered disconnect_wrappers (String_ m))
    as [handler|] eqn:Hm; [|exact Hs].
  cbn [state]. eapply handler_keeps_flag_up; eauto.
Qed.

Lemma process_line_keeps_flag_up (line : string) (rt : Runtime) :
  isShuttingDown rt = true ->
  isShuttingDown (snd (process_line line rt)) = true.
Proof.
  intros Hs. unfold Main.process_line.
  destruct (String.eqb line ""); [exact Hs|].
  destruct (JSON_parse line) as [request|]; [|exact Hs].
  pose proof (handleRequest_keeps_flag_up request Hs) as H.
  now destruct (status _).
Qed.

Lemma run_lines_keeps_flag_up (ls : list string) :
  forall rt : Runtime,
    isShuttingDown rt = true ->
    isShuttingDown (snd (run_lines ls rt)) = true.
Proof.
  induction ls as [|l ls IH]; intros rt Hs; cbn; [exact Hs|].
  pose proof (process_line_keeps_flag_up (trim l) Hs) as H1.
  destruct (process_line (trim l) rt) as [out rt1]. cbn [snd] in H1.
  specialize (IH rt1 H1).
  now destruct (run_lines ls rt1).
Qed.

(** X1.  Once a shutdown request has been handled, the flag is up for good: no
    later request on the stream, whatever its handler, takes it down, and
    this holds even when disconnecting a wrapper throws and the shutdown
    request is answered with an error. *)
Theorem shutdown_request_raises_flag_for_good
        (before after_ : list string) (l : string) (rt : Runtime)
        (request : JSON) :
  trim l <> "" ->
  JSON_parse (trim l) = Return request ->
  get request "method" = Return (Some (JStr "shutdown")) ->
  isShuttingDown (snd (run_lines (before ++ l :: after_) rt)) = true.
Proof.
  intros Hne Hp Hm.
  rewrite run_lines_app. cbn [snd].
  set (rt1 := snd (run_lines before rt)).
  cbn [Main.run_lines].
  assert (H1 : isShuttingDown (snd (process_line (trim l) rt1)) = true).
  { unfold Main.process_line.
    apply String.eqb_neq in Hne. rewrite Hne, Hp.
    assert (Hst : isShuttingDown (state (handleRequest request rt1)) = true).
    { destruct request; try discriminate Hm.
      unfold Main.handleRequest. rewrite Hm. cbn. unfold shutdown.
      now destruct (disconnect_wrappers (world rt1)). }
    now destruct (status _). }
  destruct (process_line (trim l) rt1) as [out rt2]. cbn [snd] in H1.
  pose proof (run_lines_keeps_flag_up after_ H1) as H2.
  now destruct (run_lines after_ rt2).
Qed.

(** *** Reading stops at the flag, framing does not depend on the chunks *)

Lemma read_loop_flag_up (chunks : list string) (buffer : string)
      (rt : Runtime) :
  isShuttingDown rt = true ->
  read_loop chunks buffer rt = ([], rt).
Proof. intros Hs. destruct chunks; cbn; [reflexivity | now rewrite Hs]. Qed.

Lemma read_loop_stops (later : list string) (chunks : list string) :
  forall (buffer : string) (rt : Runtime),
    isShuttingDown (snd (read_loop chunks buffer rt)) = true ->
    read_loop (chunks ++ later) buffer rt = read_loop chunks buffer rt.
Proof.
  induction chunks as [|c chunks IH]; intros buffer rt H.
  - cbn in H. now rewrite read_loop_flag_up.
  - cbn [app Main.read_loop] in *.
    destruct (isShuttingDown rt); [reflexivity|].
    destruct (Main.drain JSON_parse registered disconnect_wrappers
                (buffer ++ c) rt) as [[out buffer'] rt1].
    specialize (IH buffer' rt1).
    destruct (Main.read_loop JSON_parse registered disconnect_wrappers
                chunks buffer' rt1) as [out' rt2].
    cbn [snd] in *. now rewrite IH.
Qed.

(** X2.  Once the chunks read so far leave the shutdown flag up, nothing that
    arrives later is read: the run prints what it would have printed had
    the stream ended there, and ends in the same state. *)
Theorem no_chunk_is_read_after_shutdown
        (before later : list string) (rt : Runtime) :
  isShuttingDown (snd (main before rt)) = true ->
  main (before ++ later) rt = main before rt.
Proof.
  unfold Main.main. intros H.
  rewrite read_loop_stops; [reflexivity|].
  now destruct (Main.read_loop JSON_parse registered disconnect_wrappers
                  before "" rt).
Qed.

(** X3.  As long as the run ends with the shutdown flag down, what [main] prints
    and the state it reaches depend on the text of the stream only, not on
    where the stream was cut into chunks: a line split across two reads is
    put together again and handled once. *)
Theorem main_independent_of_chunking (chunks : list string) (rt : Runtime) :
  isShuttingDown (snd (main chunks rt)) = false ->
  main chunks rt = main [stream chunks] rt.
Proof.
  intros Hend.
  assert (Hstart : isShuttingDown rt = false).
  { destruct (isShuttingDown rt) eqn:Hs; [|reflexivity].
    unfold Main.main in Hend. rewrite (read_loop_flag_up _ _ Hs) in Hend.
    cbn in Hend. congruence. }
  unfold Main.main in *.
  destruct (@read_loop_sequential World JSON_parse registered
              disconnect_wrappers chunks "" rt eq_refl)
    as (k & Hk & E & Hstop).
  cbn [Main.read_loop]. rewrite Hstart.
  rewrite (@drain_run_lines World JSON_parse registered disconnect_wrappers).
  cbn [append].
  destruct Hstop as [-> | Hup].
  - rewrite E, firstn_all. cbn [append].
    destruct (run_lines (fst (complete_lines (stream chunks))) rt)
      as [out rt1].
    cbn [fst snd]. now rewrite app_nil_r.
  - exfalso.
    destruct (Main.read_loop JSON_parse registered disconnect_wrappers
                chunks "" rt) as [out rt'].
    cbn [snd] in *. congruence.
Qed.

Lemma indexOf_app_none (c : ascii) (s1 s2 : string) :
  indexOf c s1 = None -> indexOf c s2 = None -> indexOf c (s1 ++ s2) = None.
Proof.
  induction s1 as [|d s1 IH]; cbn; [auto|].
  destruct (Ascii.eqb d c); [discriminate|].
  destruct (indexOf c s1); [discriminate|].
  intros _ H2. now rewrite IH.
Qed.

Lemma read_loop_partial_tail (chunks : list string) (tail : string) :
  indexOf newline tail = None ->
  forall (buffer : string) (rt : Runtime),
    indexOf newline buffer = None ->
    read_loop (chunks ++ [tail]) buffer rt = read_loop chunks buffer rt.
Proof.
  intros Ht. induction chunks as [|c chunks IH]; intros buffer rt Hb.
  - cbn [app Main.read_loop].
    destruct (isShuttingDown rt); [reflexivity|].
    rewrite (@drain_run_lines World JSON_parse registered disconnect_wrappers).
    now rewrite (complete_lines_no_newline (indexOf_app_none Hb Ht)).
  - cbn [app Main.read_loop].
    destruct (isShuttingDown rt); [reflexivity|].
    rewrite (@drain_run_lines World JSON_parse registered disconnect_wrappers).
    now rewrite IH by apply complete_lines_rest_no_newline.
Qed.

(** X4.  Text after the last newline is never dispatched: a stream that ends in
    an unterminated line is handled exactly like the stream without it. *)
Theorem unterminated_last_line_is_not_handled
        (chunks : list string) (tail : string) (rt : Runtime) :
  indexOf newline tail = None ->
  main (chunks ++ [tail]) rt = main chunks rt.
Proof.
  intros Ht. unfold Main.main.
  now rewrite (@read_loop_partial_tail chunks tail Ht "" rt eq_refl).
Qed.

(** *** One line, at most one response *)

Lemma handleRequest_responses (request : JSON) (rt : Runtime)
      (method params id : jsval) :
  get request "method" = Return method ->
  get request "params" = Return params ->
  get request "id" = Return id ->
  List.length (responses (lines (handleRequest request rt)))
  = if is_notification_id id then 0 else 1.
Proof.
  intros Hm Hp Hi.
  rewrite (@handleRequest_fields World registered disconnect_wrappers
             request rt _ _ _ Hm Hp Hi).
  destruct (Main.methods registered disconnect_wrappers (String_ method))
    as [handler|]; cbn [lines].
  - rewrite responses_app, responses_notifications. cbn [app].
    destruct (is_notification_id id); [reflexivity|].
    now destruct (outcome (handler params rt)).
  - now destruct (is_notification_id id).
Qed.

(** X5.  Every line of input gets at most one response line.  It gets none
    exactly when it is blank or parses to a message (not [null]) whose id
    is absent or [null]; every other line, a request, a line that does not
    parse, a [null], gets exactly one. *)
Theorem one_line_at_most_one_response (line : string) (rt : Runtime) :
  List.length (responses (fst (process_line line rt)))
  = if String.eqb line "" then 0
    else match JSON_parse line with
         | Return request =>
             match get request "id" with
             | Return id => if is_notification_id id then 0 else 1
             | Throw _ => 1
             end
         | Throw _ => 1
         end.
Proof.
  unfold Main.process_line.
  destruct (String.eqb line ""); [reflexivity|].
  destruct (JSON_parse line) as [request|t]; [|reflexivity].
  destruct request;
    try (match goal with
         | |- context [Main.handleRequest _ _ ?r rt] =>
             pose proof (@handleRequest_responses r rt _ _ _
                           eq_refl eq_refl eq_refl) as H;
             rewrite (@handleRequest_fields World registered
                        disconnect_wrappers r rt _ _ _
                        eq_refl eq_refl eq_refl) in H |- *
         end;
         cbn [get];
         destruct (Main.methods registered disconnect_wrappers _);
         cbn [status lines fst] in *; exact H).
  reflexivity.
Qed.

End WithRuntime.

(** *** A session with a shutdown request *)

(** A ping, the shutdown request, another ping. *)
Lemma shutdown_request_raises_flag_for_good_witness :
  isShuttingDown
    (snd (Main.run_lines Session.parse Startup.registered
            Startup.disconnect_wrappers
            ([Startup.request_text "1" "ping"] ++ Session.shutdown_text
               :: [Startup.request_text "2" "ping"])
            Startup.rt0))
  = true.
Proof.
  apply (@shutdown_request_raises_flag_for_good unit Session.parse
           Startup.registered Startup.disconnect_wrappers
           [Startup.request_text "1" "ping"]
           [Startup.request_text "2" "ping"]
           Session.shutdown_text Startup.rt0
           (JObj (Startup.request_fields 3 "shutdown")));
    [vm_compute; discriminate | reflexivity | reflexivity].
Defined.

(** The ping that arrives after the shutdown request is not answered. *)
Lemma no_chunk_is_read_after_shutdown_witness :
  Main.main Session.parse Startup.registered Startup.disconnect_wrappers
    (firstn 2 Session.chunks ++ skipn 2 Session.chunks) Startup.rt0
  = Main.main Session.parse Startup.registered Startup.disconnect_wrappers
      (firstn 2 Session.chunks) Startup.rt0.
Proof.
  apply (@no_chunk_is_read_after_shutdown unit Session.parse
           Startup.registered Startup.disconnect_wrappers
           (firstn 2 Session.chunks) (skipn 2 Session.chunks) Startup.rt0).
  vm_compute. reflexivity.
Defined.

(** Two pings cut in the middle of the second line. *)
Lemma main_independent_of_chunking_witness :
  Main.main Startup.parse Startup.registered Startup.disconnect_wrappers
    Startup.two_pings_chunks Startup.rt0
  = Main.main Startup.parse Startup.registered Startup.disconnect_wrappers
      [stream Startup.two_pings_chunks] Startup.rt0.
Proof.
  apply (@main_independent_of_chunking unit Startup.parse Startup.registered
           Startup.disconnect_wrappers Startup.two_pings_chunks Startup.rt0).
  vm_compute. reflexivity.
Defined.

(** A ping without its newline at the end of the stream. *)
Lemma unterminated_last_line_is_not_handled_witness :
  Main.main Startup.parse Startup.registered Startup.disconnect_wrappers
    (Startup.two_pings_chunks ++ [Startup.request_text "7" "lit.encrypt"])
    Startup.rt0
  = Main.main Startup.parse Startup.registered Startup.disconnect_wrappers
      Startup.two_pings_chunks Startup.rt0.
Proof.
  apply (@unterminated_last_line_is_not_handled unit Startup.parse
           Startup.registered Startup.disconnect_wrappers
           Startup.two_pings_chunks (Startup.request_text "7" "lit.encrypt")
           Startup.rt0).
  vm_compute. reflexivity.
Defined.

End ProtocolFacts.

(* ====================================================================== *)
(** ** The gateways of a download *)
(* ====================================================================== *)

Module GatewayFacts.

Import Synapse Gateways.

Section Download.
Variable io : Platform.

Lemma fetched_app (e1 e2 : list Event) :
  fetched (e1 ++ e2) = (fetched e1 ++ fetched e2)%list.
Proof. apply flat_map_app. Qed.

Lemma try_gateways_first_working (out cid url : string) (data : list byte)
      (post : list string) (pre : list string) :
  forall lastError : option thrown,
    forallb (gateway_fails io out) pre = true ->
    fetch_body io url = Return data ->
    writeFile io out data = Return tt ->
    fetched (fst (try_gateways io (pre ++ url :: post) out cid lastError))
    = (pre ++ [url])%list
    /\ snd (try_gateways io (pre ++ url :: post) out cid lastError)
       = Return {| success := true; size := List.length data;
                   result_cid := cid; result_outputPath := out |}.
Proof.
  induction pre as [|u pre IH]; intros lastError Hpre Hf Hw.
  - cbn. now rewrite Hf, Hw.
  - cbn [forallb] in Hpre. apply andb_true_iff in Hpre as [Hu Hpre].
    unfold gateway_fails, gateway_failure in Hu.
    cbn [app try_gateways].
    destruct (fetch_body io u) as [d|t].
    + destruct (writeFile io out d) as [[]|t]; [discriminate|].
      destruct (IH (Some t) Hpre Hf Hw) as [E1 E2].
      destruct (try_gateways io (pre ++ url :: post) out cid (Some t))
        as [ev r].
      cbn in *. now rewrite E1, E2.
    + destruct (IH (Some t) Hpre Hf Hw) as [E1 E2].
      destruct (try_gateways io (pre ++ url :: post) out cid (Some t))
        as [ev r].
      cbn in *. now rewrite E1, E2.
Qed.

Lemma try_gateways_all_fail (out cid : string) (urls : list string) :
  forall lastError : option thrown,
    forallb (gateway_fails io out) urls = true ->
    fetched (fst (try_gateways io urls out cid lastError)) = urls
    /\ snd (try_gateways io urls out cid lastError)
       = Throw (ThrowError
           ("Failed to download from all gateways. Last error: "
            ++ match last_failure io out urls lastError with
               | Some t => message_of t
               | None => "undefined"
               end)).
Proof.
  induction urls as [|u urls IH]; intros lastError Hall; [now cbn|].
  cbn [forallb] in Hall. apply andb_true_iff in Hall as [Hu Hall].
  unfold last_failure. cbn [fold_left try_gateways].
  unfold gateway_fails in Hu. unfold gateway_failure in *.
  destruct (fetch_body io u) as [d|t].
  - destruct (writeFile io out d) as [[]|t]; [discriminate|].
    destruct (IH (Some t) Hall) as [E1 E2].
    destruct (try_gateways io urls out cid (Some t)) as [ev r].
    cbn in *. now rewrite E1, E2.
  - destruct (IH (Some t) Hall) as [E1 E2].
    destruct (try_gateways io urls out cid (Some t)) as [ev r].
    cbn in *. now rewrite E1, E2.
Qed.

Lemma download_reaches_gateways (params : DownloadParams) (c out : string) :
  well_formed params c out ->
  download io true params
  = try_gateways io (gateways (trim c)) out (trim c) None.
Proof.
  intros (Hc & Ho & Hcn & Hon & Hv). unfold download.
  rewrite Hc, Ho, Hv. cbn [negb].
  destruct c; [congruence|]. destruct out; [congruence|]. reflexivity.
Qed.

(** X6.  The gateways are asked one after the other in their listed order, and
    the first one whose body arrives and gets written ends the download:
    no gateway after it is contacted, and the result reports the length of
    exactly that body. *)
Theorem download_first_working_gateway_wins
        (params : DownloadParams) (c out url : string)
        (pre post : list string) (data : list byte) :
  well_formed params c out ->
  gateways (trim c) = (pre ++ url :: post)%list ->
  forallb (gateway_fails io out) pre = true ->
  fetch_body io url = Return data ->
  writeFile io out data = Return tt ->
  fetched (fst (download io true params)) = (pre ++ [url])%list
  /\ snd (download io true params)
     = Return {| success := true; size := List.length data;
                 result_cid := trim c; result_outputPath := out |}.
Proof.
  intros Hwf Hg Hpre Hf Hw.
  rewrite (download_reaches_gateways Hwf), Hg.
  now apply try_gateways_first_working.
Qed.

(** X7.  When no gateway delivers, all three have been asked, in their listed
    order, and the error of the download carries the message of the last
    failure, that of dweb.link; the failures of the first two gateways are
    not reported. *)
Theorem download_fails_after_every_gateway
        (params : DownloadParams) (c out : string) :
  well_formed params c out ->
  forallb (gateway_fails io out) (gateways (trim c)) = true ->
  fetched (fst (download io true params)) = gateways (trim c)
  /\ exists t : thrown,
      gateway_failure io out ("https://dweb.link/ipfs/" ++ trim c) = Some t
      /\ snd (download io true params)
         = Throw (ThrowError
             ("Failed to download from all gateways. Last error: "
              ++ message_of t)).
Proof.
  intros Hwf Hall.
  rewrite (download_reaches_gateways Hwf).
  destruct (@try_gateways_all_fail out (trim c) _ None Hall) as [E1 E2].
  split; [exact E1|].
  unfold gateways in *. cbn [forallb] in Hall.
  apply andb_true_iff in Hall as [_ Hall].
  apply andb_true_iff in Hall as [_ Hall].
  apply andb_true_iff in Hall as [H3 _].
  unfold gateway_fails in H3. unfold last_failure in E2. cbn [fold_left] in E2.
  destruct (gateway_failure io out ("https://dweb.link/ipfs/" ++ trim c))
    as [t|]; [|discriminate].
  exists t. split; [reflexivity | exact E2].
Qed.

End Download.

(** ipfs.io down, gateway.ipfs.io answers. *)
Lemma download_first_working_gateway_wins_witness :
  fetched (fst (download first_down true sample_params))
  = ["https://ipfs.io/ipfs/" ++ sample_cid;
     "https://gateway.ipfs.io/ipfs/" ++ sample_cid]
  /\ snd (download first_down true sample_params)
     = Return {| success := true; size := 5; result_cid := sample_cid;
                 result_outputPath := "/tmp/out" |}.
Proof.
  apply (@download_first_working_gateway_wins first_down sample_params
           (" " ++ sample_cid) "/tmp/out"
           ("https://gateway.ipfs.io/ipfs/" ++ sample_cid)
           ["https://ipfs.io/ipfs/" ++ sample_cid]
           ["https://dweb.link/ipfs/" ++ sample_cid]
           (list_byte_of_string "video"));
    try reflexivity.
  repeat split; try discriminate; vm_compute; reflexivity.
Defined.

(** Every gateway down. *)
Lemma download_fails_after_every_gateway_witness :
  fetched (fst (download offline true sample_params)) = gateways sample_cid
  /\ exists t : thrown,
      gateway_failure offline "/tmp/out" ("https://dweb.link/ipfs/" ++ sample_cid)
      = Some t
      /\ snd (download offline true sample_params)
         = Throw (ThrowError
             ("Failed to download from all gateways. Last error: "
              ++ message_of t)).
Proof.
  apply (@download_fails_after_every_gateway offline sample_params
           (" " ++ sample_cid) "/tmp/out");
    [repeat split; try discriminate; vm_compute; reflexivity | reflexivity].
Defined.

End GatewayFacts.

(* ====================================================================== *)
(** ** More on the encryption engine *)
(* ====================================================================== *)

Module EngineFacts.

Import Base64 Base64Facts Regex RegexFacts HybridCrypto HybridCryptoFacts.
Import HybridCryptoSupport StringFacts.

(** *** The base64 text of a byte array *)

Lemma btoa_length (s : string) :
  String.length (btoa s) = 4 * ((String.length s + 2) / 3).
Proof.
  induction s as [|a|a b|a b c rest IH] using string_ind3;
    try reflexivity.
  cbn [btoa String.length]. rewrite IH.
  replace (S (S (S (String.length rest))) + 2)
    with (1 * 3 + (String.length rest + 2)) by lia.
  rewrite Nat.div_add_l by lia. lia.
Qed.

Lemma length_string_of_list_byte (bytes : list byte) :
  String.length (string_of_list_byte bytes) = List.length bytes.
Proof.
  unfold string_of_list_byte.
  induction bytes as [|b bytes IH]; cbn; [reflexivity | now rewrite IH].
Qed.

(** X8.  The text [arrayBufferToBase64] makes of [n] bytes has
    [4 * ceil(n / 3)] characters, [base64ToArrayBuffer] reads the bytes
    back from it, and so no two byte arrays share their text. *)
Theorem arrayBufferToBase64_faithful (bytes : list byte) :
  base64ToArrayBuffer (arrayBufferToBase64 bytes) = Return bytes
  /\ String.length (arrayBufferToBase64 bytes)
     = 4 * ((List.length bytes + 2) / 3)
  /\ (forall other : list byte,
         arrayBufferToBase64 other = arrayBufferToBase64 bytes ->
         other = bytes).
Proof.
  split; [apply base64_roundtrip|]. split.
  - unfold arrayBufferToBase64.
    now rewrite btoa_length, length_string_of_list_byte.
  - intros other E.
    pose proof (base64_roundtrip other) as H. rewrite E in H.
    rewrite base64_roundtrip in H. congruence.
Qed.

(** *** Hex digests *)

Lemma hex_cons (b : byte) (bytes : list byte) :
  hex (b :: bytes) = hex_of_byte b ++ hex bytes.
Proof.
  unfold hex. destruct bytes as [|b' bytes]; cbn [map String.concat].
  - now rewrite append_empty_r.
  - reflexivity.
Qed.

Lemma unhex_hex_of_byte (b : byte) (rest : string) :
  unhex (hex_of_byte b ++ rest) = option_map (cons b) (unhex rest).
Proof. destruct b; cbn; now destruct (unhex rest). Qed.

Lemma unhex_hex (bytes : list byte) : unhex (hex bytes) = Some bytes.
Proof.
  induction bytes as [|b bytes IH]; [reflexivity|].
  now rewrite hex_cons, unhex_hex_of_byte, IH.
Qed.

Lemma hex_length (bytes : list byte) :
  String.length (hex bytes) = 2 * List.length bytes.
Proof.
  induction bytes as [|b bytes IH]; [reflexivity|].
  rewrite hex_cons. cbn [hex_of_byte append String.length List.length].
  rewrite IH. lia.
Qed.

Lemma prefix_empty (s : string) : String.prefix "" s = true.
Proof. now destruct s. Qed.

Lemma startsWith_0x (s : string) : startsWith "0x" ("0x" ++ s) = true.
Proof.
  unfold startsWith. cbn [append String.prefix].
  destruct (ascii_dec "0" "0"); [|congruence].
  destruct (ascii_dec "x" "x"); [|congruence].
  apply prefix_empty.
Qed.

(** *** Trimming and the [0x] prefix *)

Lemma trimStart_shape (s : string) :
  trimStart s = ""
  \/ exists c rest, trimStart s = String c rest /\ is_space c = false.
Proof.
  induction s as [|c s IH]; cbn [trimStart]; [now left|].
  destruct (is_space c) eqn:E; [exact IH | right; eauto].
Qed.

Lemma trimEnd_idempotent (s : string) : trimEnd (trimEnd s) = trimEnd s.
Proof.
  induction s as [|c s IH]; [reflexivity|].
  cbn [trimEnd].
  destruct (trimEnd s) as [|d kept] eqn:E.
  - destruct (is_space c) eqn:Ec; [reflexivity|].
    cbn [trimEnd]. now rewrite Ec.
  - cbn [trimEnd]. cbn [trimEnd] in IH.
    destruct (trimEnd kept) as [|e kept'] eqn:Ek.
    + destruct (is_space d); [discriminate IH|]. now rewrite IH.
    + now rewrite IH.
Qed.

Lemma trimEnd_keeps_head (c : ascii) (rest : string) :
  is_space c = false -> exists rest', trimEnd (String c rest) = String c rest'.
Proof.
  intros Hc. cbn [trimEnd].
  destruct (trimEnd rest); [rewrite Hc|]; eauto.
Qed.

Lemma trim_idempotent (s : string) : trim (trim s) = trim s.
Proof.
  unfold trim.
  destruct (trimStart_shape s) as [E | (c & rest & E & Hc)]; rewrite E.
  - reflexivity.
  - destruct (trimEnd_keeps_head rest Hc) as [rest' E'].
    rewrite E'. cbn [trimStart]. rewrite Hc, <- E'.
    apply trimEnd_idempotent.
Qed.

Lemma trim_behind_0x (s : string) : trim ("0x" ++ trim s) = "0x" ++ trim s.
Proof.
  assert (E : trimEnd (trim s) = trim s) by apply trimEnd_idempotent.
  unfold trim at 1. cbn [append trimStart].
  change (is_space "0") with false. cbv iota.
  cbn [trimEnd]. rewrite E.
  now destruct (trim s).
Qed.

(** X9.  Both [normalizePrivateKey] functions, of hybrid-crypto.ts and
    of viem-adapter.ts, are idempotent; the result of the latter always
    starts with [0x]; and the two give the same key unless the trimmed key
    starts with an upper-case [0X]. *)
Theorem normalizePrivateKey_idempotent (privateKey : string) :
  normalizePrivateKey (normalizePrivateKey privateKey)
  = normalizePrivateKey privateKey
  /\ viem_normalizePrivateKey (viem_normalizePrivateKey privateKey)
     = viem_normalizePrivateKey privateKey
  /\ startsWith "0x" (viem_normalizePrivateKey privateKey) = true
  /\ (startsWith "0X" (trim privateKey) = false ->
      normalizePrivateKey privateKey = viem_normalizePrivateKey privateKey).
Proof.
  unfold normalizePrivateKey, viem_normalizePrivateKey.
  split; [|split; [|split]].
  - destruct (startsWith "0x" (trim privateKey) || startsWith "0X" (trim privateKey))
      eqn:E.
    + now rewrite trim_idempotent, E.
    + now rewrite trim_behind_0x, startsWith_0x.
  - destruct (startsWith "0x" (trim privateKey)) eqn:E.
    + now rewrite trim_idempotent, E.
    + now rewrite trim_behind_0x, startsWith_0x.
  - destruct (startsWith "0x" (trim privateKey)) eqn:E;
      [exact E | apply startsWith_0x].
  - intros ->. now rewrite orb_false_r.
Qed.

Section WithPlatform.
Variable pf : Platform.

Local Abbreviation Globals := (Globals pf).

(** X10.  [sha256Hash] writes two lower-case hex digits per byte of the
    digest, and the bytes can be read back from them: two hashes are the
    same string exactly when the digests are the same bytes, so comparing
    hashes, as the integrity check does, compares digests. *)
Theorem sha256Hash_compares_digests (a b : list byte) :
  (sha256Hash pf a = sha256Hash pf b
   <-> digest_SHA256 pf a = digest_SHA256 pf b)
  /\ String.length (sha256Hash pf a) = 2 * List.length (digest_SHA256 pf a)
  /\ unhex (sha256Hash pf a) = Some (digest_SHA256 pf a).
Proof.
  unfold sha256Hash. split; [|split].
  - split; [|congruence].
    intros E. pose proof (unhex_hex (digest_SHA256 pf a)) as H.
    rewrite E, unhex_hex in H. congruence.
  - apply hex_length.
  - apply unhex_hex.
Qed.

(** *** What a decryption that returns has checked *)

Lemma returned_data_passed_check
      (sealed : list byte) (metadata : HybridEncryptionMetadata)
      (privateKey : string) (g : Globals) (data : list byte)
      (fr : Frame pf) :
  hybridDecryptFile pf sealed metadata privateKey (enter pf g)
  = (Return data, fr) ->
  check_originalHash pf metadata data = Return tt.
Proof.
  rewrite hybridDecryptFile_run.
  destruct (negb _); [discriminate|].
  destruct (initLitClient_await pf g) as [[client|t] g1]; [|discriminate].
  destruct (getAuthContext_in pf g1 privateKey) as [ctx|t]; [|discriminate].
  destruct (client_decrypt pf client _ _ _ ctx _) as [key|t]; [|discriminate].
  unfold open_locally.
  destruct (base64ToArrayBuffer (iv metadata)) as [ivb|t]; [|discriminate].
  cbn [Js.bind].
  destruct (aesDecrypt pf sealed key ivb) as [d|t]; [|discriminate].
  cbn [Js.bind].
  destruct (check_originalHash pf metadata d) as [[]|t] eqn:Hc;
    [|discriminate].
  cbn [Js.bind]. now intros [= <- <-].
Qed.

(** X11.  When [hybridDecryptFile] returns data, the metadata carried
    the version [hybrid-v1]; the client was there or could be made, the
    auth context was built from the private key, and [client.decrypt],
    asked with the wrapped key, the key hash, the conditions and the chain
    of the metadata, released a key; the IV of the metadata decoded; the
    data is what AES-GCM made of the sealed file under that very key and
    that IV; the key buffer is that key zeroed; and if the metadata records
    a non-empty [originalHash], the SHA-256 hash of the returned data is
    that hash.  No other data is ever returned, whatever the sealed file,
    the network and the cipher do. *)
Theorem hybridDecryptFile_returns_only_verified_data
        (sealed : list byte) (metadata : HybridEncryptionMetadata)
        (privateKey : string) (g : Globals) (data : list byte) :
  fst (hybridDecryptFile pf sealed metadata privateKey (enter pf g))
  = Return data ->
  version metadata = "hybrid-v1"
  /\ (exists (client : Client pf) (g1 : Globals)
             (authContext : AuthContext pf) (key ivBytes : list byte),
         initLitClient_await pf g = (Return client, g1)
         /\ getAuthContext_in pf g1 privateKey = Return authContext
         /\ client_decrypt pf client (encryptedKey metadata)
              (keyHash metadata)
              (toUnifiedAccessControlConditions
                 (accessControlConditions metadata))
              authContext (chain metadata)
            = Return key
         /\ base64ToArrayBuffer (iv metadata) = Return ivBytes
         /\ aesDecrypt pf sealed key ivBytes = Return data
         /\ check_originalHash pf metadata data = Return tt
         /\ aesKey pf (snd (hybridDecryptFile pf sealed metadata privateKey
                              (enter pf g)))
            = Some (fill0 key))
  /\ (forall h : string,
         originalHash metadata = Some h -> h <> "" ->
         sha256Hash pf data = h).
Proof.
  rewrite hybridDecryptFile_run.
  destruct (String.eqb (version metadata) "hybrid-v1") eqn:Hv;
    cbn [negb]; [|discriminate].
  apply String.eqb_eq in Hv.
  destruct (initLitClient_await pf g) as [[client|t] g1]; [|discriminate].
  destruct (getAuthContext_in pf g1 privateKey) as [ctx|t] eqn:Hctx;
    [|discriminate].
  destruct (client_decrypt pf client _ _ _ ctx _) as [key|t] eqn:Hkey;
    [|discriminate].
  unfold open_locally.
  destruct (base64ToArrayBuffer (iv metadata)) as [ivb|t]; [|discriminate].
  cbn [Js.bind].
  destruct (aesDecrypt pf sealed key ivb) as [d|t] eqn:Hd; [|discriminate].
  cbn [Js.bind].
  destruct (check_originalHash pf metadata d) as [[]|t] eqn:Hc;
    [|discriminate].
  cbn [Js.bind fst snd]. intros [= <-].
  split; [exact Hv|]. split.
  { exists client, g1, ctx, key, ivb. repeat split; assumption. }
  intros h Hh Hne. unfold check_originalHash in Hc. rewrite Hh in Hc.
  unfold string_truthy in Hc.
  apply String.eqb_neq in Hne. rewrite Hne in Hc. cbn [negb] in Hc.
  destruct (String.eqb (sha256Hash pf d) h) eqn:E; [|discriminate].
  now apply String.eqb_eq.
Qed.

(** And every call on which these steps succeed returns the data. *)
Lemma hybridDecryptFile_returns_verified_data
      (sealed : list byte) (metadata : HybridEncryptionMetadata)
      (privateKey : string) (g g1 : Globals) (client : Client pf)
      (authContext : AuthContext pf) (key ivBytes data : list byte) :
  version metadata = "hybrid-v1" ->
  initLitClient_await pf g = (Return client, g1) ->
  getAuthContext_in pf g1 privateKey = Return authContext ->
  client_decrypt pf client (encryptedKey metadata) (keyHash metadata)
    (toUnifiedAccessControlConditions (accessControlConditions metadata))
    authContext (chain metadata)
  = Return key ->
  base64ToArrayBuffer (iv metadata) = Return ivBytes ->
  aesDecrypt pf sealed key ivBytes = Return data ->
  check_originalHash pf metadata data = Return tt ->
  fst (hybridDecryptFile pf sealed metadata privateKey (enter pf g))
  = Return data.
Proof.
  intros Hv Hc Ha Hk Hi Hd Hh.
  rewrite hybridDecryptFile_run, Hv, Hc, Ha, Hk. cbn [negb String.eqb fst].
  unfold open_locally. rewrite Hi. cbn [Js.bind]. rewrite Hd. cbn [Js.bind].
  now rewrite Hh.
Qed.

(** X12.  [hybridDecryptFile] leaves no key behind, however it ends and
    whatever state it starts in: either the network never released a key
    and the call held none, or the buffer it held is overwritten with
    zeros, on a return as on a failure of the base64 decoding, of AES-GCM
    or of the integrity check. *)
Theorem hybridDecryptFile_leaves_no_key
        (sealed : list byte) (metadata : HybridEncryptionMetadata)
        (privateKey : string) (g : Globals) :
  key_zeroed pf
    (snd (hybridDecryptFile pf sealed metadata privateKey (enter pf g)))
  /\ (is_return (fst (hybridDecryptFile pf sealed metadata privateKey
                        (enter pf g))) = true ->
      exists key : list byte,
        aesKey pf (snd (hybridDecryptFile pf sealed metadata privateKey
                          (enter pf g)))
        = Some (fill0 key)).
Proof.
  split; [apply hybridDecryptFile_zeroes_key|].
  rewrite hybridDecryptFile_run.
  destruct (negb _); [discriminate|].
  destruct (initLitClient_await pf g) as [[client|t] g1]; [|discriminate].
  destruct (getAuthContext_in pf g1 privateKey); [|discriminate].
  destruct (client_decrypt pf client _ _ _ _ _) as [key|]; [|discriminate].
  intros _. now exists key.
Qed.

(** *** Random bytes *)

Lemma await_keeps_drawn (g : Globals) :
  drawn pf (snd (initLitClient_await pf g)) = drawn pf g.
Proof.
  unfold initLitClient_await, initLitClient_call, init_settle.
  destruct (litClient pf g), (authManager pf g), (initPromise pf g),
    (createLitClient pf), (createAuthManager pf); reflexivity.
Qed.

(** X13.  Every call of [hybridEncryptFile] takes exactly 44 bytes from
    the random source, 32 for the key and then 12 for the IV, whether it
    returns or throws and wherever it throws; the next call therefore
    draws its key and IV from positions no earlier call has used.  A call
    of [hybridDecryptFile] takes none. *)
Theorem hybridEncryptFile_draws_44_random_bytes
        (file : list byte) (privateKey : string) (chain_arg : option string)
        (sealed : list byte) (metadata : HybridEncryptionMetadata)
        (g : Globals) :
  drawn pf (module_ pf (snd (hybridEncryptFile pf file privateKey chain_arg
                               (enter pf g))))
  = drawn pf g + 44
  /\ drawn_key pf g = map (entropy pf) (seq (drawn pf g) 32)
  /\ drawn_iv pf g = map (entropy pf) (seq (drawn pf g + 32) 12)
  /\ drawn pf (module_ pf (snd (hybridDecryptFile pf sealed metadata
                                  privateKey (enter pf g))))
     = drawn pf g.
Proof.
  split; [|split; [reflexivity|split; [reflexivity|]]].
  - rewrite hybridEncryptFile_run. cbv zeta.
    set (g1 := with_drawn pf (with_drawn pf g AES_KEY_SIZE) AES_IV_SIZE).
    assert (H1 : drawn pf g1 = drawn pf g + 44)
      by (unfold g1, with_drawn, AES_KEY_SIZE, AES_IV_SIZE; cbn; lia).
    pose proof (await_keeps_drawn g1) as H2.
    destruct (aesEncrypt pf file _ _); [|exact H1].
    destruct (initLitClient_await pf g1) as [[client|t] g2];
      cbn [snd] in H2; [|cbn; congruence].
    destruct (getWalletAddressFromPrivateKey pf privateKey);
      [|cbn; congruence].
    destruct (client_encrypt pf client _ _ _); cbn; congruence.
  - rewrite hybridDecryptFile_run.
    pose proof (await_keeps_drawn g) as H2.
    destruct (negb _); [reflexivity|].
    destruct (initLitClient_await pf g) as [[client|t] g1];
      cbn [snd] in H2; [|exact H2].
    destruct (getAuthContext_in pf g1 privateKey); [|exact H2].
    destruct (client_decrypt pf client _ _ _ _ _); exact H2.
Qed.

(** *** Private keys *)

Lemma hexRegex_shape (s : string) :
  test hexRegex s = true
  <-> exists digits : string,
        s = "0x" ++ digits /\ String.length digits = 64
        /\ all hex_class digits = true.
Proof.
  unfold hexRegex. rewrite test_lang, SynapseFacts.lang_prefixed.
  split; intros (digits & E & H); exists digits; (split; [exact E|]).
  - now apply lang_times_class in H.
  - now apply lang_times_class.
Qed.

Lemma hex_digits_no_prefix (digits : string) :
  String.length digits = 64 -> all hex_class digits = true ->
  startsWith "0x" digits = false.
Proof.
  intros Hl Ha.
  destruct digits as [|a [|b rest]]; try discriminate.
  cbn [all] in Ha. apply andb_true_iff in Ha as [_ Ha].
  apply andb_true_iff in Ha as [Hb _].
  unfold startsWith. cbn [String.prefix].
  destruct (ascii_dec "0" a); [|reflexivity].
  destruct (ascii_dec "x" b) as [<-|]; [discriminate Hb | reflexivity].
Qed.

(** X14.  [createViemAccount] hands a key to [privateKeyToAccount] only
    in the form [0x] followed by exactly 64 hex digits, and it does so for
    every key that, once trimmed, is 64 hex digits with or without a
    lower-case [0x] in front; every other key is rejected before the
    wallet library sees it. *)
Theorem createViemAccount_forwards_only_wellformed_keys
        (privateKey : string) :
  (forall account : Account pf,
      createViemAccount pf privateKey = Return account ->
      exists digits : string,
        viem_normalizePrivateKey privateKey = "0x" ++ digits
        /\ String.length digits = 64 /\ all hex_class digits = true
        /\ privateKeyToAccount pf ("0x" ++ digits) = Return account)
  /\ (forall digits : string,
         String.length digits = 64 -> all hex_class digits = true ->
         trim privateKey = digits \/ trim privateKey = "0x" ++ digits ->
         createViemAccount pf privateKey
         = privateKeyToAccount pf ("0x" ++ digits)).
Proof.
  unfold createViemAccount. split.
  - intros account.
    destruct (Nat.eqb _ 66); cbn [negb]; [|discriminate].
    destruct (test hexRegex (viem_normalizePrivateKey privateKey)) eqn:Ht;
      cbn [negb]; [|discriminate].
    apply hexRegex_shape in Ht as (digits & E & Hl & Ha).
    intros H. exists digits. rewrite <- E. auto.
  - intros digits Hl Ha Hk.
    assert (E : viem_normalizePrivateKey privateKey = "0x" ++ digits).
    { unfold viem_normalizePrivateKey.
      destruct Hk as [-> | ->]; [|now rewrite startsWith_0x].
      now rewrite hex_digits_no_prefix. }
    rewrite E.
    replace (String.length ("0x" ++ digits)) with 66
      by (cbn [append String.length]; now rewrite Hl).
    cbn [Nat.eqb negb].
    replace (test hexRegex ("0x" ++ digits)) with true; [reflexivity|].
    symmetry. apply hexRegex_shape. eauto.
Qed.

Lemma upper_prefix_not_lower (s : string) :
  startsWith "0X" s = true -> startsWith "0x" s = false.
Proof.
  unfold startsWith. destruct s as [|a [|b rest]]; cbn [String.prefix];
    try discriminate.
  - destruct (ascii_dec "0" a); discriminate.
  - destruct (ascii_dec "0" a); [|discriminate].
    destruct (ascii_dec "X" b) as [<-|]; [|discriminate].
    intros _. now destruct (ascii_dec "x" "X").
Qed.

Lemma createViemAccount_rejects_upper_prefix (privateKey : string) :
  startsWith "0X" (trim privateKey) = true ->
  exists message : string,
    createViemAccount pf privateKey = Throw (ThrowError message).
Proof.
  intros Hup. unfold createViemAccount.
  destruct (Nat.eqb _ 66); cbn [negb]; [|eauto].
  destruct (test hexRegex (viem_normalizePrivateKey privateKey)) eqn:Ht;
    cbn [negb]; [|eauto].
  exfalso. apply hexRegex_shape in Ht as (digits & E & Hl & Ha).
  unfold viem_normalizePrivateKey in E.
  rewrite (upper_prefix_not_lower Hup) in E.
  injection E as <-.
  unfold startsWith in Hup.
  destruct (trim privateKey) as [|a [|b rest]]; cbn [String.prefix] in Hup;
    try discriminate Hup.
  - destruct (ascii_dec "0" a); discriminate Hup.
  - destruct (ascii_dec "0" a); [|discriminate Hup].
    destruct (ascii_dec "X" b) as [<-|]; [|discriminate Hup].
    cbn in Ha. rewrite andb_false_r in Ha. discriminate Ha.
Qed.

(** X15.  A private key written with an upper-case [0X] prefix is taken
    as it is by [normalizePrivateKey] of hybrid-crypto.ts, which
    encryption uses, and is rejected by [createViemAccount], which
    decryption uses: [hybridDecryptFile] never returns with such a key,
    whatever the file, the metadata and the state. *)
Theorem upper_case_prefix_key_never_decrypts
        (privateKey : string) (sealed : list byte)
        (metadata : HybridEncryptionMetadata) (g : Globals) :
  startsWith "0X" (trim privateKey) = true ->
  normalizePrivateKey privateKey = trim privateKey
  /\ (exists message : string,
         createViemAccount pf privateKey = Throw (ThrowError message))
  /\ is_return (fst (hybridDecryptFile pf sealed metadata privateKey
                       (enter pf g))) = false.
Proof.
  intros Hup. split; [|split].
  - unfold normalizePrivateKey. rewrite Hup. now rewrite orb_true_r.
  - now apply createViemAccount_rejects_upper_prefix.
  - destruct (createViemAccount_rejects_upper_prefix Hup) as [m Hm].
    rewrite hybridDecryptFile_run.
    destruct (negb _); [reflexivity|].
    destruct (initLitClient_await pf g) as [[client|t] g1] eqn:Hi;
      [|reflexivity].
    apply await_success in Hi as (Hc & a & Ha).
    unfold getAuthContext_in. now rewrite Hc, Ha, Hm.
Qed.

(** *** Disconnecting *)

(** X16.  After [disconnectLitClient] the module is not connected,
    whatever [disconnect()] of the SDK did.  From a state with a client,
    that client and no other was asked to disconnect, and the next
    [initLitClient] starts a new initialisation.  From a state with an
    initialisation in flight nothing happens at all: the initialisation is
    not cancelled and settles as if nobody had disconnected. *)
Theorem disconnectLitClient_effect
        (closing : Client pf -> completion unit) (s : Sys pf) :
  reachable pf s ->
  isLitClientConnected pf
    (snd (disconnectLitClient pf closing (globals pf s))) = false
  /\ (forall c : Client pf,
         litClient pf (globals pf s) = Some c ->
         fst (disconnectLitClient pf closing (globals pf s)) = [c]
         /\ fst (initLitClient_call pf
                   (snd (disconnectLitClient pf closing (globals pf s))))
            = Pending pf (created pf (globals pf s)))
  /\ (forall p : nat,
         In p (inflight pf s) ->
         disconnectLitClient pf closing (globals pf s) = ([], globals pf s)).
Proof.
  intros Hr. apply reachable_phase in Hr.
  unfold disconnectLitClient.
  destruct Hr as [Hc Ha Hp Hi | p Hc Ha Hp Hi | c a Hc Ha Hp Hi];
    rewrite Hc.
  - split; [|split].
    + unfold isLitClientConnected. cbn [snd]. now rewrite Hc.
    + discriminate.
    + reflexivity.
  - split; [|split].
    + unfold isLitClientConnected. cbn [snd]. now rewrite Hc.
    + discriminate.
    + reflexivity.
  - split; [|split].
    + now destruct (closing c).
    + intros c' [= <-]. now destruct (closing c).
    + rewrite Hi. intros p [].
Qed.

(** *** The type guard and the decoder *)

(** X17.  On a parsed metadata value that passes the type guard
    [isHybridMetadata], [deserializeHybridMetadata] succeeds exactly when
    none of [encryptedKey], [keyHash] and [iv] is the empty string, and
    then it returns the parsed value: the guard accepts values the decoder
    rejects. *)
Theorem type_guard_weaker_than_decoder (text : string) (parsed : JSON) :
  JSON_parse pf text = Return parsed ->
  isHybridMetadata (Some parsed) = true ->
  (deserializeHybridMetadata pf text = Return parsed
   <-> nonempty_string (field parsed "encryptedKey")
       && nonempty_string (field parsed "keyHash")
       && nonempty_string (field parsed "iv") = true)
  /\ (is_return (deserializeHybridMetadata pf text) = true
      -> deserializeHybridMetadata pf text = Return parsed).
Proof.
  intros Hp Hg. unfold deserializeHybridMetadata. rewrite Hp. cbn [Js.bind].
  destruct parsed as [ | | | | |fields]; try discriminate Hg.
  cbn [isHybridMetadata] in Hg. cbn [get field Js.bind].
  apply andb_true_iff in Hg as [Hg Hiv].
  apply andb_true_iff in Hg as [Hg Hkh].
  apply andb_true_iff in Hg as [Hv Hek].
  rewrite Hv. cbn [negb].
  destruct (assoc "encryptedKey" fields) as [[]|]; try discriminate Hek.
  destruct (assoc "keyHash" fields) as [[]|]; try discriminate Hkh.
  destruct (assoc "iv" fields) as [[]|]; try discriminate Hiv.
  cbn [truthy nonempty_string].
  destruct (negb (String.eqb _ "")), (negb (String.eqb _ "")),
    (negb (String.eqb _ "")); cbn; split; try split; intros; 
    try reflexivity; try discriminate.
Qed.

End WithPlatform.

(** *** On the small platform *)

(** Decrypting the sealed [Hello, Haven!]. *)
Lemma hybridDecryptFile_returns_only_verified_data_witness :
  version (metadata (fst Toy.hello_sealed)) = "hybrid-v1"
  /\ (exists (client : Client Toy.online) (g1 : Globals Toy.online)
             (authContext : AuthContext Toy.online)
             (key ivBytes : list byte),
         initLitClient_await Toy.online
           (module_ Toy.online (snd Toy.hello_sealed))
         = (Return client, g1)
         /\ getAuthContext_in Toy.online g1 Toy.TEST_PRIVATE_KEY
            = Return authContext
         /\ client_decrypt Toy.online client
              (encryptedKey (metadata (fst Toy.hello_sealed)))
              (keyHash (metadata (fst Toy.hello_sealed)))
              (toUnifiedAccessControlConditions
                 (accessControlConditions (metadata (fst Toy.hello_sealed))))
              authContext (chain (metadata (fst Toy.hello_sealed)))
            = Return key
         /\ base64ToArrayBuffer (iv (metadata (fst Toy.hello_sealed)))
            = Return ivBytes
         /\ aesDecrypt Toy.online (encryptedFile (fst Toy.hello_sealed)) key
              ivBytes
            = Return Toy.hello
         /\ check_originalHash Toy.online (metadata (fst Toy.hello_sealed))
              Toy.hello
            = Return tt
         /\ aesKey Toy.online
              (snd (hybridDecryptFile Toy.online
                      (encryptedFile (fst Toy.hello_sealed))
                      (metadata (fst Toy.hello_sealed)) Toy.TEST_PRIVATE_KEY
                      (enter Toy.online
                         (module_ Toy.online (snd Toy.hello_sealed)))))
            = Some (fill0 key))
  /\ (forall h : string,
         originalHash (metadata (fst Toy.hello_sealed)) = Some h -> h <> "" ->
         sha256Hash Toy.online Toy.hello = h).
Proof.
  apply (@hybridDecryptFile_returns_only_verified_data Toy.online
           (encryptedFile (fst Toy.hello_sealed))
           (metadata (fst Toy.hello_sealed)) Toy.TEST_PRIVATE_KEY
           (module_ Toy.online (snd Toy.hello_sealed)) Toy.hello).
  vm_compute. reflexivity.
Defined.

(** Decrypting the sealed [Hello, Haven!] leaves 32 zero bytes. *)
Lemma hybridDecryptFile_leaves_no_key_witness :
  exists key : list byte,
    aesKey Toy.online
      (snd (hybridDecryptFile Toy.online
              (encryptedFile (fst Toy.hello_sealed))
              (metadata (fst Toy.hello_sealed)) Toy.TEST_PRIVATE_KEY
              (enter Toy.online (module_ Toy.online (snd Toy.hello_sealed)))))
    = Some (fill0 key).
Proof.
  apply (@hybridDecryptFile_leaves_no_key Toy.online
           (encryptedFile (fst Toy.hello_sealed))
           (metadata (fst Toy.hello_sealed)) Toy.TEST_PRIVATE_KEY
           (module_ Toy.online (snd Toy.hello_sealed))).
  vm_compute. reflexivity.
Defined.

(** The key of the repository's tests, without its prefix. *)
Lemma createViemAccount_forwards_only_wellformed_keys_witness :
  createViemAccount Toy.online
    " 1234567890abcdef1234567890abcdef1234567890abcdef1234567890abcdef "
  = privateKeyToAccount Toy.online Toy.TEST_PRIVATE_KEY.
Proof.
  apply (proj2 (@createViemAccount_forwards_only_wellformed_keys Toy.online
                  " 1234567890abcdef1234567890abcdef1234567890abcdef1234567890abcdef ")
           "1234567890abcdef1234567890abcdef1234567890abcdef1234567890abcdef");
    [reflexivity | reflexivity | left; reflexivity].
Defined.

(** The same key with its prefix in upper case. *)
Lemma upper_case_prefix_key_never_decrypts_witness :
  is_return
    (fst (hybridDecryptFile Toy.online (encryptedFile (fst Toy.hello_sealed))
            (metadata (fst Toy.hello_sealed))
            "0X1234567890abcdef1234567890abcdef1234567890abcdef1234567890abcdef"
            (enter Toy.online (module_ Toy.online (snd Toy.hello_sealed)))))
  = false.
Proof.
  apply (@upper_case_prefix_key_never_decrypts Toy.online
           "0X1234567890abcdef1234567890abcdef1234567890abcdef1234567890abcdef"
           (encryptedFile (fst Toy.hello_sealed))
           (metadata (fst Toy.hello_sealed))
           (module_ Toy.online (snd Toy.hello_sealed))).
  reflexivity.
Defined.

Lemma normalizePrivateKey_idempotent_witness :
  normalizePrivateKey " abcd " = viem_normalizePrivateKey " abcd ".
Proof.
  apply (@normalizePrivateKey_idempotent " abcd "). reflexivity.
Defined.

(** Disconnecting after one initialisation has settled. *)
Lemma disconnectLitClient_effect_witness :
  isLitClientConnected Toy.online
    (snd (disconnectLitClient Toy.online (fun _ => Throw (ThrowError "closed"))
            (globals Toy.online
               (sys_settle Toy.online 0 (Return tt) (Return tt)
                  (sys_call Toy.online (sys_initial Toy.online))))))
  = false.
Proof.
  apply (@disconnectLitClient_effect Toy.online
           (fun _ => Throw (ThrowError "closed"))
           (sys_settle Toy.online 0 (Return tt) (Return tt)
              (sys_call Toy.online (sys_initial Toy.online)))).
  apply reach_settle; [apply reach_call, reach_initial | left; reflexivity].
Defined.

(** The metadata text with an empty wrapped key passes the guard and is
    rejected by the decoder. *)
Lemma type_guard_weaker_than_decoder_witness :
  deserializeHybridMetadata Toy.online (Toy.metadata_text "")
  = Return (Toy.metadata_value "")
  <-> nonempty_string (field (Toy.metadata_value "") "encryptedKey")
      && nonempty_string (field (Toy.metadata_value "") "keyHash")
      && nonempty_string (field (Toy.metadata_value "") "iv") = true.
Proof.
  apply (@type_guard_weaker_than_decoder Toy.online (Toy.metadata_text "")
           (Toy.metadata_value ""));
    reflexivity.
Defined.

End EngineFacts.

(* ====================================================================== *)
(** ** More on the Lit wrapper *)
(* ====================================================================== *)

Module WrapperFacts.

Import Base64 Base64Facts RegexFacts HybridCrypto HybridCryptoFacts.
Import HybridCryptoSupport LitWrapper LitWrapperOps EngineFacts.

(** *** What [TextEncoder] makes of a binary string *)

Lemma utf8_unit_byte (b : byte) :
  utf8_unit (ascii_of_byte b)
  = if high b
    then [byte_of_N (192 + Byte.to_N b / 64);
          byte_of_N (128 + Byte.to_N b mod 64)]
    else [b].
Proof. destruct b; reflexivity. Qed.

Lemma encode_length (bytes : list byte) :
  List.length (TextEncoder_encode (string_of_list_byte bytes))
  = List.length bytes + count_high bytes.
Proof.
  unfold string_of_list_byte, count_high.
  induction bytes as [|b bytes IH]; [reflexivity|].
  cbn [map string_of_list_ascii TextEncoder_encode filter].
  rewrite List.length_app, IH, utf8_unit_byte.
  destruct (high b); cbn [List.length]; lia.
Qed.

Lemma encode_low (bytes : list byte) :
  count_high bytes = 0 ->
  TextEncoder_encode (string_of_list_byte bytes) = bytes.
Proof.
  unfold string_of_list_byte, count_high.
  induction bytes as [|b bytes IH]; [reflexivity|].
  cbn [map string_of_list_ascii TextEncoder_encode filter].
  rewrite utf8_unit_byte.
  destruct (high b); cbn [List.length]; [discriminate|].
  intros H. cbn [app]. now rewrite IH.
Qed.

Lemma btoa_nonempty (a : ascii) (s : string) : btoa (String a s) <> "".
Proof.
  intros E. pose proof (btoa_length (String a s)) as H. rewrite E in H.
  cbn [String.length] in H.
  assert (1 <= (S (String.length s) + 2) / 3).
  { apply Nat.div_le_lower_bound; lia. }
  lia.
Qed.

Section WithPlatform.
Variable pf : Platform.
Variable JSON_stringify : list EvmBasicAccessControlCondition -> string.
Variable now : Z.
Variable env : string -> option string.
Variable max_arguments : nat.
Variable readFile : string -> completion (list byte).
Variable writeFile : string -> list byte -> completion unit.
Variable JSON_stringify_metadata : HybridEncryptionMetadata -> string.
Variable TextDecoder_decode : list byte -> string.
Variable as_metadata : JSON -> HybridEncryptionMetadata.

Local Abbreviation decrypt := (LitWrapperOps.decrypt pf env max_arguments).
Local Abbreviation encryptFile :=
  (LitWrapperOps.encryptFile pf env readFile writeFile JSON_stringify_metadata).
Local Abbreviation decryptFile :=
  (LitWrapperOps.decryptFile pf env readFile writeFile TextDecoder_decode
     as_metadata).

(** X18.  [encrypt] does not send the bytes it was given.  For a payload
    passed as base64 it sends the UTF-8 encoding of the binary string
    [atob] returns: one byte more for every payload byte above 127, so the
    network sees the caller's bytes exactly when all of them are below
    128. *)
Theorem encrypt_sends_utf8_of_payload
        (c : Client pf) (payload : list byte)
        (conditions : list EvmBasicAccessControlCondition)
        (chain_arg : option string) :
  payload <> [] -> conditions <> [] ->
  exists sent : list byte,
    fst (encrypt_with pf JSON_stringify c
           {| data := Some (arrayBufferToBase64 payload);
              param_accessControlConditions := Some conditions;
              param_chain := chain_arg |})
    = [CallEncrypt pf c sent (toUnifiedAccessControlConditions conditions)
         (nullish chain_arg "ethereum")]
    /\ sent = TextEncoder_encode (string_of_list_byte payload)
    /\ List.length sent = List.length payload + count_high payload
    /\ (sent = payload <-> count_high payload = 0).
Proof.
  intros Hp Hc.
  exists (TextEncoder_encode (string_of_list_byte payload)).
  split; [|split; [reflexivity|split; [apply encode_length|]]].
  - unfold encrypt_with, arrayBufferToBase64.
    cbn [data param_accessControlConditions param_chain].
    destruct payload as [|b payload]; [congruence|].
    destruct conditions as [|cond conditions]; [congruence|].
    change (string_of_list_byte (b :: payload))
      with (String (ascii_of_byte b) (string_of_list_byte payload)).
    pose proof (@btoa_nonempty (ascii_of_byte b) (string_of_list_byte payload))
      as Hne.
    pose proof (atob_btoa (String (ascii_of_byte b)
                             (string_of_list_byte payload))) as Hrt.
    destruct (btoa _) as [|x text]; [congruence|].
    rewrite Hrt.
    now destruct (client_encrypt pf c _ _ _).
  - split.
    + intros E. pose proof (encode_length payload) as H.
      rewrite E in H. lia.
    + apply encode_low.
Qed.

(** *** [decrypt] *)

(** X19.  When [decrypt] returns, the private key came from the
    parameters or the environment and was accepted by
    [createViemAccount], the network was asked twice, for an auth context
    and then to decrypt, and the text returned is base64 that decodes to
    exactly the bytes the network released.  Those bytes were no more than
    the number of arguments a call can spread: a longer plaintext makes
    [decrypt] fail after the network has released it. *)
Theorem decrypt_returns_base64_of_released_bytes
        (w : Wrapper pf) (g : Globals pf) (params : DecryptParams)
        (text : string) :
  snd (decrypt w g params) = Return text ->
  exists (c : Client pf) (a : AuthManager pf) (privateKey : string)
         (account : Account pf) (authContext : AuthContext pf)
         (ciphertext dataToEncryptHash : string)
         (conditions : list EvmBasicAccessControlCondition)
         (bytes : list byte),
    getPrivateKey env params = Return privateKey
    /\ createViemAccount pf privateKey = Return account
    /\ fst (decrypt w g params)
       = [SignIn pf a account c;
          Decrypt pf c ciphertext dataToEncryptHash
            (toUnifiedAccessControlConditions conditions) authContext
            (nullish (decrypt_chain params) "ethereum")]
    /\ client_decrypt pf c ciphertext dataToEncryptHash
         (toUnifiedAccessControlConditions conditions) authContext
         (nullish (decrypt_chain params) "ethereum")
       = Return bytes
    /\ List.length bytes <= max_arguments
    /\ text = arrayBufferToBase64 bytes
    /\ base64ToArrayBuffer text = Return bytes.
Proof.
  unfold LitWrapperOps.decrypt, createAuthContext.
  destruct (isConnected pf w g); [|discriminate].
  destruct (client pf w) as [c|]; [|discriminate].
  destruct (wrapper_authManager pf w) as [a|]; [|discriminate].
  destruct (present (param_ciphertext params)) as [ciphertext|];
    [|discriminate].
  destruct (present (param_dataToEncryptHash params)) as [hash|];
    [|discriminate].
  destruct (decrypt_accessControlConditions params) as [[|cond conds]|];
    try discriminate.
  destruct (getPrivateKey env params) as [privateKey|]; [|discriminate].
  destruct (createViemAccount pf privateKey) as [account|] eqn:Hacc;
    [|discriminate].
  destruct (createEoaAuthContext pf a account c) as [ctx|]; [|discriminate].
  destruct (client_decrypt pf c _ _ _ ctx _) as [bytes|] eqn:Hd;
    [|discriminate].
  unfold fromCharCode_spread.
  destruct (Nat.leb (List.length bytes) max_arguments) eqn:Hl;
    [|discriminate].
  cbn [fst snd]. intros [= <-].
  exists c, a, privateKey, account, ctx, ciphertext, hash, (cond :: conds),
    bytes.
  apply Nat.leb_le in Hl.
  repeat split; auto. apply base64_roundtrip.
Qed.

(** *** Sessions *)

(** X20.  [getSession] reports an active session exactly when the
    wrapper is connected and the clock is before the expiry a successful
    [connect] has set; after a [connect] that failed and after
    [disconnect] it reports none, whatever the clock and the module
    state, although a failed reconnect leaves the old expiry in place. *)
Theorem getSession_active_only_while_connected
        (w : Wrapper pf) (g g' : Globals pf) (clock : Z)
        (oc : completion (Client pf)) (oa : completion (AuthManager pf))
        (params : ConnectParams) (closing : Client pf -> completion unit) :
  (active (getSession pf w g clock) = true
   <-> isConnected pf w g = true
       /\ exists expiry : Z,
            _sessionExpiry pf w = Some expiry /\ (clock < expiry)%Z)
  /\ (is_return (fst (connect pf now oc oa w params)) = true ->
      isLitClientConnected pf g' = true ->
      active (getSession pf (snd (connect pf now oc oa w params)) g' clock)
      = (clock <? now + 3600000)%Z)
  /\ (is_return (fst (connect pf now oc oa w params)) = false ->
      getSession pf (snd (connect pf now oc oa w params)) g' clock
      = inactive)
  /\ getSession pf (snd (fst (disconnect pf closing w g))) g' clock
     = inactive.
Proof.
  split; [|split; [|split]].
  - unfold getSession.
    destruct (isConnected pf w g).
    + destruct (_sessionExpiry pf w) as [e|].
      * destruct (Z.leb_spec e clock); cbn; split.
        -- discriminate.
        -- intros (_ & e' & [= <-] & H'). lia.
        -- eauto.
        -- reflexivity.
      * cbn. split; [discriminate|]. now intros (_ & e' & E & _).
    + cbn. split; [discriminate|]. now intros [E _].
  - unfold connect.
    destruct oc as [c|t]; [destruct oa as [a|t]|]; try discriminate.
    intros _ Hg. unfold getSession, isConnected. cbn. rewrite Hg. cbn.
    destruct (Z.leb_spec (now + 3600000) clock), (Z.ltb_spec clock (now + 3600000));
      try reflexivity; lia.
  - unfold connect.
    destruct oc as [c|t]; [destruct oa as [a|t]|]; try discriminate;
      intros _; reflexivity.
  - unfold disconnect.
    destruct (match client pf w with
              | Some _ => disconnectLitClient pf closing g
              | None => ([], g)
              end) as [closed g1].
    reflexivity.
Qed.

(** X21.  A successful [connect] does not by itself make the wrapper
    usable: it creates a client of the wrapper's own and leaves the module
    state of hybrid-crypto.ts alone, and [isConnected] asks for both.  As
    long as nothing has initialised the module's client, every method of
    the wrapper reports [Lit Protocol not connected] and [getSession]
    reports no session, and no request leaves the process. *)
Theorem connect_alone_leaves_wrapper_unusable
        (w : Wrapper pf) (g : Globals pf)
        (oc : completion (Client pf)) (oa : completion (AuthManager pf))
        (params : ConnectParams) :
  isLitClientConnected pf g = false ->
  let w' := snd (connect pf now oc oa w params) in
  isConnected pf w' g = false
  /\ (forall p, LitWrapper.encrypt pf JSON_stringify w' g p
                = ([], Throw not_connected))
  /\ (forall p, decrypt w' g p = ([], Throw not_connected))
  /\ (forall p, encryptFile w' g p = ([], Throw not_connected, g))
  /\ (forall p, decryptFile w' g p = ([], Throw not_connected, g))
  /\ (forall clock, getSession pf w' g clock = inactive).
Proof.
  intros Hg w'.
  assert (H : isConnected pf w' g = false).
  { unfold isConnected. rewrite Hg. apply andb_false_r. }
  split; [exact H|].
  unfold LitWrapper.encrypt, LitWrapperOps.decrypt, LitWrapperOps.encryptFile,
    LitWrapperOps.decryptFile, getSession.
  rewrite H. repeat split.
Qed.

(** *** The file methods *)

(** X22.  [decryptFile] writes at most one file, the output, and only
    with data that [hybridDecryptFile] returned for the two files read:
    data of a [hybrid-v1] metadata that passed the [originalHash] check.
    So the [integrityCheck] the result reports is always [true]; a file
    that fails the check is never written and the call throws. *)
Theorem decryptFile_writes_only_verified_data
        (w : Wrapper pf) (g : Globals pf) (params : DecryptFileParams) :
  (forall (path : string) (data : list byte),
      In (WriteFile path data) (fst (fst (decryptFile w g params))) ->
      present (param_outputPath params) = Some path
      /\ exists (sealed : list byte) (parsed : JSON) (privateKey : string),
           fst (hybridDecryptFile pf sealed (as_metadata parsed) privateKey
                  (enter pf g)) = Return data
           /\ check_originalHash pf (as_metadata parsed) data = Return tt)
  /\ (forall r : LitDecryptFileResult,
         snd (fst (decryptFile w g params)) = Return r ->
         integrityCheck r = true
         /\ exists data,
              In (WriteFile (outputPath r) data)
                 (fst (fst (decryptFile w g params)))
              /\ size r = List.length data).
Proof.
  unfold LitWrapperOps.decryptFile.
  destruct (negb (isConnected pf w g));
    [split; [intros ? ? [] | discriminate]|].
  destruct (present (param_encryptedFilePath params)) as [enc|];
    [|split; [intros ? ? [] | discriminate]].
  destruct (present (param_outputPath params)) as [out|];
    [|split; [intros ? ? [] | discriminate]].
  destruct (first_present (param_privateKey params) _) as [privateKey|];
    [|split; [intros ? ? [] | discriminate]].
  destruct (readFile enc) as [sealed|];
    [|split; [intros ? ? [|[]]; discriminate | discriminate]].
  set (metaPath := match present (param_metadataPath params) with
                   | Some path => path
                   | None => enc ++ ".meta.json"
                   end).
  assert (Hreads : forall path data,
             In (WriteFile path data) [ReadFile enc; ReadFile metaPath]
             -> False).
  { intros path data [|[|[]]]; discriminate. }
  destruct (readFile metaPath) as [metadataBytes|];
    [|split; [intros ? ? Hin; destruct (Hreads _ _ Hin) | discriminate]].
  destruct (deserializeHybridMetadata pf _) as [parsed|];
    [|split; [intros ? ? Hin; destruct (Hreads _ _ Hin) | discriminate]].
  destruct (hybridDecryptFile pf sealed (as_metadata parsed) privateKey
              (enter pf g)) as [[d|t] fr] eqn:Hd;
    [|split; [intros ? ? Hin; destruct (Hreads _ _ Hin) | discriminate]].
  pose proof (returned_data_passed_check Hd) as Hcheck.
  assert (Hwrite : forall path data,
             In (WriteFile path data)
                ([ReadFile enc; ReadFile metaPath] ++ [WriteFile out d])
             -> Some out = Some path
                /\ exists sealed0 parsed0 privateKey0,
                     fst (hybridDecryptFile pf sealed0 (as_metadata parsed0)
                            privateKey0 (enter pf g)) = Return data
                     /\ check_originalHash pf (as_metadata parsed0) data
                        = Return tt).
  { intros path data Hin. apply in_app_or in Hin as [Hin | [[= <- <-] | []]].
    - destruct (Hreads _ _ Hin).
    - split; [reflexivity|]. exists sealed, parsed, privateKey.
      now rewrite Hd. }
  destruct (writeFile out d) as [[]|]; cbn [fst snd];
    (split; [exact Hwrite|]); [|discriminate].
  intros r [= <-]. cbn [integrityCheck outputPath size]. split.
  - unfold check_originalHash, sha256Hash in Hcheck.
    destruct (originalHash (as_metadata parsed)) as [h|]; [|reflexivity].
    destruct (string_truthy h); [|reflexivity].
    now destruct (String.eqb _ h).
  - exists d. split; [|reflexivity]. cbn. auto.
Qed.

Lemma longer_path_differs (f suffix : string) :
  suffix <> "" -> f ++ suffix <> f.
Proof.
  intros Hs E. apply (f_equal String.length) in E.
  rewrite RegexFacts.length_app in E. destruct suffix; [congruence|].
  cbn [String.length] in E. lia.
Qed.

(** X23.  [encryptFile] never writes to the file it encrypts.  It writes
    only after [hybridEncryptFile] has returned, first the sealed bytes to
    [<file>.encrypted] and then the metadata to
    [<file>.encrypted.meta.json]; when it returns both were written, in
    that order, and the sizes it reports are those of the file that was
    read and of the sealed bytes that were written. *)
Theorem encryptFile_writes_beside_its_input
        (w : Wrapper pf) (g : Globals pf) (params : EncryptFileParams) :
  (forall (path : string) (data : list byte),
      In (WriteFile path data) (fst (fst (encryptFile w g params))) ->
      exists (file : string) (plain : list byte) (privateKey : string)
             (r : HybridEncryptionResult),
        present (filePath params) = Some file
        /\ path <> file
        /\ readFile file = Return plain
        /\ fst (hybridEncryptFile pf plain privateKey
                  (Some (nullish (file_chain params) "ethereum"))
                  (enter pf g))
           = Return r
        /\ (path = file ++ ".encrypted" /\ data = encryptedFile r
            \/ path = (file ++ ".encrypted") ++ ".meta.json"
               /\ data = TextEncoder_encode
                           (JSON_stringify_metadata (metadata r))))
  /\ (forall res : LitEncryptFileResult,
         snd (fst (encryptFile w g params)) = Return res ->
         exists (file : string) (plain sealed : list byte),
           readFile file = Return plain
           /\ fst (fst (encryptFile w g params))
              = [ReadFile file;
                 WriteFile (encryptedFilePath res) sealed;
                 WriteFile (metadataPath res)
                   (TextEncoder_encode
                      (JSON_stringify_metadata (file_metadata res)))]
           /\ encryptedFilePath res = file ++ ".encrypted"
           /\ metadataPath res = encryptedFilePath res ++ ".meta.json"
           /\ originalSize_ res = List.length plain
           /\ encryptedSize res = List.length sealed).
Proof.
  unfold LitWrapperOps.encryptFile.
  destruct (negb (isConnected pf w g));
    [split; [intros ? ? [] | discriminate]|].
  destruct (present (filePath params)) as [file|];
    [|split; [intros ? ? [] | discriminate]].
  destruct (first_present (file_privateKey params) _) as [privateKey|];
    [|split; [intros ? ? [] | discriminate]].
  destruct (readFile file) as [plain|] eqn:Hread;
    [|split; [intros ? ? [|[]]; discriminate | discriminate]].
  destruct (hybridEncryptFile pf plain privateKey _ (enter pf g))
    as [[r|t] fr] eqn:Henc;
    [|split; [intros ? ? [|[]]; discriminate | discriminate]].
  assert (Hw : forall path data,
             In (WriteFile path data)
                [ReadFile file; WriteFile (file ++ ".encrypted")
                                  (encryptedFile r);
                 WriteFile ((file ++ ".encrypted") ++ ".meta.json")
                   (TextEncoder_encode
                      (JSON_stringify_metadata (metadata r)))] ->
             exists file0 plain0 privateKey0 r0,
               Some file = Some file0
               /\ path <> file0
               /\ readFile file0 = Return plain0
               /\ fst (hybridEncryptFile pf plain0 privateKey0
                         (Some (nullish (file_chain params) "ethereum"))
                         (enter pf g)) = Return r0
               /\ (path = file0 ++ ".encrypted" /\ data = encryptedFile r0
                   \/ path = (file0 ++ ".encrypted") ++ ".meta.json"
                      /\ data = TextEncoder_encode
                                  (JSON_stringify_metadata (metadata r0)))).
  { intros path data [|[[= <- <-]|[[= <- <-]|[]]]]; [discriminate| |];
      exists file, plain, privateKey, r;
      (split; [reflexivity|]); (split; [|rewrite Henc; auto]).
    - now apply longer_path_differs.
    - rewrite StringFacts.append_assoc. now apply longer_path_differs. }
  destruct (writeFile (file ++ ".encrypted") (encryptedFile r)) as [[]|].
  - destruct (writeFile _ _) as [[]|]; cbn [fst snd];
      (split; [exact Hw|]); [|discriminate].
    intros res [= <-]. exists file, plain, (encryptedFile r).
    cbn. auto 10.
  - cbn [fst snd]. split; [|discriminate].
    intros path data Hin. apply Hw.
    destruct Hin as [Hin | [Hin | []]]; [left | right; left]; exact Hin.
Qed.

End WithPlatform.

(** *** On the small platform *)

(** A payload of one byte, 255. *)
Lemma encrypt_sends_utf8_of_payload_witness :
  exists sent : list byte,
    fst (encrypt_with Toy.online (fun _ => "[]") tt
           {| data := Some (arrayBufferToBase64 [Byte.xff]);
              param_accessControlConditions := Some ToyFiles.owner_only;
              param_chain := None |})
    = [CallEncrypt Toy.online tt sent
         (toUnifiedAccessControlConditions ToyFiles.owner_only)
         (nullish None "ethereum")]
    /\ sent = TextEncoder_encode (string_of_list_byte [Byte.xff])
    /\ List.length sent = List.length [Byte.xff] + count_high [Byte.xff]
    /\ (sent = [Byte.xff] <-> count_high [Byte.xff] = 0).
Proof.
  apply (@encrypt_sends_utf8_of_payload Toy.online (fun _ => "[]") tt
           [Byte.xff] ToyFiles.owner_only None);
    discriminate.
Defined.

(** The connected wrapper decrypts with the key of the environment. *)
Lemma decrypt_returns_base64_of_released_bytes_witness :
  exists (c : Client Toy.online) (a : AuthManager Toy.online)
         (privateKey : string) (account : Account Toy.online)
         (authContext : AuthContext Toy.online)
         (ciphertext dataToEncryptHash : string)
         (conditions : list EvmBasicAccessControlCondition)
         (bytes : list byte),
    getPrivateKey ToyFiles.env ToyFiles.decrypt_params = Return privateKey
    /\ createViemAccount Toy.online privateKey = Return account
    /\ fst (LitWrapperOps.decrypt Toy.online ToyFiles.env 4096
              Toy.connected_wrapper Toy.ready ToyFiles.decrypt_params)
       = [SignIn Toy.online a account c;
          Decrypt Toy.online c ciphertext dataToEncryptHash
            (toUnifiedAccessControlConditions conditions) authContext
            (nullish (decrypt_chain ToyFiles.decrypt_params) "ethereum")]
    /\ client_decrypt Toy.online c ciphertext dataToEncryptHash
         (toUnifiedAccessControlConditions conditions) authContext
         (nullish (decrypt_chain ToyFiles.decrypt_params) "ethereum")
       = Return bytes
    /\ List.length bytes <= 4096
    /\ "aGVsbG8=" = arrayBufferToBase64 bytes
    /\ base64ToArrayBuffer "aGVsbG8=" = Return bytes.
Proof.
  apply (@decrypt_returns_base64_of_released_bytes Toy.online ToyFiles.env
           4096 Toy.connected_wrapper Toy.ready ToyFiles.decrypt_params
           "aGVsbG8=").
  vm_compute. reflexivity.
Defined.

(** A connect that succeeds at time 0, seen half an hour later. *)
Lemma getSession_active_only_while_connected_witness :
  active (getSession Toy.online
            (snd (connect Toy.online 0 (Return tt) (Return tt)
                    (createLitWrapper Toy.online)
                    {| network := None; networkMode := None;
                       debug := None |}))
            Toy.ready 1800000)
  = (1800000 <? 0 + 3600000)%Z.
Proof.
  apply (@getSession_active_only_while_connected Toy.online 0
           (createLitWrapper Toy.online) Toy.ready Toy.ready 1800000
           (Return tt) (Return tt)
           {| network := None; networkMode := None; debug := None |}
           (fun _ => Return tt));
    reflexivity.
Defined.

(** A new process: connect succeeds, and encrypt still refuses. *)
Lemma connect_alone_leaves_wrapper_unusable_witness :
  isConnected Toy.online
    (snd (connect Toy.online 0 (Return tt) (Return tt)
            (createLitWrapper Toy.online)
            {| network := None; networkMode := None; debug := None |}))
    (initial Toy.online)
  = false.
Proof.
  apply (@connect_alone_leaves_wrapper_unusable Toy.online (fun _ => "[]") 0
           ToyFiles.env 4096 ToyFiles.readFile ToyFiles.writeFile
           ToyFiles.stringify string_of_list_byte ToyFiles.as_metadata
           (createLitWrapper Toy.online) (initial Toy.online)
           (Return tt) (Return tt)
           {| network := None; networkMode := None; debug := None |}).
  reflexivity.
Defined.

(** Decrypting the sealed [Hello, Haven!] from its two files. *)
Lemma decryptFile_writes_only_verified_data_witness :
  integrityCheck
    {| outputPath := "/tmp/hello.out"; size := 13; integrityCheck := true |}
  = true
  /\ exists data,
       In (WriteFile
             (outputPath {| outputPath := "/tmp/hello.out"; size := 13;
                            integrityCheck := true |}) data)
          (fst (fst (LitWrapperOps.decryptFile Toy.online ToyFiles.env
                       ToyFiles.readFile ToyFiles.writeFile
                       string_of_list_byte ToyFiles.as_metadata
                       Toy.connected_wrapper Toy.ready
                       ToyFiles.decryptFile_params)))
       /\ size {| outputPath := "/tmp/hello.out"; size := 13;
                  integrityCheck := true |}
          = List.length data.
Proof.
  apply (proj2 (@decryptFile_writes_only_verified_data Toy.online
                  ToyFiles.env ToyFiles.readFile ToyFiles.writeFile
                  string_of_list_byte ToyFiles.as_metadata
                  Toy.connected_wrapper Toy.ready
                  ToyFiles.decryptFile_params)).
  vm_compute. reflexivity.
Defined.

(** The two runs do return. *)
Example toy_file_round_trip :
  is_return (snd (fst (LitWrapperOps.encryptFile Toy.online ToyFiles.env
                         ToyFiles.readFile ToyFiles.writeFile
                         ToyFiles.stringify Toy.connected_wrapper Toy.ready
                         ToyFiles.encryptFile_params))) = true
  /\ fst (fst (LitWrapperOps.decryptFile Toy.online ToyFiles.env
                 ToyFiles.readFile ToyFiles.writeFile string_of_list_byte
                 ToyFiles.as_metadata Toy.connected_wrapper Toy.ready
                 ToyFiles.decryptFile_params))
     = [ReadFile ToyFiles.sealed_path; ReadFile ToyFiles.metadata_path;
        WriteFile "/tmp/hello.out" Toy.hello].
Proof. split; vm_compute; reflexivity. Qed.

End WrapperFacts.

(* ====================================================================== *)
(** ** Storage shims *)
(* ====================================================================== *)

Module StorageFacts.

Import Regex RegexFacts StringFacts.

(** *** The map *)

Section WithValues.
Variable V : Type.

Lemma get_set_same (k : string) (v : V) (m : JsMap.t V) :
  JsMap.get k (JsMap.set k v m) = Some v.
Proof.
  induction m as [|[k' v'] m IH]; cbn.
  - now rewrite String.eqb_refl.
  - destruct (String.eqb k k') eqn:E; cbn; now rewrite E.
Qed.

Lemma get_set_other (k k' : string) (v : V) (m : JsMap.t V) :
  k' <> k -> JsMap.get k' (JsMap.set k v m) = JsMap.get k' m.
Proof.
  intros Hne. apply String.eqb_neq in Hne.
  induction m as [|[k0 v0] m IH]; cbn.
  - now rewrite Hne.
  - destruct (String.eqb k k0) eqn:E; cbn.
    + apply String.eqb_eq in E as <-. now rewrite Hne.
    + now rewrite IH.
Qed.

Lemma get_set (k k' : string) (v : V) (m : JsMap.t V) :
  JsMap.get k' (JsMap.set k v m)
  = if String.eqb k' k then Some v else JsMap.get k' m.
Proof.
  destruct (String.eqb k' k) eqn:E.
  - apply String.eqb_eq in E as ->. apply get_set_same.
  - apply String.eqb_neq in E. now apply get_set_other.
Qed.

Lemma get_in_keys (k : string) (m : JsMap.t V) :
  JsMap.get k m <> None <-> In k (JsMap.keys m).
Proof.
  induction m as [|[k' v'] m IH]; cbn; [tauto|].
  destruct (String.eqb k k') eqn:E.
  - apply String.eqb_eq in E as ->. split; [auto | discriminate].
  - apply String.eqb_neq in E. rewrite IH. split; [auto|].
    intros [H|H]; [congruence | exact H].
Qed.

Lemma keys_set (k : string) (v : V) (m : JsMap.t V) :
  JsMap.keys (JsMap.set k v m)
  = match JsMap.get k m with
    | Some _ => JsMap.keys m
    | None => (JsMap.keys m ++ [k])%list
    end.
Proof.
  induction m as [|[k' v'] m IH]; cbn; [reflexivity|].
  destruct (String.eqb k k'); cbn; [reflexivity|].
  unfold JsMap.keys in IH. rewrite IH.
  now destruct (JsMap.get k m).
Qed.

Lemma keys_delete_subset (k k0 : string) (m : JsMap.t V) :
  In k0 (JsMap.keys (JsMap.delete k m)) -> In k0 (JsMap.keys m).
Proof.
  induction m as [|[k' v'] m IH]; cbn; [auto|].
  destruct (String.eqb k k'); cbn; tauto.
Qed.

Lemma NoDup_set (k : string) (v : V) (m : JsMap.t V) :
  NoDup (JsMap.keys m) -> NoDup (JsMap.keys (JsMap.set k v m)).
Proof.
  intros H. rewrite keys_set.
  destruct (JsMap.get k m) eqn:E; [exact H|].
  apply NoDup_app; [exact H | repeat constructor; auto |].
  intros x Hx [<-|[]]. apply get_in_keys in Hx. congruence.
Qed.

Lemma NoDup_delete (k : string) (m : JsMap.t V) :
  NoDup (JsMap.keys m) -> NoDup (JsMap.keys (JsMap.delete k m)).
Proof.
  induction m as [|[k' v'] m IH]; cbn; [auto|].
  intros H. inversion H as [|? ? Hn Hd]; subst.
  destruct (String.eqb k k'); cbn; [exact Hd|].
  constructor; [|auto].
  intros Hin. apply Hn. eapply keys_delete_subset, Hin.
Qed.

Lemma get_delete_same (k : string) (m : JsMap.t V) :
  NoDup (JsMap.keys m) -> JsMap.get k (JsMap.delete k m) = None.
Proof.
  induction m as [|[k' v'] m IH]; cbn; [auto|].
  intros H. inversion H as [|? ? Hn Hd]; subst.
  destruct (String.eqb k k') eqn:E; cbn.
  - apply String.eqb_eq in E as <-.
    destruct (JsMap.get k m) eqn:G; [|reflexivity].
    exfalso. apply Hn, get_in_keys. congruence.
  - rewrite E. auto.
Qed.

Lemma get_delete_other (k k' : string) (m : JsMap.t V) :
  k' <> k -> JsMap.get k' (JsMap.delete k m) = JsMap.get k' m.
Proof.
  intros Hne. apply String.eqb_neq in Hne.
  induction m as [|[k0 v0] m IH]; cbn; [reflexivity|].
  destruct (String.eqb k k0) eqn:E; cbn.
  - apply String.eqb_eq in E as <-. now rewrite Hne.
  - now rewrite IH.
Qed.

End WithValues.

(** *** [MemoryStorage] *)

Lemma reachable_NoDup (s : BrowserShim.MemoryStorage) :
  BrowserShim.reachable s -> NoDup (JsMap.keys (BrowserShim.data s)).
Proof.
  induction 1; cbn.
  - constructor.
  - now apply NoDup_set.
  - now apply NoDup_delete.
  - constructor.
Qed.

(** X24.  A [MemoryStorage] behaves as the [Storage] interface asks:
    [getItem] returns the value last set for the key, setting or removing
    one key changes no other, and a removed key and every key of a cleared
    store read as [null]. *)
Theorem MemoryStorage_keeps_last_value
        (s : BrowserShim.MemoryStorage) (k k' v : string) :
  BrowserShim.reachable s ->
  BrowserShim.getItem k (BrowserShim.setItem k v s) = Some v
  /\ BrowserShim.getItem k (BrowserShim.removeItem k s) = None
  /\ BrowserShim.getItem k (BrowserShim.clear s) = None
  /\ (k' <> k ->
      BrowserShim.getItem k' (BrowserShim.setItem k v s)
      = BrowserShim.getItem k' s
      /\ BrowserShim.getItem k' (BrowserShim.removeItem k s)
         = BrowserShim.getItem k' s).
Proof.
  intros Hr. apply reachable_NoDup in Hr.
  unfold BrowserShim.getItem, BrowserShim.setItem, BrowserShim.removeItem.
  cbn [BrowserShim.data].
  split; [apply get_set_same|]. split; [now apply get_delete_same|].
  split; [reflexivity|]. intros Hne.
  split; [now apply get_set_other | now apply get_delete_other].
Qed.

Lemma nth_error_NoDup_inj (l : list string) (i j : nat) (k : string) :
  NoDup l -> nth_error l i = Some k -> nth_error l j = Some k -> i = j.
Proof.
  intros Hn Hi Hj.
  apply (proj1 (NoDup_nth_error l) Hn).
  - apply nth_error_Some. congruence.
  - congruence.
Qed.

(** X25.  [key(0)], ..., [key(length - 1)] list the keys that have a
    value, each exactly once; every other index gives [null]. *)
Theorem MemoryStorage_key_enumerates_keys (s : BrowserShim.MemoryStorage) :
  BrowserShim.reachable s ->
  (forall i : Z,
      BrowserShim.key i s <> None
      <-> (0 <= i < Z.of_nat (BrowserShim.length s))%Z)
  /\ (forall k : string,
         (exists i : Z, BrowserShim.key i s = Some k)
         <-> BrowserShim.getItem k s <> None)
  /\ (forall (i j : Z) (k : string),
         BrowserShim.key i s = Some k -> BrowserShim.key j s = Some k ->
         i = j).
Proof.
  intros Hr. apply reachable_NoDup in Hr.
  unfold BrowserShim.key, BrowserShim.length, BrowserShim.getItem, JsMap.size.
  assert (Hlen : List.length (JsMap.keys (BrowserShim.data s))
                 = List.length (BrowserShim.data s))
    by apply length_map.
  split; [|split].
  - intros i. destruct (Z.ltb_spec i 0).
    + split; [congruence | lia].
    + rewrite nth_error_Some, Hlen. lia.
  - intros k. rewrite get_in_keys. split.
    + intros [i Hi]. destruct (i <? 0)%Z; [discriminate|].
      eapply nth_error_In, Hi.
    + intros Hin. apply In_nth_error in Hin as [n Hn].
      exists (Z.of_nat n).
      destruct (Z.ltb_spec (Z.of_nat n) 0); [lia|].
      now rewrite Nat2Z.id.
  - intros i j k Hi Hj.
    destruct (Z.ltb_spec i 0); [discriminate|].
    destruct (Z.ltb_spec j 0); [discriminate|].
    pose proof (nth_error_NoDup_inj Hr Hi Hj). lia.
Qed.

(** Setting a key that already has a value changes neither the
    number of keys nor the index of any key; setting a new key puts it at
    the end, at index [length], and leaves the others where they were. *)
Theorem MemoryStorage_setItem_keeps_order
        (s : BrowserShim.MemoryStorage) (k v : string) :
  (BrowserShim.getItem k s <> None ->
   BrowserShim.length (BrowserShim.setItem k v s) = BrowserShim.length s
   /\ forall i : Z,
        BrowserShim.key i (BrowserShim.setItem k v s) = BrowserShim.key i s)
  /\ (BrowserShim.getItem k s = None ->
      BrowserShim.length (BrowserShim.setItem k v s)
      = S (BrowserShim.length s)
      /\ BrowserShim.key (Z.of_nat (BrowserShim.length s))
           (BrowserShim.setItem k v s) = Some k
      /\ forall i : Z,
           (i < Z.of_nat (BrowserShim.length s))%Z ->
           BrowserShim.key i (BrowserShim.setItem k v s)
           = BrowserShim.key i s).
Proof.
  unfold BrowserShim.key, BrowserShim.length, BrowserShim.getItem,
    BrowserShim.setItem, JsMap.size.
  cbn [BrowserShim.data].
  assert (Hlen : forall m : JsMap.t string,
             List.length m = List.length (JsMap.keys m))
    by (intros m; symmetry; apply length_map).
  rewrite !Hlen, keys_set.
  split; intros Hk.
  - destruct (JsMap.get k (BrowserShim.data s)); [|congruence]. auto.
  - rewrite Hk. rewrite List.length_app. cbn [List.length].
    split; [lia|]. split.
    + destruct (Z.ltb_spec (Z.of_nat (List.length (JsMap.keys (BrowserShim.data s)))) 0);
        [lia|].
      rewrite Nat2Z.id, nth_error_app2, Nat.sub_diag by lia. reflexivity.
    + intros i Hi. destruct (Z.ltb_spec i 0); [reflexivity|].
      apply nth_error_app1. lia.
Qed.

(** *** Installing the shims *)


(** *** Decimal numbers *)

Import Decimal.

Lemma digits_fuel_acc (fuel : nat) :
  forall (n : N) (acc : string),
    digits_fuel fuel n acc = digits_fuel fuel n "" ++ acc.
Proof.
  induction fuel as [|fuel IH]; intros n acc; cbn [digits_fuel];
    [reflexivity|].
  destruct (n <? 10)%N; [reflexivity|].
  rewrite IH, (IH _ (String _ "")), append_assoc. reflexivity.
Qed.

Lemma value_app (s1 s2 : string) :
  forall acc : N, value (s1 ++ s2) acc = value s2 (value s1 acc).
Proof. induction s1 as [|c s1 IH]; intros acc; cbn; auto. Qed.

Lemma digit_code (n : N) :
  N_of_ascii (ascii_of_N (48 + n mod 10)) = (48 + n mod 10)%N.
Proof.
  apply N_ascii_embedding.
  pose proof (N.mod_upper_bound n 10). lia.
Qed.

Lemma value_digits (fuel : nat) :
  forall n : N, (n < 2 ^ N.of_nat fuel)%N ->
                value (digits_fuel fuel n "") 0 = n.
Proof.
  induction fuel as [|fuel IH]; intros n Hn.
  - cbn in Hn. cbn. lia.
  - cbn [digits_fuel].
    destruct (N.ltb_spec n 10) as [Hs|Hs].
    + cbn [value]. rewrite digit_code.
      rewrite N.mod_small by lia. lia.
    + rewrite digits_fuel_acc, value_app, IH.
      * cbn [value]. rewrite digit_code.
        clear. zify. Z.to_euclidean_division_equations. lia.
      * rewrite Nat2N.inj_succ, N.pow_succ_r' in Hn.
        apply N.Div0.div_lt_upper_bound. lia.
Qed.

Lemma value_string_of_N (n : N) : value (string_of_N n) 0 = n.
Proof.
  unfold string_of_N. apply value_digits.
  rewrite Nat2N.inj_succ, N2Nat.id.
  destruct n as [|p]; [reflexivity|].
  apply N.log2_spec. lia.
Qed.

Lemma digits_are_digits (fuel : nat) :
  forall (n : N) (acc : string),
    all is_digit acc = true -> all is_digit (digits_fuel fuel n acc) = true.
Proof.
  induction fuel as [|fuel IH]; intros n acc Ha; cbn [digits_fuel]; [auto|].
  assert (Hd : all is_digit (String (ascii_of_N (48 + n mod 10)) acc) = true).
  { cbn [all]. rewrite Ha, andb_true_r. unfold is_digit.
    rewrite digit_code.
    apply andb_true_iff. split; apply N.leb_le; clear;
      zify; Z.to_euclidean_division_equations; lia. }
  destruct (n <? 10)%N; auto.
Qed.

Lemma parse_string_of_Z (z : Z) : parse_Z (string_of_Z z) = z.
Proof.
  destruct z as [|p|p]; cbn [string_of_Z].
  - reflexivity.
  - pose proof (value_string_of_N (Npos p)) as Hv.
    pose proof (@digits_are_digits (S (N.to_nat (N.log2 (Npos p)))) (Npos p)
                  "" eq_refl) as Hd.
    fold (string_of_N (Npos p)) in Hd.
    destruct (string_of_N (Npos p)) as [|c rest]; [discriminate Hv|].
    unfold parse_Z.
    destruct (Ascii.eqb_spec c "-") as [->|_]; [discriminate Hd|].
    now rewrite Hv.
  - cbn [append parse_Z]. cbn [Ascii.eqb Bool.eqb].
    now rewrite value_string_of_N.
Qed.

Lemma all_impl (p q : ascii -> bool) (s : string) :
  (forall c, p c = true -> q c = true) -> all p s = true -> all q s = true.
Proof.
  intros Hpq. induction s as [|c s IH]; cbn; [auto|].
  intros H. apply andb_true_iff in H as [Hc Hs].
  now rewrite (Hpq c Hc), IH.
Qed.

Lemma numerals_string_of_Z (z : Z) : all is_numeral (string_of_Z z) = true.
Proof.
  assert (H : forall n, all is_numeral (string_of_N n) = true).
  { intros n. unfold string_of_N.
    apply all_impl with (p := is_digit);
      [|now apply digits_are_digits].
    intros c Hc. unfold is_numeral. now rewrite Hc. }
  destruct z; cbn [string_of_Z]; [reflexivity | apply H |].
  cbn [append all]. now rewrite H.
Qed.

Lemma append_cancel_l (p a b : string) : p ++ a = p ++ b -> a = b.
Proof. induction p; cbn; [auto | intros [= E]; auto]. Qed.

Lemma split_at_separator (p : ascii -> bool) (sep : ascii) (a : string) :
  forall a' b b' : string,
    p sep = false -> all p a = true -> all p a' = true ->
    a ++ String sep b = a' ++ String sep b' -> a = a' /\ b = b'.
Proof.
  induction a as [|c a IH]; intros a' b b' Hs Ha Ha' E.
  - destruct a' as [|c' a']; cbn in E.
    + injection E as ->. auto.
    + injection E as <- _. cbn in Ha'. rewrite Hs in Ha'. discriminate.
  - destruct a' as [|c' a']; cbn in E.
    + injection E as -> _. cbn in Ha. rewrite Hs in Ha. discriminate.
    + injection E as <- E. cbn in Ha, Ha'.
      apply andb_true_iff in Ha as [_ Ha].
      apply andb_true_iff in Ha' as [_ Ha'].
      destruct (IH a' b b' Hs Ha Ha' E) as [-> ->]. auto.
Qed.

(** *** The memory storage of the auth manager *)

Section WithApp.
Variable LitAuthData : Type.
Variable appName networkName : string.

Local Abbreviation Stores := (LitStorage.Stores LitAuthData).
Local Abbreviation read := (LitStorage.read appName networkName).
Local Abbreviation write := (@LitStorage.write LitAuthData appName networkName).

Lemma numbered_key_inj (prefix : string) (t t' : Z) (i i' : string) :
  prefix ++ ":" ++ appName ++ ":" ++ networkName ++ ":"
    ++ string_of_Z t ++ ":" ++ i
  = prefix ++ ":" ++ appName ++ ":" ++ networkName ++ ":"
      ++ string_of_Z t' ++ ":" ++ i' ->
  t = t' /\ i = i'.
Proof.
  intros E.
  apply append_cancel_l in E. cbn [append] in E. injection E as E.
  apply append_cancel_l in E. injection E as E.
  apply append_cancel_l in E. injection E as E.
  apply (@split_at_separator is_numeral ":") in E as [Et ->];
    [|reflexivity | apply numerals_string_of_Z..].
  split; [|reflexivity].
  rewrite <- (parse_string_of_Z t), <- (parse_string_of_Z t'). now rewrite Et.
Qed.

(** X27.  Auth data written for an address is what [read] returns for
    that address until it is written again, writing for one address
    changes what no other address reads, and the inner delegation
    signatures, though their keys are built by the same function, live in
    a map of their own: no address reads them and writing them changes no
    address. *)
Theorem auth_data_is_kept_per_address
        (s : Stores) (address other : string) (authData : LitAuthData)
        (publicKey authSig : string) :
  read address (write address authData s) = Some authData
  /\ (other <> address ->
      read other (write address authData s) = read other s)
  /\ read other
       (LitStorage.writeInnerDelegationAuthSig appName networkName
          publicKey authSig s)
     = read other s
  /\ LitStorage.readInnerDelegationAuthSig appName networkName publicKey
       (LitStorage.writeInnerDelegationAuthSig appName networkName
          publicKey authSig s)
     = Some authSig
  /\ LitStorage.readInnerDelegationAuthSig appName networkName publicKey
       (write address authData s)
     = LitStorage.readInnerDelegationAuthSig appName networkName publicKey s.
Proof.
  unfold LitStorage.read, LitStorage.write,
    LitStorage.readInnerDelegationAuthSig,
    LitStorage.writeInnerDelegationAuthSig.
  cbn [LitStorage.authDataStore LitStorage.innerDelegationStore].
  split; [apply get_set_same|]. split; [|split; [reflexivity|]].
  - intros Hne. apply get_set_other. intros E. apply Hne.
    unfold LitStorage.buildLookupKey in E.
    apply append_cancel_l in E. cbn [append] in E. injection E as E.
    apply append_cancel_l in E. injection E as E.
    apply append_cancel_l in E. now injection E.
  - split; [apply get_set_same | reflexivity].
Qed.

(** X28.  The PKP caches are keyed by the pair of auth method type and
    auth method id: after [writePKPTokens] and [writePKPs], reading with
    the same pair gives what was written and reading with any other pair,
    whether the type or the id differs, gives what was there before.  No
    two pairs share a cache key, and the token cache and the PKP cache do
    not touch each other. *)
Theorem pkp_caches_are_keyed_by_type_and_id
        (s : Stores) (now : Z) (t t' : Z) (i i' : string)
        (tokenIds : list string) (pkps : list LitStorage.PKPData) :
  LitStorage.readPKPTokens appName networkName t' i'
    (LitStorage.writePKPTokens appName networkName now t i tokenIds s)
  = (if Z.eqb t' t && String.eqb i' i then Some tokenIds
     else LitStorage.readPKPTokens appName networkName t' i' s)
  /\ LitStorage.readPKPs appName networkName t' i'
       (LitStorage.writePKPs appName networkName now t i pkps s)
     = (if Z.eqb t' t && String.eqb i' i then Some pkps
        else LitStorage.readPKPs appName networkName t' i' s)
  /\ LitStorage.readPKPs appName networkName t' i'
       (LitStorage.writePKPTokens appName networkName now t i tokenIds s)
     = LitStorage.readPKPs appName networkName t' i' s
  /\ LitStorage.readPKPTokens appName networkName t' i'
       (LitStorage.writePKPs appName networkName now t i pkps s)
     = LitStorage.readPKPTokens appName networkName t' i' s.
Proof.
  unfold LitStorage.readPKPTokens, LitStorage.writePKPTokens,
    LitStorage.readPKPs, LitStorage.writePKPs.
  cbn [LitStorage.pkpTokensStore LitStorage.pkpFullStore].
  rewrite !get_set.
  assert (Hkey : forall prefix,
             String.eqb
               (prefix ++ ":" ++ appName ++ ":" ++ networkName ++ ":"
                  ++ string_of_Z t' ++ ":" ++ i')
               (prefix ++ ":" ++ appName ++ ":" ++ networkName ++ ":"
                  ++ string_of_Z t ++ ":" ++ i)
             = Z.eqb t' t && String.eqb i' i).
  { intros prefix.
    destruct (Z.eqb_spec t' t) as [->|Ht];
      [destruct (String.eqb_spec i' i) as [->|Hi]|]; cbn [andb].
    - apply String.eqb_refl.
    - apply String.eqb_neq. intros E.
      now apply numbered_key_inj in E as [_ E].
    - apply String.eqb_neq. intros E.
      now apply numbered_key_inj in E as [E _]. }
  unfold LitStorage.buildPKPCacheKey, LitStorage.buildPKPFullCacheKey.
  rewrite !Hkey.
  split; [|split; [|split; reflexivity]];
    now destruct (Z.eqb t' t && String.eqb i' i).
Qed.

End WithApp.

(** *** Small stores *)

Lemma MemoryStorage_keeps_last_value_witness :
  BrowserShim.getItem "token"
    (BrowserShim.setItem "token" "b"
       (BrowserShim.setItem "token" "a" BrowserShim.new_MemoryStorage))
  = Some "b".
Proof.
  apply (@MemoryStorage_keeps_last_value
           (BrowserShim.setItem "token" "a" BrowserShim.new_MemoryStorage)
           "token" "other" "b").
  apply BrowserShim.reach_setItem, BrowserShim.reach_new.
Defined.

Lemma MemoryStorage_key_enumerates_keys_witness :
  BrowserShim.key 1
    (BrowserShim.setItem "b" "2"
       (BrowserShim.setItem "a" "1" BrowserShim.new_MemoryStorage))
  <> None
  <-> (0 <= 1
       < Z.of_nat
           (BrowserShim.length
              (BrowserShim.setItem "b" "2"
                 (BrowserShim.setItem "a" "1"
                    BrowserShim.new_MemoryStorage))))%Z.
Proof.
  apply (proj1 (@MemoryStorage_key_enumerates_keys
                  (BrowserShim.setItem "b" "2"
                     (BrowserShim.setItem "a" "1"
                        BrowserShim.new_MemoryStorage))
                  (BrowserShim.reach_setItem "b" "2"
                     (BrowserShim.reach_setItem "a" "1"
                        BrowserShim.reach_new)))
           1%Z).
Defined.

Lemma MemoryStorage_setItem_keeps_order_witness :
  BrowserShim.length
    (BrowserShim.setItem "a" "3"
       (BrowserShim.setItem "b" "2"
          (BrowserShim.setItem "a" "1" BrowserShim.new_MemoryStorage)))
  = BrowserShim.length
      (BrowserShim.setItem "b" "2"
         (BrowserShim.setItem "a" "1" BrowserShim.new_MemoryStorage))
  /\ forall i : Z,
       BrowserShim.key i
         (BrowserShim.setItem "a" "3"
            (BrowserShim.setItem "b" "2"
               (BrowserShim.setItem "a" "1" BrowserShim.new_MemoryStorage)))
       = BrowserShim.key i
           (BrowserShim.setItem "b" "2"
              (BrowserShim.setItem "a" "1" BrowserShim.new_MemoryStorage)).
Proof.
  apply (@MemoryStorage_setItem_keeps_order
           (BrowserShim.setItem "b" "2"
              (BrowserShim.setItem "a" "1" BrowserShim.new_MemoryStorage))
           "a" "3").
  vm_compute. discriminate.
Defined.

Lemma auth_data_is_kept_per_address_witness :
  LitStorage.read "haven-player" "naga-dev" "0xb"
    (LitStorage.write "haven-player" "naga-dev" "0xa" 1
       (LitStorage.createMemoryStorage nat))
  = LitStorage.read "haven-player" "naga-dev" "0xb"
      (LitStorage.createMemoryStorage nat).
Proof.
  apply (proj1 (proj2 (@auth_data_is_kept_per_address nat "haven-player"
                         "naga-dev" (LitStorage.createMemoryStorage nat)
                         "0xa" "0xb" 1 "pk" "sig"))).
  discriminate.
Defined.

End StorageFacts.

(* ====================================================================== *)
(** ** Connecting to Synapse, and the payment checks *)
(* ====================================================================== *)

Module SessionFacts.

Import HybridCryptoSupport SynapseSession.

Section WithPlatform.
Variable env : string -> option string.
Variable fetch : string -> option string -> completion Response.

Local Abbreviation connect := (SynapseSession.connect env fetch).

Lemma health_check_shape (endpoint apiKey : string) :
  exists (authorization : option string) (rest : list Event),
    health_check fetch endpoint apiKey
    = Fetch (endpoint ++ "/health") authorization :: rest
    /\ (rest = [] \/ exists message, rest = [Warn message]).
Proof.
  unfold health_check. do 2 eexists. split; [reflexivity|].
  destruct (fetch _ _) as [response|[message|rendered]].
  - destruct (negb (ok response) && negb (Nat.eqb (status response) 404));
      [|now left].
    destruct (negb (includes "404" _)); eauto.
  - destruct (negb (includes "404" message)); eauto.
  - now left.
Qed.

(** X29.  [connect] of the Synapse wrapper succeeds exactly when an API
    key or a private key is there, from the parameters or else the
    environment; an empty string passed as parameter hides the variable
    of the environment.  The health check cannot make it fail: whatever
    [fetch] does, the wrapper ends connected after one request to
    [<endpoint>/health] and at most one warning.  Without credentials
    nothing is requested and the wrapper is left as it was. *)
Theorem synapse_connect_ignores_health_check
        (w : Wrapper) (params : ConnectParams) :
  (apiKey_of env params = "" /\ privateKey_of env params = "" ->
   connect w params = ([], Throw credentials_required, w))
  /\ (apiKey_of env params <> "" \/ privateKey_of env params <> "" ->
      snd (fst (connect w params))
      = Return {| connected := true;
                  result_endpoint := endpoint_of params |}
      /\ _isConnected (snd (connect w params)) = true
      /\ _privateKey (snd (connect w params)) = privateKey_of env params
      /\ exists (authorization : option string) (rest : list Event),
           fst (fst (connect w params))
           = Fetch (endpoint_of params ++ "/health") authorization :: rest
           /\ (rest = [] \/ exists message, rest = [Warn message]))
  /\ (apiKey params = Some "" -> privateKey params = Some "" ->
      connect w params = ([], Throw credentials_required, w)).
Proof.
  unfold SynapseSession.connect. split; [|split].
  - intros [-> ->]. reflexivity.
  - intros Hcred.
    assert (E : negb (string_truthy (apiKey_of env params))
                && negb (string_truthy (privateKey_of env params)) = false).
    { unfold string_truthy. rewrite !negb_involutive.
      apply andb_false_iff.
      destruct Hcred as [H|H]; [left | right]; now apply String.eqb_neq. }
    rewrite E. cbn [fst snd _isConnected _privateKey].
    repeat split. apply health_check_shape.
  - intros Ha Hp. unfold apiKey_of, privateKey_of. now rewrite Ha, Hp.
Qed.

(** [disconnect] of the Synapse wrapper clears the connected
    flag, the endpoint and the API key, and keeps the private key and the
    RPC URL a [connect] has stored: the key given to [connect] is still in
    the wrapper after [disconnect]. *)
Theorem synapse_disconnect_keeps_private_key
        (w : Wrapper) (params : ConnectParams) :
  is_return (snd (fst (connect w params))) = true ->
  let w' := snd (disconnect (snd (connect w params))) in
  _isConnected w' = false /\ _endpoint w' = "" /\ _apiKey w' = ""
  /\ _privateKey w' = privateKey_of env params
  /\ _rpcUrl w' = rpcUrl_of env params.
Proof.
  unfold SynapseSession.connect.
  destruct (negb _ && negb _); [discriminate|].
  intros _. cbn. auto.
Qed.

End WithPlatform.

Section Payment.
Variable Provider : Type.
Variable JsonRpcProvider : string -> completion Provider.
Variable Wallet : string -> completion string.
Variable Wallet_on : string -> Provider -> completion string.
Variable getBalance : Provider -> string -> completion N.

(** X30.  The payment checks of lit-payment.ts never gate anything.
    [checkPaymentReadiness] never throws and never reports [ready],
    whatever the key and the wallet library do, and its status is
    [no_credits] or [error] as the wallet can be built or not;
    [mintCapacityCredits] never returns; and [verifyPaymentSetup] returns
    on the two dev networks without looking at the key, and on every other
    network exactly when [createCapacityCreditWallet] builds the wallet:
    no balance, no failing balance query and no missing capacity credit
    makes it throw. *)
Theorem payment_checks_never_gate (privateKey network : string) :
  LitPayment.ready (LitPayment.checkPaymentReadiness Wallet privateKey) = false
  /\ is_return (LitPayment.mintCapacityCredits JsonRpcProvider Wallet_on
                  privateKey) = false
  /\ is_return (snd (LitPayment.verifyPaymentSetup JsonRpcProvider Wallet_on
                       getBalance privateKey network))
     = (String.eqb network "naga-dev" || String.eqb network "datil-dev"
        || is_return (LitPayment.createCapacityCreditWallet JsonRpcProvider
                        Wallet_on privateKey))
  /\ LitPayment.status (LitPayment.checkPaymentReadiness Wallet privateKey)
     = (if is_return (Wallet privateKey) then "no_credits" else "error").
Proof.
  unfold LitPayment.checkPaymentReadiness, LitPayment.mintCapacityCredits,
    LitPayment.verifyPaymentSetup, LitPayment.checkLitKeyBalance,
    LitPayment.createCapacityCreditWallet.
  split; [now destruct (Wallet privateKey)|].
  split.
  { destruct (LitPayment.getChronicleProvider JsonRpcProvider) as [p|];
      [|reflexivity].
    now destruct (Wallet_on (prefix_0x privateKey) p). }
  split; [|now destruct (Wallet privateKey)].
  destruct (String.eqb network "naga-dev" || String.eqb network "datil-dev");
    [reflexivity|].
  destruct (LitPayment.getChronicleProvider JsonRpcProvider) as [p|];
    [|reflexivity].
  destruct (Wallet_on (prefix_0x privateKey) p) as [address|]; [|reflexivity].
  now destruct (getBalance p address).
Qed.

End Payment.

(** *** An endpoint that is down *)

Lemma synapse_connect_ignores_health_check_witness :
  snd (fst (SynapseSession.connect no_env unreachable createSynapseWrapper
              {| networkMode := None; endpoint := None; apiKey := None;
                 privateKey := Some "0xabc"; rpcUrl := None |}))
  = Return {| connected := true; result_endpoint := CALIBRATION_RPC |}
  /\ _isConnected
       (snd (SynapseSession.connect no_env unreachable createSynapseWrapper
               {| networkMode := None; endpoint := None; apiKey := None;
                  privateKey := Some "0xabc"; rpcUrl := None |}))
     = true.
Proof.
  pose proof (proj1 (proj2 (@synapse_connect_ignores_health_check no_env
                              unreachable createSynapseWrapper
                              {| networkMode := None; endpoint := None;
                                 apiKey := None; privateKey := Some "0xabc";
                                 rpcUrl := None |}))
                ltac:(right; discriminate)) as (H1 & H2 & _).
  split; [exact H1 | exact H2].
Defined.

Lemma synapse_disconnect_keeps_private_key_witness :
  _privateKey
    (snd (disconnect
            (snd (SynapseSession.connect no_env unreachable
                    createSynapseWrapper
                    {| networkMode := None; endpoint := None; apiKey := None;
                       privateKey := Some "0xabc"; rpcUrl := None |}))))
  = "0xabc".
Proof.
  apply (@synapse_disconnect_keeps_private_key no_env unreachable
           createSynapseWrapper
           {| networkMode := None; endpoint := None; apiKey := None;
              privateKey := Some "0xabc"; rpcUrl := None |}).
  reflexivity.
Defined.

End SessionFacts.
